(** * Verification of the FIA/GLWB monthly projection engine, its assumption
    tables, the IRR solver and the CARVM reserve calculator.

    Modelling conventions.
    - Rust [f64] values are modelled as exact real numbers [R]; [+ - * /] are the
      field operations, [f64::max]/[f64::min] are [Rmax]/[Rmin], comparisons are
      decided with [Rlt_dec]/[Rle_dec].  Rounding is not modelled.
    - [powf] is [Rpower] on a positive base; [0.powf(y)] is [0] for [y > 0] and
      [1] otherwise.  A negative base (NaN in IEEE) is mapped to [0].
    - [f64::powi] takes an [i32] exponent; the source always passes
      [n as i32] for an unsigned [n], which keeps the low 32 bits in two's
      complement ([as_i32]), so [n >= 2^31] gives a negative exponent.  A
      negative exponent is the reciprocal power, and the reciprocal of [0]
      (infinite in IEEE) is [/ 0] as for any division.
    - [u32]/[u8] counters are [nat]; [saturating_sub(1)] is [Nat.pred]. *)

From Stdlib Require Import Reals Lra Lia List NArith ZArith.
Import ListNotations.
Open Scope R_scope.

(** ** Floating-point helpers *)

Definition powf (x y : R) : R :=
  if Rlt_dec 0 x then Rpower x y
  else if Rlt_dec 0 y then 0 else 1.

(** Two's-complement wrap-around to 32 bits. *)
Definition wrap_i32 (z : Z) : Z :=
  let w := Z.modulo z (2 ^ 32) in if Z.ltb w (2 ^ 31) then w else (w - 2 ^ 32)%Z.

(** [n as i32] for a [u32] or [usize] value [n]. *)
Definition as_i32 (n : nat) : Z := wrap_i32 (Z.of_nat n).

Definition i32_MAX : Z := 2147483647.

(** [x.powi(n)] *)
Definition powi (x : R) (n : Z) : R :=
  if Z.leb 0 n then x ^ Z.to_nat n else / x ^ Z.to_nat (- n).

(** [f64::max] / [f64::min] (no NaN). *)
Definition fmax (x y : R) : R := Rmax x y.
Definition fmin (x y : R) : R := Rmin x y.

(** [Vec::get(i).copied().unwrap_or(d)] *)
Definition get_or {A} (l : list A) (i : nat) (d : A) : A :=
  match nth_error l i with Some x => x | None => d end.

(** [Vec::last().copied()] *)
Definition last_opt {A} (l : list A) : option A :=
  match rev l with [] => None | x :: _ => Some x end.

(** ** Policy data (src/policy/data.rs) *)

Inductive QualStatus := Qual_Q | Qual_N.
Inductive Gender := Female | Male.
Inductive CreditingStrategy := Indexed | Fixed.
Inductive BenefitBaseBucket :=
  Under50k | From50kTo100k | From100kTo200k | From200kTo500k | Over500k.

Record Policy := mkPolicy {
  policy_id : nat;
  qual_status : QualStatus;
  issue_age : nat;
  gender : Gender;
  initial_benefit_base : R;
  initial_pols : R;
  initial_premium : R;
  benefit_base_bucket : BenefitBaseBucket;
  crediting_strategy : CreditingStrategy;
  sc_period : nat;
  val_rate : R;
  duration_months : nat;
  p_income_activated : bool;
  glwb_start_year : nat;
  current_av : option R;
  current_benefit_base : option R
}.

Definition starting_av (p : Policy) : R :=
  match current_av p with Some a => a | None => initial_premium p end.

Definition starting_benefit_base (p : Policy) : R :=
  match current_benefit_base p with Some b => b | None => initial_benefit_base p end.

(** [total_months.saturating_sub(1) / 12 + 1] *)
Definition policy_year (p : Policy) (projection_month : nat) : nat :=
  Nat.pred (duration_months p + projection_month) / 12 + 1.

(** [(total_months.saturating_sub(1) % 12) + 1] *)
Definition month_in_policy_year (p : Policy) (projection_month : nat) : nat :=
  Nat.pred (duration_months p + projection_month) mod 12 + 1.

(** [issue_age.saturating_add((policy_year - 1) as u8)] *)
Definition attained_age (p : Policy) (projection_month : nat) : nat :=
  Nat.min 255 (issue_age p + (policy_year p projection_month - 1) mod 256).

Definition should_activate_income (p : Policy) (projection_month : nat) : bool :=
  orb (p_income_activated p) (Nat.leb (glwb_start_year p) (policy_year p projection_month)).

(** ** Mortality (src/assumptions/mortality.rs) *)

Inductive MonthlyConversion := Standard | SimpleDivision | ExcelMethod.

Record MortalityTable := mkMortalityTable {
  base_rates : list (R * R);          (* (female, male) by age *)
  age_factors : list R;
  improvement_rates : list (R * R);   (* (female, male) by age *)
  conversion_method : MonthlyConversion;
  table_base_year : nat;
  projection_year : nat
}.

Definition by_gender (g : Gender) (fm : R * R) : R :=
  match g with Female => fst fm | Male => snd fm end.

Definition improvement_rate (t : MortalityTable) (age : nat) (g : Gender) : R :=
  match nth_error (improvement_rates t) age with
  | Some fm => by_gender g fm
  | None => 0
  end.

Definition get_age_factor (t : MortalityTable) (age : nat) : R :=
  get_or (age_factors t) age 1.

Definition raw_base_rate (t : MortalityTable) (age : nat) (g : Gender) : R :=
  match nth_error (base_rates t) age with
  | Some fm => by_gender g fm
  | None => 1
  end.

(** [u32] subtraction [a - b]: overflow-checked builds panic when [b > a],
    release builds wrap modulo [2^32]; the model wraps. *)
Definition u32_sub (a b : Z) : Z := if Z.leb b a then (a - b)%Z else (a - b + 2 ^ 32)%Z.

Definition monthly_rate (t : MortalityTable) (attained_age : nat) (g : Gender)
    (projection_month : nat) : R :=
  match nth_error (base_rates t) attained_age with
  | None => 1 / 12
  | Some fm =>
      let base_annual := by_gender g fm in
      let age_factor := get_age_factor t attained_age in
      let best_estimate_annual := base_annual * age_factor in
      let years_improvement :=
        IZR (u32_sub (u32_sub (Z.of_nat (projection_year t)) (Z.of_nat (table_base_year t))) 1)
        + INR projection_month / 12 in
      let imp := improvement_rate t attained_age g in
      let improvement_factor := powf (1 - imp) years_improvement in
      let improved_annual := best_estimate_annual * improvement_factor in
      match conversion_method t with
      | Standard => 1 - powf (1 - improved_annual) (1 / 12)
      | SimpleDivision => improved_annual / 12
      | ExcelMethod => best_estimate_annual * age_factor / 12 * improvement_factor
      end
  end.

Definition iam_2012_base_rates : list (R * R) := [
    (0.001801, 0.001783); (0.00045, 0.000446); (0.000287, 0.000306); (0.000199, 0.000254);
    (0.000152, 0.000193); (0.000139, 0.000186); (0.00013, 0.000184); (0.000122, 0.000177);
    (0.000105, 0.000159); (0.000098, 0.000143); (0.000094, 0.000126); (0.000096, 0.000123);
    (0.000105, 0.000147); (0.00012, 0.000188); (0.000146, 0.000236); (0.000174, 0.000282);
    (0.000199, 0.000325); (0.00022, 0.000364); (0.000234, 0.000399); (0.000245, 0.00043);
    (0.000253, 0.000459); (0.00026, 0.000492); (0.000266, 0.000526); (0.000272, 0.000569);
    (0.000275, 0.000616); (0.000277, 0.000669); (0.000284, 0.000728); (0.00029, 0.000764);
    (0.0003, 0.000789); (0.000313, 0.000808); (0.000333, 0.000824); (0.000357, 0.000834);
    (0.000375, 0.000838); (0.00039, 0.000828); (0.000405, 0.000808); (0.000424, 0.000789);
    (0.000447, 0.000783); (0.000476, 0.0008); (0.000514, 0.000837); (0.00056, 0.000889);
    (0.000613, 0.000955); (0.000667, 0.001029); (0.000723, 0.00111); (0.000774, 0.001188);
    (0.000823, 0.001268); (0.000866, 0.001355); (0.000917, 0.001464); (0.000983, 0.001615);
    (0.001072, 0.001808); (0.001168, 0.002032); (0.00129, 0.002285); (0.001453, 0.002557);
    (0.001622, 0.002828); (0.001792, 0.003088); (0.001972, 0.003345); (0.002166, 0.003616);
    (0.002393, 0.003922); (0.002666, 0.004272); (0.003, 0.004681); (0.003393, 0.005146);
    (0.003844, 0.005662); (0.004352, 0.006237); (0.004899, 0.006854); (0.005482, 0.00751);
    (0.006118, 0.00822); (0.006829, 0.009007); (0.007279, 0.009497); (0.007821, 0.010085);
    (0.008475, 0.010787); (0.009234, 0.011625); (0.010083, 0.012619); (0.011011, 0.013798);
    (0.01203, 0.015195); (0.013154, 0.016834); (0.014415, 0.018733); (0.015869, 0.020905);
    (0.017555, 0.023367); (0.0195, 0.026155); (0.021758, 0.029306); (0.024412, 0.032858);
    (0.027579, 0.036927); (0.031501, 0.041703); (0.036122, 0.046957); (0.041477, 0.052713);
    (0.047589, 0.059148); (0.054441, 0.066505); (0.061972, 0.075015); (0.070155, 0.084823);
    (0.078963, 0.095987); (0.088336, 0.108482); (0.098197, 0.122214); (0.108323, 0.136799);
    (0.119188, 0.152409); (0.131334, 0.169078); (0.145521, 0.186882); (0.162722, 0.205844);
    (0.18212, 0.219247); (0.199661, 0.238612); (0.217946, 0.258341); (0.236834, 0.278219);
    (0.256357, 0.298452); (0.283802, 0.32361); (0.304716, 0.344191); (0.325819, 0.364633);
    (0.346936, 0.384783); (0.367898, 0.4); (0.387607, 0.4); (0.4, 0.4);
    (0.4, 0.4); (0.4, 0.4); (0.4, 0.4); (0.4, 0.4);
    (0.4, 0.4); (0.4, 0.4); (0.4, 0.4); (0.4, 0.4);
    (0.4, 0.4); (0.4, 0.4); (0.4, 0.4); (0.4, 0.4);
    (0.4, 0.4)
  ].

(** [default_age_factors]: 0.6 up to 60, linear to 1.0 at 90, 1.0 beyond. *)
Definition default_age_factor (age : nat) : R :=
  if Nat.leb age 60 then 0.6
  else if Nat.leb age 89 then 0.6 + 0.4 * INR (age - 60) / 30
  else 1.

Definition default_age_factors : list R := map default_age_factor (seq 0 121).

Definition default_improvement_rate (age : nat) : R * R :=
  if andb (Nat.leb 51 age) (Nat.leb age 80) then
    ((if Nat.leb age 52 then 0.01 else if Nat.leb age 58 then 0.012 else 0.013),
     (if Nat.leb age 50 then 0.01 else if Nat.leb age 52 then 0.011
      else if Nat.leb age 54 then 0.012 else if Nat.leb age 56 then 0.013
      else if Nat.leb age 58 then 0.014 else 0.015))
  else match age with
  | 81 => (0.012, 0.014) | 82 => (0.012, 0.013) | 83 => (0.011, 0.013)
  | 84 => (0.010, 0.012) | 85 => (0.010, 0.011) | 86 => (0.009, 0.010)
  | 87 => (0.008, 0.009) | 88 => (0.007, 0.009) | 89 => (0.007, 0.008)
  | 90 => (0.006, 0.007) | 91 => (0.006, 0.007) | 92 => (0.005, 0.006)
  | 93 => (0.005, 0.005) | 94 => (0.004, 0.005) | 95 => (0.004, 0.004)
  | 96 => (0.004, 0.004) | 97 => (0.003, 0.003) | 98 => (0.003, 0.003)
  | 99 => (0.002, 0.002) | 100 => (0.002, 0.002) | 101 => (0.002, 0.002)
  | 102 => (0.001, 0.001) | 103 => (0.001, 0.001)
  | _ => if Nat.leb 104 age then (0, 0) else (0.01, 0.01)
  end.

Definition default_improvement_rates : list (R * R) :=
  map default_improvement_rate (seq 0 121).

Definition iam_2012_with_improvement : MortalityTable := {|
  base_rates := iam_2012_base_rates;
  age_factors := default_age_factors;
  improvement_rates := default_improvement_rates;
  conversion_method := Standard;
  table_base_year := 2012;
  projection_year := 2026
|}.

Definition baseline_annual_rate (t : MortalityTable) (attained_age : nat) (g : Gender) : R :=
  match nth_error (base_rates t) attained_age with
  | None => 1
  | Some fm => by_gender g fm * get_age_factor t attained_age
  end.

(** [v[i] = x] when [i < v.len()] (the callers below check the bound first). *)
Fixpoint list_set {A} (l : list A) (i : nat) (x : A) : list A :=
  match l, i with
  | [], _ => []
  | _ :: tl, O => x :: tl
  | y :: tl, S i' => y :: list_set tl i' x
  end.

Definition with_age_factors (t : MortalityTable) (factors : list R) : MortalityTable :=
  mkMortalityTable (base_rates t) factors (improvement_rates t) (conversion_method t)
    (table_base_year t) (projection_year t).

(** [set_age_factor]: writes only when [age < age_factors.len()]. *)
Definition set_age_factor (t : MortalityTable) (age : nat) (factor : R) : MortalityTable :=
  if Nat.ltb age (length (age_factors t))
  then with_age_factors t (list_set (age_factors t) age factor)
  else t.

(** [scale_age_factors]: [*factor *= multiplier] for every stored factor. *)
Definition scale_age_factors (t : MortalityTable) (multiplier : R) : MortalityTable :=
  with_age_factors t (map (fun factor => factor * multiplier) (age_factors t)).

Definition set_conversion_method (t : MortalityTable) (method : MonthlyConversion) : MortalityTable :=
  mkMortalityTable (base_rates t) (age_factors t) (improvement_rates t) method
    (table_base_year t) (projection_year t).

(** [graded_age_factors].  [None] where the Rust code panics: [end_age - start_age]
    underflows when [end_age < start_age], and [factors[age]] is out of bounds
    when [end_age > 120].  (For [start_age = end_age] Rust computes [0.0 / 0.0],
    a NaN, at that age; the theorems below assume [start_age < end_age].) *)
Definition graded_age_factors (start_age end_age : nat) (start_factor end_factor : R)
    : option (list R) :=
  if Nat.ltb end_age start_age then None
  else if Nat.ltb 120 end_age then None
  else
    let factors := repeat start_factor 121 in
    let grade_years := INR (end_age - start_age) in
    let factors := fold_left (fun fs age =>
        let years_from_start := INR (age - start_age) in
        list_set fs age (start_factor + (end_factor - start_factor) * years_from_start / grade_years))
      (seq start_age (S (end_age - start_age))) factors in
    let factors := fold_left (fun fs age => list_set fs age end_factor)
      (seq (S end_age) (120 - end_age)) factors in
    Some factors.

(** ** Product features (src/assumptions/product.rs) *)

Record SurrenderChargeSchedule := mkSurrenderChargeSchedule { charges : list R }.

Definition sc_get_rate (s : SurrenderChargeSchedule) (policy_year : nat) : R :=
  match policy_year with
  | O => get_or (charges s) 0 0
  | S _ => get_or (charges s) (Nat.pred policy_year) 0
  end.

Definition default_10_year : SurrenderChargeSchedule :=
  mkSurrenderChargeSchedule [0.09; 0.09; 0.08; 0.07; 0.06; 0.05; 0.04; 0.03; 0.02; 0.01].

(** [PayoutFactors.single_life] is a [HashMap<(u8, u8), f64>] from age bands to
    rates; it is modelled by the list of its entries in iteration order.  The
    theorems below quantify over every list, hence over every iteration order. *)
Record PayoutFactors := mkPayoutFactors { single_life : list ((nat * nat) * R) }.

Fixpoint find_band (l : list ((nat * nat) * R)) (age : nat) : option R :=
  match l with
  | [] => None
  | ((min_age, max_age), factor) :: tl =>
      if andb (Nat.leb min_age age) (Nat.leb age max_age) then Some factor
      else find_band tl age
  end.

Definition get_single_life (pf : PayoutFactors) (attained_age : nat) : R :=
  match find_band (single_life pf) attained_age with
  | Some factor => factor
  | None => 0.090
  end.

(** [PayoutFactors::from_loaded]: one single-year band [(age, age)] per key. *)
Definition payout_from_loaded (factors : list (nat * R)) : PayoutFactors :=
  mkPayoutFactors (map (fun af => ((fst af, fst af), snd af)) factors).

Definition band (min_age max_age : nat) (factor : R) : (nat * nat) * R :=
  ((min_age, max_age), factor).

Definition payout_default : PayoutFactors := mkPayoutFactors [
  band 50 55 0.046; band 56 60 0.050; band 61 65 0.055; band 66 70 0.060;
  band 71 75 0.065; band 76 80 0.070; band 81 85 0.080; band 86 120 0.090].

Record GlwbFeatures := mkGlwbFeatures {
  bonus_rate : R;
  rollup_rate : R;
  pre_activation_charge : R;
  post_activation_charge : R;
  payout_factors : PayoutFactors
}.

Definition glwb_default : GlwbFeatures := {|
  bonus_rate := 0.30; rollup_rate := 0.10;
  pre_activation_charge := 0.005; post_activation_charge := 0.015;
  payout_factors := payout_default |}.

(** [SurrenderChargeSchedule::in_sc_period] and [sc_period_years]. *)
Definition in_sc_period (s : SurrenderChargeSchedule) (policy_year : nat) : bool :=
  if Rlt_dec 0 (sc_get_rate s policy_year) then true else false.

Definition sc_period_years (s : SurrenderChargeSchedule) : nat := length (charges s).

(** Overlapping bands carry the same factor (so the HashMap's iteration order
    cannot change the factor found). *)
Definition bands_agree (l : list ((nat * nat) * R)) : Prop :=
  forall lo1 hi1 f1 lo2 hi2 f2 age,
    In ((lo1, hi1), f1) l -> In ((lo2, hi2), f2) l ->
    (lo1 <= age <= hi1)%nat -> (lo2 <= age <= hi2)%nat -> f1 = f2.

(** [GlwbFeatures::monthly_rollup_factor].  [rollup_years] and [simple_rollup]
    are fields of [GlwbFeatures] that the projection engine never reads; they
    are passed explicitly. *)
Definition monthly_rollup_factor (g : GlwbFeatures) (rollup_years : nat) (simple_rollup : bool)
    (policy_year : nat) (income_activated : bool) : R :=
  if orb income_activated (Nat.ltb rollup_years policy_year) then 1
  else if simple_rollup then 1 + rollup_rate g / 12
  else powf (1 + rollup_rate g) (1 / 12).

(** Modelled from the spec: the commission schedule read by the kernel
    ([product.commissions]: [calculate_commissions], [bonus_rate],
    [chargeback_factor]) is not part of src/.  The kernel only consumes these
    three lookups; their values are kept as parameters of the product. *)
Record CommissionSchedule := mkCommissionSchedule {
  (* (premium, issue age) -> (agent, imo_net, imo_conv, ws_net, ws_conv) *)
  calculate_commissions : R -> nat -> R * R * R * R * R;
  comm_bonus_rate : nat -> R;
  chargeback_factor : nat -> nat -> R
}.

(** Modelled from the spec: the chargeback factor is 1 in policy year 1 months
    1-6, 0.5 in months 7-12 and 0 otherwise. *)
Definition spec_chargeback_factor (projection_month policy_year : nat) : R :=
  if Nat.ltb 1 policy_year then 0
  else if Nat.ltb 6 projection_month then 0.5 else 1.

Record BaseProductFeatures := mkBaseProductFeatures {
  surrender_charges : SurrenderChargeSchedule;
  free_withdrawal_pct : R;
  (* Modelled from the spec: the expense rate (default 0.25% of AV). *)
  expense_rate_of_av : R
}.

Record ProductFeatures := mkProductFeatures {
  base : BaseProductFeatures;
  glwb : GlwbFeatures;
  commissions : CommissionSchedule
}.

(** ** Partial withdrawals (src/assumptions/pwd.rs) *)

Record RmdTable := mkRmdTable { rmd_rates : list (nat * R) }.

Fixpoint rmd_find (l : list (nat * R)) (age : nat) : option R :=
  match l with
  | [] => None
  | (a, r) :: tl => if Nat.eqb a age then Some r else rmd_find tl age
  end.

Definition rmd_get_rate (t : RmdTable) (attained_age : nat) : R :=
  if Nat.ltb attained_age 73 then 0
  else match rmd_find (rmd_rates t) attained_age with
       | Some r => r
       | None => match last_opt (rmd_rates t) with Some (_, r) => r | None => 0.2 end
       end.

Record FreeWithdrawalUtilization := mkFreeWithdrawalUtilization { util_rates : list R }.

Definition util_get_rate (u : FreeWithdrawalUtilization) (policy_year : nat) : R :=
  match nth_error (util_rates u) (Nat.pred policy_year) with
  | Some r => r
  | None => match last_opt (util_rates u) with Some r => r | None => 0.4 end
  end.

Record PwdAssumptions := mkPwdAssumptions {
  rmd : RmdTable;
  free_utilization : FreeWithdrawalUtilization
}.

(** [get_fpw_pct].  The engine passes the product's base free-withdrawal
    percentage ([product.base.free_withdrawal_pct]) as [free_pct]. *)
Definition get_fpw_pct (pw : PwdAssumptions) (policy_year attained_age : nat)
    (qual : QualStatus) (free_pct : R) : R :=
  if Nat.eqb policy_year 1 then 0
  else match qual with
       | Qual_Q => fmax free_pct (rmd_get_rate (rmd pw) attained_age)
       | Qual_N => free_pct
       end.

Definition annual_pwd_rate (pw : PwdAssumptions) (policy_year attained_age : nat)
    (qual : QualStatus) (income_activated : bool) (free_pct : R) : R :=
  if income_activated then 0
  else get_fpw_pct pw policy_year attained_age qual free_pct
       * util_get_rate (free_utilization pw) policy_year.

Definition monthly_pwd_rate_adjusted (pw : PwdAssumptions)
    (policy_year _month_in_policy_year attained_age : nat) (qual : QualStatus)
    (income_activated : bool) (free_pct : R) : R :=
  if Nat.eqb policy_year 1 then 0
  else 1 - powf (1 - annual_pwd_rate pw policy_year attained_age qual income_activated free_pct)
                (1 / 12).

(** [monthly_pwd_rate]: the same conversion without the policy-year-1 guard. *)
Definition monthly_pwd_rate (pw : PwdAssumptions) (policy_year attained_age : nat)
    (qual : QualStatus) (income_activated : bool) (free_pct : R) : R :=
  let annual := annual_pwd_rate pw policy_year attained_age qual income_activated free_pct in
  1 - powf (1 - annual) (1 / 12).

(** ** Lapse model (src/assumptions/lapse.rs) *)

Record LapseCoefficients := mkLapseCoefficients {
  itm_low : R;
  itm_high : R;
  income_main : R;
  income_itm_low : R
}.

Definition lapse_coefficients_default : LapseCoefficients := {|
  itm_low := -3.16184447006944; itm_high := -1.15717209704794;
  income_main := -2.41891458766257; income_itm_low := 1.53610221716995 |}.

(** The [[f64; 4]] arrays are lists read with a default of 0; every index used
    is below 4. *)
Record BucketCoefficients := mkBucketCoefficients {
  bc_main : list R;
  bc_poly1 : list R;
  bc_poly2 : list R;
  bc_income : list R;
  bc_shock_year : list R;
  bc_post_shock_poly1 : list R;
  bc_post_shock_poly2 : list R
}.

Definition bucket_coefficients_default : BucketCoefficients := {|
  bc_main := [0; -0.157400822647813; -0.249985676390188; -0.338729473320792];
  bc_poly1 := [0; 0.0682532283448409; 0.0763149050501966; 0.0577584207560845];
  bc_poly2 := [0; 0.00291547472994642; 0.00234424354188925; 0.00156198120112268];
  bc_income := [0; -0.0925723455729023; -0.134728779396966; -0.0656576115761846];
  bc_shock_year := [0; 0.577678462673537; 0.469928825868869; 0.472851885434387];
  bc_post_shock_poly1 := [0; 0.544650716473373; 0.705070763116629; 0.75719904977134];
  bc_post_shock_poly2 := [0; -0.908776562309262; -0.826641853779992; -0.839435686720885] |}.

Definition bucket_index (b : BenefitBaseBucket) : nat :=
  match b with
  | Under50k => 0 | From50kTo100k => 1 | From100kTo200k => 2
  | From200kTo500k => 3 | Over500k => 3
  end%nat.

Definition ix (l : list R) (i : nat) : R := get_or l i 0.

Definition raw_bucket_terms (bc : BucketCoefficients) (idx : nat)
    (poly1 poly2 shock_ind post_shock_poly1 post_shock_poly2 income_ind : R) : R :=
  ix (bc_main bc) idx + ix (bc_poly1 bc) idx * poly1 + ix (bc_poly2 bc) idx * poly2
  + ix (bc_income bc) idx * income_ind + ix (bc_shock_year bc) idx * shock_ind
  + ix (bc_post_shock_poly1 bc) idx * post_shock_poly1
  + ix (bc_post_shock_poly2 bc) idx * post_shock_poly2.

Definition adjustment (bc : BucketCoefficients) (bucket : BenefitBaseBucket)
    (policy_year sc_period : nat) (income_activated : bool) : R :=
  let target_idx := bucket_index bucket in
  let duration_minus_scp := IZR (Z.min (Z.of_nat policy_year - Z.of_nat sc_period) 0) in
  let poly1 := duration_minus_scp in
  let poly2 := duration_minus_scp * duration_minus_scp in
  let shock_ind := if Nat.eqb policy_year (sc_period + 1) then 1 else 0 in
  let post_shock_term :=
    if Nat.ltb sc_period policy_year
    then 1 / fmin (fmax (INR (policy_year - sc_period)) 1) 3 else 0 in
  let post_shock_poly1 := post_shock_term in
  let post_shock_poly2 := post_shock_term * post_shock_term in
  if income_activated then
    let base_poly_terms := ix (bc_poly1 bc) 3 * poly1 + ix (bc_poly2 bc) 3 * poly2
      + ix (bc_shock_year bc) 3 * shock_ind + ix (bc_post_shock_poly1 bc) 3 * post_shock_poly1
      + ix (bc_post_shock_poly2 bc) 3 * post_shock_poly2 in
    let target_terms := ix (bc_main bc) target_idx + ix (bc_income bc) target_idx in
    let base_main := ix (bc_main bc) 3 in
    (target_terms - base_main) - base_poly_terms
  else
    raw_bucket_terms bc target_idx poly1 poly2 shock_ind post_shock_poly1 post_shock_poly2 0
    - raw_bucket_terms bc 3 poly1 poly2 shock_ind post_shock_poly1 post_shock_poly2 0.

Record LapseModel := mkLapseModel {
  coefficients : LapseCoefficients;
  bucket_coefficients : BucketCoefficients;
  precalc_by_year : list R
}.

Definition default_predictive_model : LapseModel := {|
  coefficients := lapse_coefficients_default;
  bucket_coefficients := bucket_coefficients_default;
  precalc_by_year := [-1.4257937264401424; -0.9061294780969887; -0.3805864186366955;
    0.15083545194073789; 0.329461260874028; 0.513965880924458; 0.704349312092028;
    0.9006115543767378; 1.1027526077785876; 1.310772472297577; 2.9366733874333395;
    2.083416198115829; 2.1066423172719184] |}.

Definition precalc_for_year (lm : LapseModel) (policy_year : nat) : R :=
  match nth_error (precalc_by_year lm) (Nat.pred policy_year) with
  | Some v => v
  | None => match last_opt (precalc_by_year lm) with Some v => v | None => 0 end
  end.

Definition ind (b : bool) : R := if b then 1 else 0.

Definition base_component_with_bucket (lm : LapseModel) (policy_year : nat)
    (income_activated : bool) (bucket : BenefitBaseBucket) (sc_period : nat) : R :=
  let c := coefficients lm in
  let precalc := precalc_for_year lm policy_year in
  let income_ind := ind income_activated in
  let bucket_adj := adjustment (bucket_coefficients lm) bucket policy_year sc_period income_activated in
  precalc + itm_low c + itm_high c + income_main c * income_ind
  + income_itm_low c * income_ind + bucket_adj.

Definition dynamic_component (lm : LapseModel) (itm_ness : R) (income_activated : bool) : R :=
  let c := coefficients lm in
  let itm_low_clamped := fmin (fmax itm_ness 0.5) 1 in
  let itm_high_clamped := fmin (fmax itm_ness 1) 2 in
  let income_ind := ind income_activated in
  itm_high c * (itm_high_clamped - 1) + itm_low c * (itm_low_clamped - 1)
  + income_itm_low c * income_ind * (itm_low_clamped - 1).

Definition annual_lapse_prob_with_bucket (lm : LapseModel) (policy_year : nat)
    (income_activated : bool) (itm_ness : R) (bucket : BenefitBaseBucket) (sc_period : nat) : R :=
  let b := base_component_with_bucket lm policy_year income_activated bucket sc_period in
  let dynamic := dynamic_component lm itm_ness income_activated in
  let linear_predictor := b + dynamic in
  fmin (exp (fmin linear_predictor 0)) 1.

(** The shock-year skew ([get_skew] and the inline match of
    [monthly_lapse_rate_with_skew] are the same expression). *)
Definition get_skew (policy_year month_in_policy_year sc_period : nat) : R :=
  if Nat.eqb policy_year (sc_period + 1) then
    match month_in_policy_year with
    | 1%nat => 0.4 | 2%nat => 0.3 | 3%nat => 0.2 | _ => 0.1 / 9
    end
  else 1 / 12.

Definition monthly_lapse_rate_with_skew (lm : LapseModel)
    (projection_month policy_year month_in_policy_year : nat) (income_activated : bool)
    (itm_ness : R) (sc_period : nat) (bucket : BenefitBaseBucket) : R :=
  if Nat.eqb projection_month 1 then 0
  else if Rle_dec itm_ness 0 then 0
  else
    let annual_prob := annual_lapse_prob_with_bucket lm policy_year income_activated itm_ness bucket sc_period in
    let shock_year := (sc_period + 1)%nat in
    let skew := if Nat.eqb policy_year shock_year then
        match month_in_policy_year with
        | 1%nat => 0.4 | 2%nat => 0.3 | 3%nat => 0.2 | _ => 0.1 / 9
        end
      else 1 / 12 in
    1 - powf (1 - annual_prob) skew.

(** [base_component], [annual_lapse_prob] and [monthly_lapse_rate]: the
    reference bucket [Under50k] with an SC period of 10, uniform skew. *)
Definition base_component (lm : LapseModel) (policy_year : nat) (income_activated : bool) : R :=
  base_component_with_bucket lm policy_year income_activated Under50k 10.

Definition annual_lapse_prob (lm : LapseModel) (policy_year : nat) (income_activated : bool)
    (itm_ness : R) : R :=
  annual_lapse_prob_with_bucket lm policy_year income_activated itm_ness Under50k 10.

Definition monthly_lapse_rate (lm : LapseModel) (projection_month policy_year : nat)
    (income_activated : bool) (itm_ness : R) : R :=
  if Nat.eqb projection_month 1 then 0
  else if Rle_dec itm_ness 0 then 0
  else
    let annual_prob := annual_lapse_prob lm policy_year income_activated itm_ness in
    let skew := 1 / 12 in
    1 - powf (1 - annual_prob) skew.

(** ** Projection engine (src/projection/engine.rs, src/projection/state.rs) *)

Record Assumptions := mkAssumptions {
  mortality : MortalityTable;
  lapse : LapseModel;
  product : ProductFeatures;
  pwd : PwdAssumptions
}.

Record HedgeParams := mkHedgeParams {
  option_budget : R;
  appreciation_rate : R;
  financing_fee : R
}.

Definition hedge_params_default : HedgeParams :=
  mkHedgeParams 0.0315 0.20 0.05.

Inductive CreditingApproach :=
  | OptionBudget (budget_rate equity_kicker : R)
  | ScenarioBased (floor cap participation index_return : R)
  | FixedApproach (rate : R)
  | IndexedAnnual (annual_rate : R)
  | PolicyBased (fixed_annual_rate indexed_annual_rate : R).

Record ProjectionConfig := mkProjectionConfig {
  projection_months : nat;
  crediting : CreditingApproach;
  fixed_lapse_rate : option R;
  hedge_params : option HedgeParams
}.

Definition config_default : ProjectionConfig :=
  mkProjectionConfig 768 (OptionBudget 0 0) None (Some hedge_params_default).

(** [ProjectionState].  Modelled from the spec: the fields
    [locked_payout_rate] (the payout rate locked when income first activates,
    [None] before), [initial_lives] (the initial-lives constant of the cell,
    [initial_pols]) and [first_month_total_commission] (month-1 agent + IMO +
    wholesaler commission, 0 before month 1), read and written by engine.rs, are
    not declared in the state.rs of src/. *)
Record ProjectionState := mkProjectionState {
  projection_month : nat;
  st_policy_year : nat;
  st_month_in_policy_year : nat;
  st_attained_age : nat;
  bop_av : R;
  bop_benefit_base : R;
  eop_av : R;
  lives : R;
  av_persistency : R;
  bb_persistency : R;
  lives_persistency : R;
  income_activated : bool;
  ytd_systematic_wd : R;
  prior_bop_av : R;
  prior_bop_bb : R;
  locked_payout_rate : option R;
  initial_lives : R;
  first_month_total_commission : R
}.

Definition from_policy (p : Policy) : ProjectionState := {|
  projection_month := 0; st_policy_year := 1; st_month_in_policy_year := 0;
  st_attained_age := issue_age p;
  bop_av := starting_av p; bop_benefit_base := starting_benefit_base p;
  eop_av := starting_av p; lives := initial_pols p;
  av_persistency := 1; bb_persistency := 1; lives_persistency := 1;
  income_activated := p_income_activated p; ytd_systematic_wd := 0;
  prior_bop_av := starting_av p; prior_bop_bb := starting_benefit_base p;
  locked_payout_rate := None; initial_lives := initial_pols p;
  first_month_total_commission := 0 |}.

Definition advance_month (p : Policy) (s : ProjectionState) : ProjectionState :=
  let pm := S (projection_month s) in
  let mipy := month_in_policy_year p pm in
  {| projection_month := pm; st_policy_year := policy_year p pm;
     st_month_in_policy_year := mipy; st_attained_age := attained_age p pm;
     bop_av := eop_av s; bop_benefit_base := bop_benefit_base s;
     eop_av := eop_av s; lives := lives s;
     av_persistency := av_persistency s; bb_persistency := bb_persistency s;
     lives_persistency := lives_persistency s;
     income_activated :=
       if andb (negb (income_activated s)) (should_activate_income p pm) then true
       else income_activated s;
     ytd_systematic_wd := if Nat.eqb mipy 1 then 0 else ytd_systematic_wd s;
     prior_bop_av := prior_bop_av s; prior_bop_bb := prior_bop_bb s;
     locked_payout_rate := locked_payout_rate s; initial_lives := initial_lives s;
     first_month_total_commission := first_month_total_commission s |}.

Definition set_locked_payout_rate (s : ProjectionState) (r : option R) : ProjectionState :=
  {| projection_month := projection_month s; st_policy_year := st_policy_year s;
     st_month_in_policy_year := st_month_in_policy_year s; st_attained_age := st_attained_age s;
     bop_av := bop_av s; bop_benefit_base := bop_benefit_base s;
     eop_av := eop_av s; lives := lives s;
     av_persistency := av_persistency s; bb_persistency := bb_persistency s;
     lives_persistency := lives_persistency s; income_activated := income_activated s;
     ytd_systematic_wd := ytd_systematic_wd s;
     prior_bop_av := prior_bop_av s; prior_bop_bb := prior_bop_bb s;
     locked_payout_rate := r; initial_lives := initial_lives s;
     first_month_total_commission := first_month_total_commission s |}.

Definition prior_itm (s : ProjectionState) : R :=
  if Rle_dec (prior_bop_av s) 0 then 1 else prior_bop_bb s / prior_bop_av s.

(** The rate fields written by [calculate_decrements]. *)
Record Rates := mkRates {
  baseline_mortality : R;
  mortality_improvement : R;
  final_mortality : R;
  surrender_charge : R;
  fpw_pct : R;
  glwb_activated : bool;
  non_systematic_pwd_rate : R;
  lapse_skew : R;
  base_lapse_component : R;
  dynamic_lapse_component : R;
  final_lapse_rate : R;
  rider_charge_rate : R;
  credited_rate : R;
  systematic_withdrawal : R;
  row_rollup_rate : R
}.

(** The persistency fields written by [apply_decrements]. *)
Record Persist := mkPersist {
  row_av_persistency : R;
  row_bb_persistency : R;
  row_lives_persistency : R;
  row_lives : R
}.

(** The dollar fields written by [calculate_cashflows]. *)
Record Cashflows := mkCashflows {
  pre_decrement_av : R;
  mortality_dec : R; lapse_dec : R; pwd_dec : R;
  rider_charges_dec : R; surrender_charges_dec : R; interest_credits_dec : R;
  mortality_cf : R; lapse_cf : R; pwd_cf : R;
  rider_charges_cf : R; surrender_charges_cf : R; interest_credits_cf : R;
  row_eop_av : R;
  expenses : R;
  agent_commission : R; imo_override : R; imo_conversion_owed : R;
  wholesaler_override : R; wholesaler_conversion_owed : R;
  bonus_comp : R;
  chargebacks : R;
  net_index_credit_reimbursement : R;
  hedge_gains : R;
  total_net_cashflow : R
}.

(** [CashflowRow]: the timing and BOP fields, then the three groups above. *)
Record CashflowRow := mkCashflowRow {
  row_projection_month : nat;
  row_policy_year : nat;
  row_month_in_policy_year : nat;
  row_attained_age : nat;
  row_bop_av : R;
  row_bop_benefit_base : R;
  row_premium : R;
  row_rates : Rates;
  row_persist : Persist;
  row_cf : Cashflows
}.

Definition rate_mult (policy_year : nat) : R := if Nat.leb policy_year 10 then 1 else 0.5.

Definition calculate_credited_rate (cfg : ProjectionConfig) (p : Policy) (s : ProjectionState) : R :=
  match crediting cfg with
  | OptionBudget budget_rate equity_kicker => (budget_rate + equity_kicker) / 12
  | ScenarioBased floor cap participation index_return =>
      fmin (fmax (index_return * participation) floor) cap / 12
  | FixedApproach rate => rate / 12
  | IndexedAnnual annual_rate =>
      if andb (Nat.eqb (st_month_in_policy_year s) 1) (Nat.ltb 1 (st_policy_year s))
      then annual_rate * rate_mult (st_policy_year s - 1) else 0
  | PolicyBased fixed_annual_rate indexed_annual_rate =>
      match crediting_strategy p with
      | Fixed => powf (1 + fixed_annual_rate * rate_mult (st_policy_year s)) (1 / 12) - 1
      | Indexed =>
          if andb (Nat.eqb (st_month_in_policy_year s) 1) (Nat.ltb 1 (st_policy_year s))
          then indexed_annual_rate * rate_mult (st_policy_year s - 1) else 0
      end
  end.

Definition calculate_decrements (a : Assumptions) (cfg : ProjectionConfig) (p : Policy)
    (s : ProjectionState) : Rates :=
  let age := st_attained_age s in
  let py := st_policy_year s in
  let mipy := st_month_in_policy_year s in
  let free_pct := free_withdrawal_pct (base (product a)) in
  let itm := prior_itm s in
  {| baseline_mortality := baseline_annual_rate (mortality a) age (gender p);
     mortality_improvement := improvement_rate (mortality a) age (gender p);
     final_mortality := monthly_rate (mortality a) age (gender p) (projection_month s);
     surrender_charge := sc_get_rate (surrender_charges (base (product a))) py;
     fpw_pct := get_fpw_pct (pwd a) py age (qual_status p) free_pct;
     glwb_activated := income_activated s;
     non_systematic_pwd_rate :=
       monthly_pwd_rate_adjusted (pwd a) py mipy age (qual_status p) (income_activated s) free_pct;
     lapse_skew := get_skew py mipy (sc_period p);
     base_lapse_component :=
       base_component_with_bucket (lapse a) py (income_activated s) (benefit_base_bucket p) (sc_period p);
     dynamic_lapse_component := dynamic_component (lapse a) itm (income_activated s);
     final_lapse_rate :=
       if Rle_dec (bop_av s) 0 then 0
       else match fixed_lapse_rate cfg with
            | Some annual_rate =>
                if Nat.eqb (projection_month s) 1 then 0
                else 1 - powf (1 - annual_rate) (1 / 12)
            | None =>
                monthly_lapse_rate_with_skew (lapse a) (projection_month s) py mipy
                  (income_activated s) itm (sc_period p) (benefit_base_bucket p)
            end;
     rider_charge_rate :=
       if Nat.eqb (projection_month s mod 12) 0 then
         if income_activated s then post_activation_charge (glwb (product a))
         else pre_activation_charge (glwb (product a))
       else 0;
     credited_rate := calculate_credited_rate cfg p s;
     systematic_withdrawal :=
       if income_activated s then
         let payout_rate := match locked_payout_rate s with
           | Some r => r
           | None => get_single_life (payout_factors (glwb (product a))) age
           end in
         bop_benefit_base s * payout_rate / 12
       else 0;
     row_rollup_rate :=
       if andb (Nat.leb py (sc_period p)) (negb (income_activated s))
       then rollup_rate (glwb (product a)) / 12 else 0 |}.

Definition apply_decrements (s : ProjectionState) (r : Rates) : Persist :=
  let monthly_persistency := (1 - final_mortality r) * (1 - final_lapse_rate r) in
  let lp := lives_persistency s * monthly_persistency in
  {| row_av_persistency := av_persistency s * monthly_persistency;
     row_bb_persistency := bb_persistency s * monthly_persistency;
     row_lives_persistency := lp;
     row_lives := lives s * lp / lives_persistency s |}.

(** [rider_rate], computed identically in [calculate_cashflows] and
    [calculate_hedge_gains]. *)
Definition rider_rate_of (s : ProjectionState) (r : Rates) : R :=
  if Rlt_dec 0 (bop_av s) then rider_charge_rate r * bop_benefit_base s / bop_av s else 0.

(** [calculate_hedge_gains]: (net_index_credit_reimbursement, hedge_gains). *)
Definition calculate_hedge_gains (cfg : ProjectionConfig) (p : Policy) (s : ProjectionState)
    (r : Rates) : R * R :=
  match crediting_strategy p with
  | Fixed => (0, 0)
  | Indexed =>
      match hedge_params cfg with
      | None => (0, 0)
      | Some params =>
          let net_appreciation := 1 + appreciation_rate params - financing_fee params in
          let lagged_policy_year :=
            if andb (Nat.eqb (st_month_in_policy_year s) 1) (Nat.ltb 1 (st_policy_year s))
            then (st_policy_year s - 1)%nat else st_policy_year s in
          let lagged_rate_mult := rate_mult lagged_policy_year in
          let option_cost := option_budget params * lagged_rate_mult * (1 + financing_fee params) in
          let reimb := fmax (bop_av s * (credited_rate r - option_cost)) 0 in
          let rider_rate := rider_rate_of s r in
          let monthly_av_persistency := (1 - final_mortality r) * (1 - final_lapse_rate r)
            * (1 - non_systematic_pwd_rate r) * (1 - rider_rate) in
          let av_lost := bop_av s * (1 - monthly_av_persistency) in
          let lagged_month :=
            if Nat.eqb (projection_month s) 1 then 1%nat
            else if Nat.eqb (st_month_in_policy_year s) 1 then 12%nat
            else (st_month_in_policy_year s - 1)%nat in
          (reimb, av_lost * option_budget params * lagged_rate_mult
                  * powf net_appreciation (INR lagged_month / 12) + reimb)
      end
  end.

(** The proportional allocation of the decrement pool:
    (mort_dec, lapse_dec, pwd_dec, rider_dec, surr_chg_dec). *)
Definition allocate_decrements (pre_dec_av systematic_wd rider_rate : R) (r : Rates)
    : R * R * R * R * R :=
  let av_persistency := (1 - final_mortality r) * (1 - final_lapse_rate r)
    * (1 - non_systematic_pwd_rate r) * (1 - rider_rate) in
  let decrement_pool := pre_dec_av * (1 - av_persistency) in
  let sum_of_rates := final_mortality r + final_lapse_rate r
    + non_systematic_pwd_rate r + rider_rate in
  if Rlt_dec 0 sum_of_rates then
    let allocation_base := decrement_pool / sum_of_rates in
    let mort := allocation_base * final_mortality r in
    let fpw := fpw_pct r in
    let net_of_sc_factor := fpw + (1 - fpw) * (1 - surrender_charge r) in
    let lapse := allocation_base * final_lapse_rate r * net_of_sc_factor in
    let surr_chg := allocation_base * final_lapse_rate r * (1 - fpw) * surrender_charge r in
    let pwd := allocation_base * non_systematic_pwd_rate r + systematic_wd in
    let rider := allocation_base * rider_rate in
    (mort, lapse, pwd, rider, surr_chg)
  else (0, 0, systematic_wd, 0, 0).

Definition calculate_cashflows (a : Assumptions) (cfg : ProjectionConfig) (p : Policy)
    (s : ProjectionState) (premium : R) (r : Rates) (pe : Persist) : Cashflows :=
  let bop := bop_av s in
  let lv := lives s in
  let systematic_wd := systematic_withdrawal r in
  let pre_dec_av := fmax (bop - systematic_wd) 0 * (1 + credited_rate r) in
  let rider_rate := rider_rate_of s r in
  let '(mort_dec, lapse_d, pwd_d, rider_dec, surr_chg_dec) :=
    allocate_decrements pre_dec_av systematic_wd rider_rate r in
  let interest_credits := pre_dec_av - fmax (bop - systematic_wd) 0 in
  let eop := fmax (bop + interest_credits - (mort_dec + lapse_d + pwd_d + rider_dec + surr_chg_dec)) 0 in
  let exp_ := eop * expense_rate_of_av (base (product a)) / 12 in
  let comm := commissions (product a) in
  let '(agent, imo_net, imo_conv, ws_net, ws_conv) :=
    if Nat.eqb (projection_month s) 1
    then calculate_commissions comm (initial_premium p) (issue_age p)
    else (0, 0, 0, 0, 0) in
  let bonus := if Nat.eqb (projection_month s) 13
    then bop * comm_bonus_rate comm (issue_age p) else 0 in
  let cb_factor := chargeback_factor comm (projection_month s) (st_policy_year s) in
  let cb :=
    if andb (if Rlt_dec 0 cb_factor then true else false)
            (if Rlt_dec 0 (initial_lives s) then true else false) then
      let lives_persistency_this_month := row_lives_persistency pe / lives_persistency s in
      let lives_lost_rate := 1 - lives_persistency_this_month in
      let first_month_commission :=
        if Nat.eqb (projection_month s) 1 then agent + imo_net + ws_net
        else first_month_total_commission s in
      lv * lives_lost_rate / initial_lives s * first_month_commission * cb_factor
    else 0 in
  let '(reimb, hg) := calculate_hedge_gains cfg p s r in
  let total_commission := agent + imo_net + ws_net + bonus in
  {| pre_decrement_av := pre_dec_av;
     mortality_dec := mort_dec; lapse_dec := lapse_d; pwd_dec := pwd_d;
     rider_charges_dec := rider_dec; surrender_charges_dec := surr_chg_dec;
     interest_credits_dec := interest_credits;
     mortality_cf := mort_dec * lv; lapse_cf := lapse_d * lv; pwd_cf := pwd_d * lv;
     rider_charges_cf := rider_dec * lv; surrender_charges_cf := surr_chg_dec * lv;
     interest_credits_cf := interest_credits * lv;
     row_eop_av := eop; expenses := exp_;
     agent_commission := agent; imo_override := imo_net; imo_conversion_owed := imo_conv;
     wholesaler_override := ws_net; wholesaler_conversion_owed := ws_conv;
     bonus_comp := bonus; chargebacks := cb;
     net_index_credit_reimbursement := reimb; hedge_gains := hg;
     total_net_cashflow :=
       premium - mort_dec - lapse_d - pwd_d - exp_ - total_commission + cb + hg |}.

(** [update_benefit_base]: the new [bop_benefit_base]. *)
Definition update_benefit_base (a : Assumptions) (p : Policy) (s : ProjectionState) (r : Rates) : R :=
  let monthly_bb_persistency := (1 - final_mortality r) * (1 - final_lapse_rate r)
    * (1 - non_systematic_pwd_rate r) in
  let bb := bop_benefit_base s * monthly_bb_persistency in
  if income_activated s then bb
  else if andb (Nat.eqb (st_month_in_policy_year s) 12) (Nat.leb (st_policy_year s) (sc_period p)) then
    let bb_bonus := bonus_rate (glwb (product a)) in
    let rollup := rollup_rate (glwb (product a)) in
    let py := fmin (INR (st_policy_year s)) 10 in
    let py_prev := fmin (INR (st_policy_year s - 1)) 10 in
    let rollup_factor := (1 + bb_bonus + rollup * py) / (1 + bb_bonus + rollup * py_prev) in
    bb * rollup_factor
  else bb.

(** [calculate_month]: the row and the updated state. *)
Definition calculate_month (a : Assumptions) (cfg : ProjectionConfig) (p : Policy)
    (s : ProjectionState) : CashflowRow * ProjectionState :=
  let premium := if Nat.eqb (projection_month s) 1 then initial_premium p else 0 in
  let r := calculate_decrements a cfg p s in
  let pe := apply_decrements s r in
  let c := calculate_cashflows a cfg p s premium r pe in
  let row := {| row_projection_month := projection_month s;
                row_policy_year := st_policy_year s;
                row_month_in_policy_year := st_month_in_policy_year s;
                row_attained_age := st_attained_age s;
                row_bop_av := bop_av s; row_bop_benefit_base := bop_benefit_base s;
                row_premium := premium; row_rates := r; row_persist := pe; row_cf := c |} in
  let s' := {| projection_month := projection_month s; st_policy_year := st_policy_year s;
     st_month_in_policy_year := st_month_in_policy_year s; st_attained_age := st_attained_age s;
     bop_av := bop_av s; bop_benefit_base := update_benefit_base a p s r;
     eop_av := row_eop_av c; lives := row_lives pe;
     av_persistency := row_av_persistency pe; bb_persistency := row_bb_persistency pe;
     lives_persistency := row_lives_persistency pe; income_activated := income_activated s;
     ytd_systematic_wd := ytd_systematic_wd s + systematic_withdrawal r;
     prior_bop_av := bop_av s; prior_bop_bb := bop_benefit_base s;
     locked_payout_rate := locked_payout_rate s; initial_lives := initial_lives s;
     first_month_total_commission :=
       if Nat.eqb (projection_month s) 1
       then agent_commission c + imo_override c + wholesaler_override c
       else first_month_total_commission s |} in
  (row, s').

Definition one_e_minus_10 : R := 1 / IZR (Z.pow_pos 10 10).

(** One iteration of the [project_policy] loop body. *)
Definition project_step (a : Assumptions) (cfg : ProjectionConfig) (p : Policy)
    (s : ProjectionState) : CashflowRow * ProjectionState :=
  let s1 := advance_month p s in
  let s2 :=
    match locked_payout_rate s1 with
    | None => if income_activated s1
              then set_locked_payout_rate s1
                     (Some (get_single_life (payout_factors (glwb (product a))) (st_attained_age s1)))
              else s1
    | Some _ => s1
    end in
  calculate_month a cfg p s2.

(** The loop [for _month in 1..=n] with its early exit on [lives <= 1e-10]. *)
Fixpoint project_loop (a : Assumptions) (cfg : ProjectionConfig) (p : Policy)
    (n : nat) (s : ProjectionState) : list CashflowRow :=
  match n with
  | O => []
  | S n' =>
      let '(row, s') := project_step a cfg p s in
      row :: (if Rle_dec (lives s') one_e_minus_10 then [] else project_loop a cfg p n' s')
  end.

Definition project_policy (a : Assumptions) (cfg : ProjectionConfig) (p : Policy)
    : list CashflowRow :=
  project_loop a cfg p (projection_months cfg) (from_policy p).

(** ** Internal rate of return (src/projection/irr.rs) *)

Definition one_e_minus_20 : R := 1 / IZR (Z.pow_pos 10 20).

Definition Rltb (x y : R) : bool := if Rlt_dec x y then true else false.

Fixpoint npv_and_derivative_aux (cashflows : list R) (t : nat) (rate npv dnpv : R) : R * R :=
  match cashflows with
  | [] => (npv, dnpv)
  | cf :: tl =>
      let discount := powi (1 + rate) (as_i32 t) in
      let npv' := npv + cf / discount in
      (* [t as i32 + 1]: overflow-checked builds panic at [t as i32 = i32::MAX],
         release builds wrap; the model wraps *)
      let dnpv' := if Nat.ltb 0 t
                   then dnpv - INR t * cf / powi (1 + rate) (wrap_i32 (as_i32 t + 1)) else dnpv in
      npv_and_derivative_aux tl (S t) rate npv' dnpv'
  end.

Definition npv_and_derivative (cashflows : list R) (rate : R) : R * R :=
  npv_and_derivative_aux cashflows 0 rate 0 0.

Fixpoint npv_at_rate_aux (cashflows : list R) (t : nat) (rate : R) : R :=
  match cashflows with
  | [] => 0
  | cf :: tl => cf / powi (1 + rate) (as_i32 t) + npv_at_rate_aux tl (S t) rate
  end.

Definition npv_at_rate (cashflows : list R) (rate : R) : R := npv_at_rate_aux cashflows 0 rate.

Fixpoint bisection_loop (cashflows : list R) (periods_per_year : nat) (iters : nat)
    (low high : R) : option R :=
  match iters with
  | O => None
  | S k =>
      let mid := (low + high) / 2 in
      let npv_mid := npv_at_rate cashflows mid in
      if orb (Rltb (Rabs npv_mid) one_e_minus_10) (Rltb ((high - low) / 2) one_e_minus_10)
      then Some (powi (1 + mid) (as_i32 periods_per_year) - 1)
      else if Rltb (npv_mid * npv_at_rate cashflows low) 0
      then bisection_loop cashflows periods_per_year k low mid
      else bisection_loop cashflows periods_per_year k mid high
  end.

Definition calculate_irr_bisection (cashflows : list R) (periods_per_year : nat) : option R :=
  let low := -0.99 in
  let high := 10 in
  let npv_low := npv_at_rate cashflows low in
  let npv_high := npv_at_rate cashflows high in
  if Rltb 0 (npv_low * npv_high) then None
  else bisection_loop cashflows periods_per_year 1000 low high.

Fixpoint newton_loop (cashflows : list R) (periods_per_year : nat) (iters : nat) (rate : R)
    : option R :=
  match iters with
  | O => calculate_irr_bisection cashflows periods_per_year
  | S k =>
      let '(npv, dnpv) := npv_and_derivative cashflows rate in
      if Rltb (Rabs dnpv) one_e_minus_20 then calculate_irr_bisection cashflows periods_per_year
      else
        let new_rate := fmin (fmax (rate - npv / dnpv) (-0.99)) 10 in
        if Rltb (Rabs (new_rate - rate)) one_e_minus_10
        then Some (powi (1 + new_rate) (as_i32 periods_per_year) - 1)
        else newton_loop cashflows periods_per_year k new_rate
  end.

Definition calculate_irr (cashflows : list R) (periods_per_year : nat) : option R :=
  match cashflows with
  | [] => None
  | _ =>
      if forallb (fun cf => Rltb (Rabs cf) one_e_minus_10) cashflows then Some 0
      else
        let has_positive := existsb (fun cf => Rltb one_e_minus_10 cf) cashflows in
        let has_negative := existsb (fun cf => Rltb cf (- one_e_minus_10)) cashflows in
        if orb (negb has_positive) (negb has_negative) then None
        else if Nat.eqb periods_per_year 0 then
          (* the initial guess [0.05 / 0.0] is [+inf]: every discount but the
             first is infinite, so [dnpv] is [0] and the first iteration goes
             to the bisection *)
          calculate_irr_bisection cashflows periods_per_year
        else newton_loop cashflows periods_per_year 1000 (0.05 / INR periods_per_year)
  end.

(** ** Benefit streams (src/reserves/benefits.rs, src/reserves/discount.rs) *)

(** [u32] activation months of the reserve code are [N], so that the sentinel
    [u32::MAX] ("never activate") is a small term. *)
Definition u32_MAX : N := 4294967295%N.

(** [f64::MAX] = (2^53 - 1) * 2^971. *)
Definition f64_MAX : R := IZR ((2 ^ 53 - 1) * 2 ^ 971).

Inductive PolicyState := Accumulation | IncomeActive | Surrendered | Matured.

Record BenefitCalculator := mkBenefitCalculator {
  ben_assumptions : Assumptions;
  (* [DiscountCurve::single_rate(valuation_rate)] *)
  valuation_rate : R;
  ben_max_projection_months : nat
}.

Definition elective_discount_factor (b : BenefitCalculator) : R := 1 / (1 + valuation_rate b / 12).
Definition death_benefit_discount_factor (b : BenefitCalculator) : R := 1 / (1 + valuation_rate b / 12).

Definition is_income_active (s : PolicyState) : bool :=
  match s with IncomeActive => true | _ => false end.

(** [project_state_forward]: the new (av, bb). *)
Definition project_state_forward (b : BenefitCalculator) (p : Policy) (month : nat)
    (state : PolicyState) (av bb : R) : R * R :=
  let a := ben_assumptions b in
  let age := attained_age p month in
  let py := policy_year p month in
  let month_in_py := month_in_policy_year p month in
  let q := monthly_rate (mortality a) age (gender p) month in
  let rider_charge :=
    if Nat.eqb (month mod 12) 0 then
      bb * (if is_income_active state then post_activation_charge (glwb (product a))
            else pre_activation_charge (glwb (product a)))
    else 0 in
  let systematic_wd :=
    if is_income_active state
    then bb * get_single_life (payout_factors (glwb (product a))) age / 12 else 0 in
  let av1 := fmax (av - systematic_wd - rider_charge) 0 in
  let bb1 :=
    match state with
    | Accumulation =>
        if andb (Nat.eqb month_in_py 12) (Nat.leb py (sc_period p)) then
          let bb_bonus := bonus_rate (glwb (product a)) in
          let rollup := rollup_rate (glwb (product a)) in
          let pyr := fmin (INR py) 10 in
          let py_prev := fmin (INR (py - 1)) 10 in
          bb * ((1 + bb_bonus + rollup * pyr) / (1 + bb_bonus + rollup * py_prev))
        else bb
    | _ => bb
    end in
  (av1 * (1 - q), bb1 * (1 - q)).

Definition death_benefit_amount (state : PolicyState) (account_value : R) : R :=
  match state with
  | Accumulation | IncomeActive => account_value
  | Surrendered | Matured => 0
  end.

(** The loop [for t in valuation_month..max_projection_months] of
    [death_benefit_pv]; [fuel] is the number of remaining iterations. *)
Fixpoint death_loop (b : BenefitCalculator) (p : Policy) (valuation_month : nat)
    (activation_month : option nat) (fuel t : nat) (survival_prob av bb death_pv : R) : R :=
  match fuel with
  | O => death_pv
  | S k =>
      let state := match activation_month with
                   | Some am => if Nat.leb am t then IncomeActive else Accumulation
                   | None => Accumulation
                   end in
      let q := monthly_rate (mortality (ben_assumptions b)) (attained_age p t) (gender p) t in
      let db := death_benefit_amount state av in
      let death_pv' := death_pv + survival_prob * q * db
                         * powi (death_benefit_discount_factor b) (as_i32 (t - valuation_month)) in
      let survival_prob' := survival_prob * (1 - q) in
      if Rltb survival_prob' one_e_minus_10 then death_pv'
      else
        let '(av', bb') := project_state_forward b p t state av bb in
        death_loop b p valuation_month activation_month k (S t) survival_prob' av' bb' death_pv'
  end.

Definition death_benefit_pv (b : BenefitCalculator) (p : Policy) (valuation_month : nat)
    (activation_month : option nat) (starting_av starting_bb : R) : R :=
  death_loop b p valuation_month activation_month
    (ben_max_projection_months b - valuation_month) valuation_month 1 starting_av starting_bb 0.

Fixpoint income_loop (b : BenefitCalculator) (p : Policy) (valuation_month activation_month : nat)
    (monthly_income : R) (fuel t : nat) (survival_prob income_pv : R) : R :=
  match fuel with
  | O => income_pv
  | S k =>
      let q := monthly_rate (mortality (ben_assumptions b)) (attained_age p t) (gender p) t in
      let income_pv' :=
        if Nat.leb activation_month t
        then income_pv + survival_prob * monthly_income
               * powi (elective_discount_factor b) (as_i32 (t - valuation_month))
        else income_pv in
      let survival_prob' := survival_prob * (1 - q) in
      if Rltb survival_prob' one_e_minus_10 then income_pv'
      else income_loop b p valuation_month activation_month monthly_income k (S t) survival_prob' income_pv'
  end.

Definition income_benefit_pv (b : BenefitCalculator) (p : Policy)
    (valuation_month activation_month : nat) (starting_bb : R) : R :=
  if Nat.ltb activation_month valuation_month then 0
  else
    let activation_age := attained_age p activation_month in
    let payout_rate := get_single_life (payout_factors (glwb (product (ben_assumptions b)))) activation_age in
    let monthly_income := starting_bb * payout_rate / 12 in
    income_loop b p valuation_month activation_month monthly_income
      (ben_max_projection_months b - valuation_month) valuation_month 1 0.

(** [remaining_income_pv] is the income loop with every month paying. *)
Definition remaining_income_pv (b : BenefitCalculator) (p : Policy) (valuation_month : nat)
    (current_bb locked_payout_rate : R) : R :=
  income_loop b p valuation_month 0 (current_bb * locked_payout_rate / 12)
    (ben_max_projection_months b - valuation_month) valuation_month 1 0.

(** [total_reserve_for_path]: death PV plus, for an activation month, the
    income PV (never activating has no elective PV here). *)
Definition total_reserve_for_path (b : BenefitCalculator) (p : Policy) (valuation_month : nat)
    (activation_month : option nat) (starting_av starting_bb : R) : R :=
  let death_pv := death_benefit_pv b p valuation_month activation_month starting_av starting_bb in
  let elective_pv :=
    match activation_month with
    | Some am => income_benefit_pv b p valuation_month am starting_bb
    | None => 0
    end in
  death_pv + elective_pv.

(** [DiscountCurve] (src/reserves/discount.rs). *)
Record DiscountCurve := mkDiscountCurve {
  dc_valuation_rate : R;
  death_benefit_rate : option R;
  spot_rates : option (list R)
}.

Definition single_rate (annual_rate : R) : DiscountCurve :=
  mkDiscountCurve annual_rate None None.

Definition with_death_benefit_rate (valuation_rate death_benefit_rate : R) : DiscountCurve :=
  mkDiscountCurve valuation_rate (Some death_benefit_rate) None.

Definition from_spot_curve (spots : list R) : DiscountCurve :=
  mkDiscountCurve (match spots with [] => 0 | s :: _ => s end) None (Some spots).

Definition dc_elective_discount_factor (c : DiscountCurve) : R :=
  1 / (1 + dc_valuation_rate c / 12).

Definition dc_death_benefit_discount_factor (c : DiscountCurve) : R :=
  let rate := match death_benefit_rate c with Some r => r | None => dc_valuation_rate c end in
  1 / (1 + rate / 12).

(** [spots[months]] is read only when [months < spots.len()]. *)
Definition discount_to_month_elective (c : DiscountCurve) (months : nat) : R :=
  match spot_rates c with
  | Some spots =>
      match nth_error spots months with
      | Some spot => powf (1 + spot) (- INR months / 12)
      | None => powi (dc_elective_discount_factor c) (as_i32 months)
      end
  | None => powi (dc_elective_discount_factor c) (as_i32 months)
  end.

Definition discount_to_month_death (c : DiscountCurve) (months : nat) : R :=
  powi (dc_death_benefit_discount_factor c) (as_i32 months).

Definition pv_elective_stream (c : DiscountCurve) (benefits : list (nat * R)) : R :=
  fold_left (fun acc ma => acc + snd ma * discount_to_month_elective c (fst ma)) benefits 0.

Definition pv_death_benefit_stream (c : DiscountCurve) (benefits : list (nat * R * R)) : R :=
  fold_left (fun acc b => let '(month, prob, amount) := b in
                          acc + prob * amount * discount_to_month_death c month) benefits 0.

(** [PVCalculator]. *)
Definition pv_annuity_due (amount : R) (n_months : nat) (monthly_rate : R) : R :=
  if Rlt_dec (Rabs monthly_rate) (1 / IZR (Z.pow_pos 10 10)) then amount * INR n_months
  else
    let v := 1 / (1 + monthly_rate) in
    amount * (1 - powi v (as_i32 n_months)) / (1 - v).

Definition pv_annuity_ordinary (amount : R) (n_months : nat) (monthly_rate : R) : R :=
  pv_annuity_due amount n_months monthly_rate / (1 + monthly_rate).

Definition pv_life_annuity (payments : list (nat * R * R)) (c : DiscountCurve) : R :=
  fold_left (fun acc x => let '(month, surv_prob, payment) := x in
                          acc + surv_prob * payment * discount_to_month_elective c month) payments 0.

(** ** CARVM reserve with roll-forward cache (src/reserves/carvm.rs, cache.rs) *)

Record ReserveComponents := mkReserveComponents {
  death_benefit_pv_c : R;
  income_benefit_pv_c : R;
  surrender_value_pv : R;
  elective_benefit_pv : R;
  free_pwd_pv : R
}.

Definition components_default : ReserveComponents := mkReserveComponents 0 0 0 0 0.

(** [ReserveResult] ([method] is always [ReserveMethod::CARVM] here and is
    not modelled). *)
Record ReserveResult := mkReserveResult {
  res_policy_id : nat;
  valuation_date : nat;
  gross_reserve : R;
  net_reserve : R;
  optimal_activation_month : N;
  reserve_components : ReserveComponents;
  from_cache : bool;
  csv_at_valuation : R
}.

Record CachedReservePath := mkCachedReservePath {
  cache_policy_id : nat;
  solve_month : nat;
  cached_optimal_activation_month : N;
  reserve_at_solve : R;
  av_at_solve : R;
  bb_at_solve : R;
  itm_at_solve : R;
  sc_rate_at_solve : R;
  monthly_income_amount : R;
  death_benefit_pv_remaining : R
}.

(** [CachedReservePath::new] ([optimal_pwd_schedule] and
    [remaining_free_amount_at_solve] are never read and are not modelled). *)
Definition cached_path_new (policy_id solve_month : nat) (optimal : N)
    (reserve av bb monthly_income death_pv sc_rate : R) : CachedReservePath := {|
  cache_policy_id := policy_id; solve_month := solve_month;
  cached_optimal_activation_month := optimal; reserve_at_solve := reserve;
  av_at_solve := av; bb_at_solve := bb;
  itm_at_solve := if Rlt_dec 0 av then bb / av else f64_MAX;
  sc_rate_at_solve := sc_rate; monthly_income_amount := monthly_income;
  death_benefit_pv_remaining := death_pv |}.

Record RevalidationCriteria := mkRevalidationCriteria {
  periodic_revalidation_months : nat;
  itm_change_threshold : R;
  activation_proximity_months : N;
  av_deviation_threshold : R
}.

Definition revalidation_default : RevalidationCriteria := mkRevalidationCriteria 12 0.10 6 0.15.

(** [needs_revalidation]: [true] when it returns [Some reason]. *)
Definition needs_revalidation (c : RevalidationCriteria) (cached : CachedReservePath)
    (current_month : nat) (current_av current_bb : R) : bool :=
  let months_elapsed := (current_month - solve_month cached)%nat in
  if Nat.leb (periodic_revalidation_months c) months_elapsed then true
  else
    let current_itm := if Rlt_dec 0 current_av then current_bb / current_av else f64_MAX in
    let itm_change := Rabs (current_itm - itm_at_solve cached) / fmax (itm_at_solve cached) 0.01 in
    if Rltb (itm_change_threshold c) itm_change then true
    else if N.leb (cached_optimal_activation_month cached - N.of_nat current_month)
                  (activation_proximity_months c) then true
    else
      let av_change := Rabs (current_av - av_at_solve cached) / fmax (av_at_solve cached) 1 in
      Rltb (av_deviation_threshold c) av_change.

(** [ReserveCache.entries], a [HashMap<u64, CachedReservePath>], as an
    association list with at most one entry per key.  The statistics fields
    of [ReserveCache] are [CacheCounters] below. *)
Definition ReserveCache := list (nat * CachedReservePath).

Fixpoint cache_get (c : ReserveCache) (policy_id : nat) : option CachedReservePath :=
  match c with
  | [] => None
  | (k, v) :: tl => if Nat.eqb k policy_id then Some v else cache_get tl policy_id
  end.

Definition cache_insert (c : ReserveCache) (path : CachedReservePath) : ReserveCache :=
  (cache_policy_id path, path) :: filter (fun kv => negb (Nat.eqb (fst kv) (cache_policy_id path))) c.

(** [ReserveCache::remove]: the removed entry and the remaining map. *)
Definition cache_remove (c : ReserveCache) (policy_id : nat) : option CachedReservePath * ReserveCache :=
  (cache_get c policy_id, filter (fun kv => negb (Nat.eqb (fst kv) policy_id)) c).

Definition cache_len (c : ReserveCache) : nat := length c.

(** The methods of [CachedReservePath] ([u32] months; the activation month is
    [N] as above). *)
Definition is_potentially_valid (cached : CachedReservePath) (current_month : nat) : bool :=
  Nat.leb (solve_month cached) current_month.

Definition months_since_solve (cached : CachedReservePath) (current_month : nat) : nat :=
  (current_month - solve_month cached)%nat.

Definition past_optimal_activation (cached : CachedReservePath) (current_month : nat) : bool :=
  N.leb (cached_optimal_activation_month cached) (N.of_nat current_month).

Definition approaching_activation (cached : CachedReservePath) (current_month : nat)
    (threshold_months : N) : bool :=
  N.leb (cached_optimal_activation_month cached - N.of_nat current_month) threshold_months.

(** The statistics counters of [ReserveCache] with [record_hit],
    [record_miss], [hit_rate] and the counter part of [clear]. *)
Record CacheCounters := mkCacheCounters {
  cache_hits : nat;
  cache_misses : nat;
  revalidations : nat
}.

Definition counters_new : CacheCounters := mkCacheCounters 0 0 0.

Definition record_hit (c : CacheCounters) : CacheCounters :=
  mkCacheCounters (S (cache_hits c)) (cache_misses c) (revalidations c).

Definition record_miss (c : CacheCounters) : CacheCounters :=
  mkCacheCounters (cache_hits c) (S (cache_misses c)) (revalidations c).

Definition record_revalidation (c : CacheCounters) : CacheCounters :=
  mkCacheCounters (cache_hits c) (cache_misses c) (S (revalidations c)).

Definition counters_clear (_ : CacheCounters) : CacheCounters := mkCacheCounters 0 0 0.

Definition hit_rate (c : CacheCounters) : R :=
  let total := (cache_hits c + cache_misses c)%nat in
  if Nat.eqb total 0 then 0 else INR (cache_hits c) / INR total.

Record CARVMConfig := mkCARVMConfig {
  max_projection_months : nat;
  use_caching : bool;
  revalidation_criteria : RevalidationCriteria;
  max_deferral_years : nat
}.

Definition carvm_config_default : CARVMConfig := mkCARVMConfig 768 true revalidation_default 30.

(** [self.cache] is split into its entries [cache] and its statistics
    [cache_counters]; its [criteria] field is never read by the calculator,
    which uses [config.revalidation_criteria]. *)
Record CARVMCalculator := mkCARVMCalculator {
  calc_assumptions : Assumptions;
  calc_config : CARVMConfig;
  cache : ReserveCache;
  cache_counters : CacheCounters
}.

(** [self.cache.record_hit()] and the like. *)
Definition update_counters (f : CacheCounters -> CacheCounters) (calc : CARVMCalculator)
    : CARVMCalculator :=
  mkCARVMCalculator (calc_assumptions calc) (calc_config calc) (cache calc) (f (cache_counters calc)).

(** [cache_stats]: hits, misses and hit rate. *)
Definition cache_stats (calc : CARVMCalculator) : nat * nat * R :=
  (cache_hits (cache_counters calc), cache_misses (cache_counters calc),
   hit_rate (cache_counters calc)).

Definition benefit_calc (calc : CARVMCalculator) (p : Policy) : BenefitCalculator :=
  mkBenefitCalculator (calc_assumptions calc) (val_rate p) (max_projection_months (calc_config calc)).

(** The activation-month loop of [brute_force_solve]; [eval] is the loop body's
    (death_pv, income_pv) for an activation month. *)
Fixpoint brute_force_loop (eval : nat -> R * R) (fuel activation_month : nat)
    (best : N * R * ReserveComponents) : N * R * ReserveComponents :=
  match fuel with
  | O => best
  | S k =>
      let '(death_pv, income_pv) := eval activation_month in
      let total := death_pv + income_pv in
      let '(_, best_reserve, _) := best in
      let best' := if Rltb best_reserve total
        then (N.of_nat activation_month, total, mkReserveComponents death_pv income_pv 0 income_pv 0)
        else best in
      brute_force_loop eval k (S activation_month) best'
  end.

(** [brute_force_solve] ([dp_solve] and [hybrid_solve] both call it, so every
    [CARVMMethod] computes this). *)
Definition brute_force_solve (calc : CARVMCalculator) (p : Policy) (valuation_month : nat)
    (current_av current_bb : R) : N * R * ReserveComponents :=
  let b := benefit_calc calc p in
  let cfg := calc_config calc in
  let max_deferral := (valuation_month + max_deferral_years cfg * 12)%nat in
  let last := Nat.min max_deferral (max_projection_months cfg) in
  let eval := fun activation_month =>
    (death_benefit_pv b p valuation_month (Some activation_month) current_av current_bb,
     income_benefit_pv b p valuation_month activation_month current_bb) in
  let best := brute_force_loop eval (S last - valuation_month) valuation_month
                (u32_MAX, 0, components_default) in
  let never_death_pv := death_benefit_pv b p valuation_month None current_av current_bb in
  let '(_, best_reserve, _) := best in
  if Rltb best_reserve never_death_pv
  then (u32_MAX, never_death_pv, mkReserveComponents never_death_pv 0 0 0 0)
  else best.

Definition cash_surrender_value (calc : CARVMCalculator) (p : Policy) (month : nat) (av : R) : R :=
  av * (1 - sc_get_rate (surrender_charges (base (product (calc_assumptions calc)))) (policy_year p month)).

Definition get_av_at_month (p : Policy) (_month : nat) : R := starting_av p.
Definition get_bb_at_month (p : Policy) (_month : nat) : R := starting_benefit_base p.

(** [full_solve_and_cache]: the result and the calculator with its new cache. *)
Definition full_solve_and_cache (calc : CARVMCalculator) (p : Policy) (valuation_month : nat)
    (current_av current_bb : R) : ReserveResult * CARVMCalculator :=
  let '(optimal_month, reserve, components) :=
    brute_force_solve calc p valuation_month current_av current_bb in
  let csv := cash_surrender_value calc p valuation_month current_av in
  let final_reserve := fmax reserve csv in
  let a := calc_assumptions calc in
  let calc' :=
    if use_caching (calc_config calc) then
      let monthly_income :=
        if N.ltb optimal_month u32_MAX then
          let activation_age := attained_age p (N.to_nat optimal_month) in
          current_bb * get_single_life (payout_factors (glwb (product a))) activation_age / 12
        else 0 in
      let sc_rate := sc_get_rate (surrender_charges (base (product a))) (policy_year p valuation_month) in
      let path := cached_path_new (policy_id p) valuation_month optimal_month reserve
                    current_av current_bb monthly_income (death_benefit_pv_c components) sc_rate in
      mkCARVMCalculator a (calc_config calc) (cache_insert (cache calc) path) (cache_counters calc)
    else calc in
  let is_csv_binding := Rltb (Rabs (final_reserve - csv)) 0.01 in
  ({| res_policy_id := policy_id p; valuation_date := valuation_month;
      gross_reserve := final_reserve; net_reserve := final_reserve;
      optimal_activation_month := if is_csv_binding then u32_MAX else optimal_month;
      reserve_components :=
        if is_csv_binding then
          mkReserveComponents (death_benefit_pv_c components) (income_benefit_pv_c components)
            csv (elective_benefit_pv components) (free_pwd_pv components)
        else components;
      from_cache := false; csv_at_valuation := csv |}, calc').

Fixpoint roll_loop (calc : CARVMCalculator) (p : Policy) (v : R) (fuel t : nat) (reserve : R) : R :=
  match fuel with
  | O => reserve
  | S k =>
      let q := monthly_rate (mortality (calc_assumptions calc)) (attained_age p t) (gender p) t in
      roll_loop calc p v k (S t) (reserve / ((1 - q) * v))
  end.

Definition roll_accumulation_reserve (calc : CARVMCalculator) (r_prev : R) (p : Policy)
    (t_prev t_now : nat) : R :=
  roll_loop calc p (1 / (1 + val_rate p / 12)) (t_now - t_prev) t_prev r_prev.

Inductive RollForwardResult :=
  | RF_Success (reserve : R) (still_valid : bool)
  | RF_NeedsResolve.

Definition try_roll_forward (calc : CARVMCalculator) (p : Policy) (valuation_month : nat)
    (cached : CachedReservePath) : RollForwardResult :=
  let t_star := cached_optimal_activation_month cached in
  let current_av := get_av_at_month p valuation_month in
  let current_bb := get_bb_at_month p valuation_month in
  if N.ltb (N.of_nat valuation_month) t_star then
    let rolled := roll_accumulation_reserve calc (reserve_at_solve cached) p
                    (solve_month cached) valuation_month in
    let current_itm := if Rlt_dec 0 current_av then current_bb / current_av else f64_MAX in
    let still_valid := Rltb (Rabs (current_itm - itm_at_solve cached) / fmax (itm_at_solve cached) 0.01) 0.10 in
    RF_Success rolled still_valid
  else if N.ltb t_star u32_MAX then
    let b := benefit_calc calc p in
    let a := calc_assumptions calc in
    let activation_age := attained_age p (N.to_nat t_star) in
    let payout_rate := get_single_life (payout_factors (glwb (product a))) activation_age in
    let income_pv := remaining_income_pv b p valuation_month current_bb payout_rate in
    let death_pv := death_benefit_pv b p valuation_month (Some (N.to_nat t_star)) current_av current_bb in
    RF_Success (income_pv + death_pv) true
  else RF_NeedsResolve.

(** [calculate_with_cache] (= [calculate_reserve]). *)
Definition calculate_with_cache (calc : CARVMCalculator) (p : Policy) (valuation_month : nat)
    : ReserveResult * CARVMCalculator :=
  let current_av := get_av_at_month p valuation_month in
  let current_bb := get_bb_at_month p valuation_month in
  let full_solve := fun calc' => full_solve_and_cache calc' p valuation_month current_av current_bb in
  if use_caching (calc_config calc) then
    match cache_get (cache calc) (policy_id p) with
    | Some cached =>
        if needs_revalidation (revalidation_criteria (calc_config calc)) cached
             valuation_month current_av current_bb
        then full_solve (update_counters record_revalidation calc)
        else match try_roll_forward calc p valuation_month cached with
             | RF_Success reserve _ =>
                 let calc' := update_counters record_hit calc in
                 let csv := cash_surrender_value calc' p valuation_month current_av in
                 let final_reserve := fmax reserve csv in
                 ({| res_policy_id := policy_id p; valuation_date := valuation_month;
                     gross_reserve := final_reserve; net_reserve := final_reserve;
                     optimal_activation_month := cached_optimal_activation_month cached;
                     reserve_components := {|
                       death_benefit_pv_c := death_benefit_pv_remaining cached;
                       income_benefit_pv_c := reserve - death_benefit_pv_remaining cached;
                       surrender_value_pv :=
                         if Rltb (Rabs (final_reserve - csv)) 0.01 then csv else 0;
                       elective_benefit_pv := reserve - death_benefit_pv_remaining cached;
                       free_pwd_pv := 0 |};
                     from_cache := true; csv_at_valuation := csv |}, calc')
             | RF_NeedsResolve => full_solve (update_counters record_miss calc)
             end
    | None => full_solve (update_counters record_miss calc)
    end
  else full_solve calc.

Definition calculate_reserve := calculate_with_cache.

(** [clear_cache]: [ReserveCache::clear] empties the entries and resets the
    counters. *)
Definition clear_cache (calc : CARVMCalculator) : CARVMCalculator :=
  mkCARVMCalculator (calc_assumptions calc) (calc_config calc) []
    (counters_clear (cache_counters calc)).

(** [ReserveResult::is_csv_binding]. *)
Definition is_csv_binding (r : ReserveResult) : bool :=
  Rltb (Rabs (gross_reserve r - csv_at_valuation r)) 0.01.

(** ** Default assumption sets and example cells *)

Definition rmd_default : RmdTable := mkRmdTable [(73%nat, 0.0377358490566038); (74%nat, 0.0392156862745098); (75%nat, 0.0406504065040650); (76%nat, 0.0421940928270042); (77%nat, 0.0436681222707424); (78%nat, 0.0454545454545455); (79%nat, 0.0473933649289099); (80%nat, 0.0495049504950495); (81%nat, 0.0515463917525773); (82%nat, 0.0540540540540541); (83%nat, 0.0564971751412429); (84%nat, 0.0595238095238095); (85%nat, 0.0625); (86%nat, 0.0657894736842105); (87%nat, 0.0694444444444444); (88%nat, 0.0729927007299270); (89%nat, 0.0775193798449612); (90%nat, 0.0819672131147541); (91%nat, 0.0869565217391304); (92%nat, 0.0925925925925926); (93%nat, 0.0990099009900990); (94%nat, 0.1052631578947368); (95%nat, 0.1123595505617978); (96%nat, 0.1190476190476190); (97%nat, 0.1265822784810127); (98%nat, 0.1351351351351351); (99%nat, 0.1449275362318841); (100%nat, 0.1562500000000000)].

Definition free_utilization_default : FreeWithdrawalUtilization :=
  mkFreeWithdrawalUtilization [0.1; 0.2; 0.3; 0.4].

Definition pwd_default : PwdAssumptions := mkPwdAssumptions rmd_default free_utilization_default.

(** Modelled from the spec: the expense rate of AV defaults to 0.25%. *)
Definition base_default : BaseProductFeatures :=
  mkBaseProductFeatures default_10_year 0.05 0.0025.

(** Modelled from the spec: an illustrative commission schedule (the schedule's
    values are not in src/): an agent commission of [rate] times the premium,
    no overrides, no bonus compensation, and the spec's chargeback factor. *)
Definition flat_commissions (rate : R) : CommissionSchedule :=
  mkCommissionSchedule (fun premium _ => (premium * rate, 0, 0, 0, 0)) (fun _ => 0)
    spec_chargeback_factor.

(** [Assumptions::default_pricing] with a given commission schedule. *)
Definition default_pricing (comm : CommissionSchedule) : Assumptions :=
  mkAssumptions iam_2012_with_improvement default_predictive_model
    (mkProductFeatures base_default glwb_default comm) pwd_default.

(** The engine's test cell (policy 2800: issue age 77, male). *)
Definition policy_2800 : Policy := {|
  policy_id := 2800; qual_status := Qual_Q; issue_age := 77; gender := Male;
  initial_benefit_base := 27178.16; initial_pols := 1; initial_premium := 20906.28;
  benefit_base_bucket := Under50k; crediting_strategy := Indexed; sc_period := 10;
  val_rate := 0.0475; duration_months := 0; p_income_activated := false;
  glwb_start_year := 99; current_av := None; current_benefit_base := None |}.

(** The same cell pre-seasoned by one policy year, non-qualified. *)
Definition policy_2800_seasoned : Policy := {|
  policy_id := 2800; qual_status := Qual_N; issue_age := 77; gender := Male;
  initial_benefit_base := 27178.16; initial_pols := 1; initial_premium := 20906.28;
  benefit_base_bucket := Under50k; crediting_strategy := Indexed; sc_period := 10;
  val_rate := 0.0475; duration_months := 12; p_income_activated := false;
  glwb_start_year := 99; current_av := None; current_benefit_base := None |}.

(** A reserve example: a cell six months into policy year 1 at age 60, with no
    mortality, payout factors loaded for ages 60 (0%) and 61 (5%), and an
    eight-month reserve horizon. *)
Definition zero_mortality : MortalityTable := {|
  base_rates := repeat (0, 0) 256; age_factors := []; improvement_rates := [];
  conversion_method := Standard; table_base_year := 2012; projection_year := 2026 |}.

Definition reserve_assumptions : Assumptions :=
  mkAssumptions zero_mortality default_predictive_model
    (mkProductFeatures base_default
       {| bonus_rate := 0.30; rollup_rate := 0.10;
          pre_activation_charge := 0.005; post_activation_charge := 0.015;
          payout_factors := payout_from_loaded [(60%nat, 0); (61%nat, 0.05)] |}
       (flat_commissions 0))
    pwd_default.

Definition reserve_policy : Policy := {|
  policy_id := 1; qual_status := Qual_N; issue_age := 60; gender := Male;
  initial_benefit_base := 100; initial_pols := 1; initial_premium := 100000;
  benefit_base_bucket := Under50k; crediting_strategy := Indexed; sc_period := 10;
  val_rate := 0.0475; duration_months := 6; p_income_activated := false;
  glwb_start_year := 99; current_av := None; current_benefit_base := None |}.

Definition reserve_calculator : CARVMCalculator :=
  mkCARVMCalculator reserve_assumptions (mkCARVMConfig 8 true revalidation_default 30) []
    counters_new.

(** ** Statements following the spec's words *)

(** The rollup factor as the spec states it. *)
Definition spec_rollup_factor (bb_bonus rollup : R) (policy_year : nat) : R :=
  (1 + bb_bonus + rollup * Rmin (INR policy_year) 10)
  / (1 + bb_bonus + rollup * Rmin (INR (policy_year - 1)) 10).

(** The twelve shock-year skews, policy months 1 to 12. *)
Definition shock_year_skews (sc_period : nat) : list R :=
  map (fun m => get_skew (sc_period + 1) m sc_period) (seq 1 12).

(** The spec's annualisation of a per-period rate found by the solver in its
    bracket [-0.99, 10]: [(1 + r_periodic)^ppy - 1]. *)
Definition annualised (r : R) (ppy : nat) : Prop :=
  exists rm, -0.99 <= rm <= 10 /\ r = powi (1 + rm) (as_i32 ppy) - 1.

(** The state invariant behind AV exhaustion: a non-negative benefit base and a
    non-negative locked payout rate, so that systematic withdrawals are never
    negative. *)
Definition bb_inv (s : ProjectionState) : Prop :=
  0 <= bop_benefit_base s /\ forall x, locked_payout_rate s = Some x -> 0 <= x.

(** The income PV of activation month 7 in the reserve example: one payment of
    [100 * 5% / 12] discounted seven months. *)
Definition reserve_income_7 : R :=
  1 * (100 * 0.05 / 12)
  * powi (elective_discount_factor (benefit_calc reserve_calculator reserve_policy)) (as_i32 7).

(** * Lemmas *)

(** ** Real-number helpers *)

Lemma powf_nonneg (x y : R) : 0 <= powf x y.
Proof.
  unfold powf. destruct (Rlt_dec 0 x); [left; apply exp_pos|].
  destruct (Rlt_dec 0 y); lra.
Qed.

Lemma powf_pos (x y : R) : 0 < x -> powf x y = Rpower x y.
Proof. intros H. unfold powf. destruct (Rlt_dec 0 x); [reflexivity|lra]. Qed.

Lemma powf_1 (y : R) : powf 1 y = 1.
Proof.
  unfold powf. destruct (Rlt_dec 0 1); [|lra].
  unfold Rpower. rewrite ln_1, Rmult_0_r. apply exp_0.
Qed.

Lemma wrap_i32_small (z : Z) : (0 <= z <= i32_MAX)%Z -> wrap_i32 z = z.
Proof.
  unfold i32_MAX, wrap_i32. intros Hz. rewrite Z.mod_small by lia.
  destruct (Z.ltb_spec z (2 ^ 31)); lia.
Qed.

Lemma as_i32_small (n : nat) : (Z.of_nat n <= i32_MAX)%Z -> as_i32 n = Z.of_nat n.
Proof. intros H. unfold as_i32. apply wrap_i32_small. lia. Qed.

Lemma powi_as_i32 (x : R) (n : nat) : (Z.of_nat n <= i32_MAX)%Z -> powi x (as_i32 n) = x ^ n.
Proof.
  intros H. rewrite as_i32_small by exact H. unfold powi.
  destruct (Z.leb_spec 0 (Z.of_nat n)); [|lia]. rewrite Nat2Z.id. reflexivity.
Qed.

Lemma powi_pos (x : R) (z : Z) : 0 < x -> 0 < powi x z.
Proof.
  intros Hx. unfold powi. destruct (Z.leb 0 z); [apply pow_lt, Hx|].
  apply Rinv_0_lt_compat, pow_lt, Hx.
Qed.

Lemma Rltb_true (x y : R) : Rltb x y = true <-> x < y.
Proof. unfold Rltb. destruct (Rlt_dec x y); split; intros; auto; discriminate. Qed.

Lemma Rltb_true_of_lt (x y : R) : x < y -> Rltb x y = true.
Proof. intros H. apply Rltb_true, H. Qed.

Lemma Rltb_false_of_le (x y : R) : y <= x -> Rltb x y = false.
Proof. intros H. unfold Rltb. destruct (Rlt_dec x y); [lra|reflexivity]. Qed.

Lemma one_e_minus_10_pos : 0 < one_e_minus_10.
Proof.
  unfold one_e_minus_10. unfold Rdiv. rewrite Rmult_1_l.
  apply Rinv_0_lt_compat, IZR_lt. reflexivity.
Qed.

Lemma one_e_minus_10_lt_1 : one_e_minus_10 < 1.
Proof.
  unfold one_e_minus_10. apply (Rmult_lt_reg_r (IZR (Z.pow_pos 10 10))).
  - apply IZR_lt. reflexivity.
  - unfold Rdiv. rewrite Rmult_assoc, Rinv_l, Rmult_1_l, Rmult_1_l.
    + apply IZR_lt. reflexivity.
    + apply not_0_IZR. discriminate.
Qed.

(** ** Projection engine *)

Lemma update_benefit_base_eq (a : Assumptions) (p : Policy) (s : ProjectionState) (r : Rates) :
  update_benefit_base a p s r
  = bop_benefit_base s
    * ((1 - final_mortality r) * (1 - final_lapse_rate r) * (1 - non_systematic_pwd_rate r))
    * (if andb (negb (income_activated s))
              (andb (Nat.eqb (st_month_in_policy_year s) 12) (Nat.leb (st_policy_year s) (sc_period p)))
       then spec_rollup_factor (bonus_rate (glwb (product a))) (rollup_rate (glwb (product a)))
              (st_policy_year s)
       else 1).
Proof.
  unfold update_benefit_base, spec_rollup_factor, fmin.
  destruct (income_activated s); simpl; [ring|]. destruct (andb _ _); simpl; ring.
Qed.

Lemma rollup_factor_nonneg (b r : R) (py : nat) :
  0 <= b -> 0 <= r -> 0 <= spec_rollup_factor b r py.
Proof.
  intros Hb Hr. unfold spec_rollup_factor.
  assert (0 <= Rmin (INR py) 10) by (apply Rmin_glb; [apply pos_INR | lra]).
  assert (0 <= Rmin (INR (py - 1)) 10) by (apply Rmin_glb; [apply pos_INR | lra]).
  apply Rmult_le_pos; [nra|]. left. apply Rinv_0_lt_compat. nra.
Qed.

Lemma allocate_decrements_zero (sw rr : R) (r : Rates) :
  allocate_decrements 0 sw rr r = (0, 0, sw, 0, 0).
Proof.
  unfold allocate_decrements. destruct (Rlt_dec 0 _); [|reflexivity].
  f_equal; [f_equal; [f_equal; [f_equal|]|]|]; unfold Rdiv; ring.
Qed.

Lemma calculate_month_eop (a : Assumptions) (cfg : ProjectionConfig) (p : Policy)
    (s : ProjectionState) :
  eop_av (snd (calculate_month a cfg p s)) = row_eop_av (row_cf (fst (calculate_month a cfg p s))).
Proof. reflexivity. Qed.

Lemma calculate_month_eop_nonneg (a : Assumptions) (cfg : ProjectionConfig) (p : Policy)
    (s : ProjectionState) :
  0 <= row_eop_av (row_cf (fst (calculate_month a cfg p s))).
Proof.
  unfold calculate_month, calculate_cashflows. simpl fst. cbn [row_cf].
  destruct (allocate_decrements _ _ _ _) as [[[[? ?] ?] ?] ?].
  destruct (if Nat.eqb (projection_month s) 1 then _ else _) as [[[[? ?] ?] ?] ?].
  destruct (calculate_hedge_gains cfg p s _). simpl. unfold fmax. apply Rmax_r.
Qed.

Lemma calculate_cashflows_zero_bop (a : Assumptions) (cfg : ProjectionConfig) (p : Policy)
    (s : ProjectionState) (premium : R) (r : Rates) (pe : Persist) :
  bop_av s = 0 -> 0 <= systematic_withdrawal r ->
  row_eop_av (calculate_cashflows a cfg p s premium r pe) = 0.
Proof.
  intros Hb Hsw. unfold calculate_cashflows.
  assert (Hf : fmax (bop_av s - systematic_withdrawal r) 0 = 0)
    by (unfold fmax; apply Rmax_right; lra).
  rewrite Hf, Rmult_0_l, allocate_decrements_zero.
  destruct (if Nat.eqb (projection_month s) 1 then _ else _) as [[[[? ?] ?] ?] ?].
  destruct (calculate_hedge_gains cfg p s _). simpl. rewrite Hb.
  unfold fmax. apply Rmax_right. lra.
Qed.

(** The fields of the state after one loop iteration's [advance_month] and
    payout-rate lock. *)
Ltac advance_fields s p :=
  simpl; repeat split;
  try (destruct (income_activated s), (should_activate_income p _); reflexivity).

Lemma project_step_spec (a : Assumptions) (cfg : ProjectionConfig) (p : Policy)
    (s : ProjectionState) :
  exists s2, project_step a cfg p s = calculate_month a cfg p s2
   /\ projection_month s2 = S (projection_month s)
   /\ st_policy_year s2 = policy_year p (S (projection_month s))
   /\ st_month_in_policy_year s2 = month_in_policy_year p (S (projection_month s))
   /\ st_attained_age s2 = attained_age p (S (projection_month s))
   /\ income_activated s2
      = orb (income_activated s) (should_activate_income p (S (projection_month s)))
   /\ bop_av s2 = eop_av s
   /\ bop_benefit_base s2 = bop_benefit_base s
   /\ (locked_payout_rate s2 = locked_payout_rate s
       \/ locked_payout_rate s2
          = Some (get_single_life (payout_factors (glwb (product a))) (st_attained_age s2))).
Proof.
  unfold project_step.
  destruct (locked_payout_rate (advance_month p s)) eqn:El.
  - exists (advance_month p s). split; [reflexivity|]. advance_fields s p. left; reflexivity.
  - destruct (income_activated (advance_month p s)) eqn:Ei.
    + eexists. split; [reflexivity|]. advance_fields s p. right; reflexivity.
    + exists (advance_month p s). split; [reflexivity|]. advance_fields s p. left; reflexivity.
Qed.

Lemma policy_year_month1 (p : Policy) :
  (duration_months p < 12)%nat -> policy_year p 1 = 1%nat.
Proof.
  intros H. unfold policy_year.
  replace (Nat.pred (duration_months p + 1)) with (duration_months p) by lia.
  rewrite Nat.div_small by exact H. reflexivity.
Qed.

Lemma lapse_zero_bop (a : Assumptions) (cfg : ProjectionConfig) (p : Policy)
    (s : ProjectionState) :
  bop_av s <= 0 -> final_lapse_rate (calculate_decrements a cfg p s) = 0.
Proof.
  intros H. unfold calculate_decrements. cbn [final_lapse_rate].
  destruct (Rle_dec (bop_av s) 0); [reflexivity | contradiction].
Qed.

(** ** Payout bands *)

Lemma find_band_in (l : list ((nat * nat) * R)) (age : nat) (x : R) :
  find_band l age = Some x -> exists b, In b l /\ snd b = x.
Proof.
  induction l as [|[[lo hi] f] tl IH]; simpl; [discriminate|].
  destruct (andb _ _).
  - intros H. injection H as <-. exists ((lo, hi), f). simpl. auto.
  - intros H. destruct (IH H) as (b & Hb & Hx). exists b. auto.
Qed.

Lemma find_band_none (l : list ((nat * nat) * R)) (age : nat) :
  (forall lo hi f, In ((lo, hi), f) l -> ~ (lo <= age <= hi)%nat) -> find_band l age = None.
Proof.
  induction l as [|[[lo hi] f] tl IH]; intros H; simpl; [reflexivity|].
  destruct (Nat.leb lo age) eqn:E1; destruct (Nat.leb age hi) eqn:E2; simpl;
    try (apply IH; intros lo' hi' f' Hin; apply (H lo' hi' f'); right; exact Hin).
  apply Nat.leb_le in E1. apply Nat.leb_le in E2.
  exfalso. apply (H lo hi f); [left; reflexivity | lia].
Qed.

Lemma get_single_life_outside (pf : PayoutFactors) (age : nat) :
  (forall lo hi f, In ((lo, hi), f) (single_life pf) -> ~ (lo <= age <= hi)%nat) ->
  get_single_life pf age = 0.090.
Proof. intros H. unfold get_single_life. rewrite (find_band_none _ _ H). reflexivity. Qed.

(** ** Mortality *)

Lemma Rpower_pow12 (x y : R) : 0 < x -> (Rpower x y) ^ 12 = Rpower x (y * 12).
Proof.
  intros Hx. rewrite <- Rpower_pow by apply exp_pos. rewrite Rpower_mult.
  f_equal. f_equal. simpl. lra.
Qed.
Lemma frac_pow (a b : R) (n : nat) : b <> 0 -> (a / b) ^ n = a ^ n / b ^ n.
Proof. intros Hb. unfold Rdiv. rewrite Rpow_mult_distr, pow_inv. reflexivity. Qed.
Lemma frac_lt (p q r s : Z) : (0 < q)%Z -> (0 < s)%Z -> (p * s < r * q)%Z ->
  IZR p / IZR q < IZR r / IZR s.
Proof.
  intros Hq Hs H. apply IZR_lt in Hq, Hs, H. rewrite !mult_IZR in H.
  apply Rmult_lt_reg_r with (IZR q * IZR s); [nra|].
  replace (IZR p / IZR q * (IZR q * IZR s)) with (IZR p * IZR s) by (field; lra).
  replace (IZR r / IZR s * (IZR q * IZR s)) with (IZR r * IZR q) by (field; lra).
  exact H.
Qed.
Lemma pow_lt_inv (x y : R) (n : nat) : 0 <= x -> 0 <= y -> x ^ n < y ^ n -> x < y.
Proof.
  intros Hx Hy H. destruct (Rlt_le_dec x y) as [|Hle]; [assumption|].
  exfalso. assert (y ^ n <= x ^ n) by (apply pow_incr; lra). lra.
Qed.
Lemma improvement_bounds (m : nat) : (m = 1 \/ m = 2)%nat ->
  0.818 < powf (1 - 0.015) (INR 13 + INR m / 12) < 0.823.
Proof.
  intros Hm. rewrite powf_pos by lra.
  set (F := Rpower (1 - 0.015) (INR 13 + INR m / 12)).
  assert (HF : 0 < F) by apply exp_pos.
  assert (H12 : F ^ 12 = (IZR 197 / IZR 200) ^ (156 + m)).
  { unfold F. rewrite Rpower_pow12 by lra.
    replace ((INR 13 + INR m / 12) * 12) with (INR (156 + m)).
    - rewrite Rpower_pow by lra. f_equal. lra.
    - rewrite plus_INR. simpl. lra. }
  split.
  - apply (pow_lt_inv _ _ 12); [lra|lra|]. rewrite H12.
    replace 0.818 with (IZR 409 / IZR 500) by lra.
    destruct Hm as [-> | ->]; simpl plus;
    rewrite !frac_pow by (apply not_0_IZR; discriminate);
    rewrite !pow_IZR; apply frac_lt; vm_compute; reflexivity.
  - apply (pow_lt_inv _ _ 12); [lra|lra|]. rewrite H12.
    replace 0.823 with (IZR 823 / IZR 1000) by lra.
    destruct Hm as [-> | ->]; simpl plus;
    rewrite !frac_pow by (apply not_0_IZR; discriminate);
    rewrite !pow_IZR; apply frac_lt; vm_compute; reflexivity.
Qed.
Lemma monthly_rate_77_male (m : nat) : monthly_rate iam_2012_with_improvement 77 Male m =
  1 - powf (1 - 0.026155 * (0.6 + 0.4 * INR 17 / 30) * powf (1 - 0.015) (INR 13 + INR m / 12)) (1/12).
Proof.
  change (monthly_rate iam_2012_with_improvement 77 Male m) with
    (1 - powf (1 - 0.026155 * (0.6 + 0.4 * INR 17 / 30) * powf (1 - 0.015) (IZR 13 + INR m / 12)) (1/12)).
  rewrite (INR_IZR_INZ 13). reflexivity.
Qed.

Lemma conv_bound (F c : R) (ylo yhi : Z) :
  0.818 < F < 0.823 ->
  IZR ylo / IZR 10000000 = 1 - (c + 1e-5) ->
  IZR yhi / IZR 10000000 = 1 - (c - 1e-5) ->
  (0 < ylo)%Z -> (0 < yhi)%Z ->
  (ylo ^ 12 * 7500000000 < 7366541497 * 10000000 ^ 12)%Z ->
  (3683676151 * 10000000 ^ 12 < yhi ^ 12 * 3750000000)%Z ->
  Rabs (1 - powf (1 - 0.026155 * (0.6 + 0.4 * INR 17 / 30) * F) (1/12) - c) < 1e-5.
Proof.
  intros HF Hlo Hhi Hpos Hpos' Hl Hh.
  assert (HK : 0.026155 * (0.6 + 0.4 * INR 17 / 30) = 0.026155 * (62/75))
    by (simpl; lra).
  rewrite HK. set (a := 0.026155 * (62 / 75) * F).
  assert (Ha1 : IZR 7366541497 / IZR 7500000000 < 1 - a) by (unfold a; lra).
  assert (Ha2 : 1 - a < IZR 3683676151 / IZR 3750000000) by (unfold a; lra).
  rewrite powf_pos by lra.
  set (y := Rpower (1 - a) (1/12)).
  assert (Hy0 : 0 < y) by apply exp_pos.
  assert (Hy12 : y ^ 12 = 1 - a).
  { unfold y. rewrite Rpower_pow12 by lra.
    replace (1 / 12 * 12) with 1 by lra. apply Rpower_1. lra. }
  assert (Hylo : IZR ylo / IZR 10000000 < y).
  { apply (pow_lt_inv _ _ 12).
    - apply IZR_lt in Hpos. unfold Rdiv. apply Rmult_le_pos; [lra|].
      left. apply Rinv_0_lt_compat. apply IZR_lt. reflexivity.
    - lra.
    - rewrite Hy12. eapply Rlt_trans; [|exact Ha1].
      rewrite frac_pow by (apply not_0_IZR; discriminate).
      rewrite !pow_IZR. apply frac_lt; [vm_compute; reflexivity|reflexivity|].
      exact Hl. }
  assert (Hyhi : y < IZR yhi / IZR 10000000).
  { apply (pow_lt_inv _ _ 12).
    - lra.
    - apply IZR_lt in Hpos'. unfold Rdiv. apply Rmult_le_pos; [lra|].
      left. apply Rinv_0_lt_compat. apply IZR_lt. reflexivity.
    - rewrite Hy12. eapply Rlt_trans; [exact Ha2|].
      rewrite frac_pow by (apply not_0_IZR; discriminate).
      rewrite !pow_IZR. apply frac_lt; [reflexivity|vm_compute; reflexivity|].
      exact Hh. }
  apply Rabs_def1; lra.
Qed.

Lemma monthly_rate_77_male_month1 :
  Rabs (monthly_rate iam_2012_with_improvement 77 Male 1 - 0.0014907) < 1e-5.
Proof.
  rewrite monthly_rate_77_male. apply (conv_bound _ _ 9984993 9985193).
  - apply improvement_bounds. left; reflexivity.
  - lra. - lra. - reflexivity. - reflexivity. - vm_compute; reflexivity. - vm_compute; reflexivity.
Qed.
Lemma monthly_rate_77_male_month2 :
  Rabs (monthly_rate iam_2012_with_improvement 77 Male 2 - 0.0014888) < 1e-5.
Proof.
  rewrite monthly_rate_77_male. apply (conv_bound _ _ 9985012 9985212).
  - apply improvement_bounds. right; reflexivity.
  - lra. - lra. - reflexivity. - reflexivity. - vm_compute; reflexivity. - vm_compute; reflexivity.
Qed.

Lemma attained_age_le (p : Policy) (t : nat) : (attained_age p t <= 255)%nat.
Proof. unfold attained_age. apply Nat.le_min_l. Qed.

Lemma zero_mortality_rate (age : nat) (g : Gender) (m : nat) :
  (age <= 255)%nat -> monthly_rate zero_mortality age g m = 0.
Proof.
  intros Hage. unfold monthly_rate.
  destruct (nth_error (base_rates zero_mortality) age) as [fm|] eqn:E.
  - apply nth_error_In, repeat_spec in E. subst fm.
    unfold get_age_factor, get_or, improvement_rate. simpl base_rates.
    rewrite !nth_error_nil. simpl conversion_method.
    replace (by_gender g (0, 0)) with 0 by (destruct g; reflexivity).
    cbv zeta. rewrite Rmult_0_l, Rmult_0_l, Rminus_0_r, powf_1. ring.
  - apply nth_error_None in E.
    assert (length (base_rates zero_mortality) = 256%nat) by reflexivity. lia.
Qed.

(** ** Internal rate of return *)

Lemma forallb_Rltb (f : R -> R) (e : R) (l : list R) :
  forallb (fun cf => Rltb (f cf) e) l = true <-> Forall (fun cf => f cf < e) l.
Proof.
  rewrite forallb_forall, Forall_forall. split; intros H x Hx; specialize (H x Hx).
  - apply Rltb_true in H; exact H.
  - apply Rltb_true; exact H.
Qed.

Lemma existsb_Rltb (P : R -> R -> Prop) (f : R -> bool) (l : list R) :
  (forall x, f x = true <-> P x x) ->
  existsb f l = true <-> Exists (fun cf => P cf cf) l.
Proof.
  intros Hf. rewrite existsb_exists, Exists_exists. split.
  - intros [x [Hx Hfx]]. exists x. split; [exact Hx | apply Hf; exact Hfx].
  - intros [x [Hx Hfx]]. exists x. split; [exact Hx | apply Hf; exact Hfx].
Qed.

Lemma clamp_range (x : R) : -0.99 <= fmin (fmax x (-0.99)) 10 <= 10.
Proof.
  unfold fmin, fmax. split.
  - apply Rmin_glb; [apply Rmax_r | lra].
  - apply Rmin_r.
Qed.

Lemma bisection_loop_range (cfs : list R) (ppy iters : nat) :
  forall low high r, -0.99 <= low -> low <= high -> high <= 10 ->
  bisection_loop cfs ppy iters low high = Some r -> annualised r ppy.
Proof.
  induction iters as [|k IH]; intros low high r Hl Hlh Hh H; simpl in H; [discriminate|].
  destruct (orb _ _).
  - injection H as <-. exists ((low + high) / 2). split; [lra | reflexivity].
  - destruct (Rltb _ 0);
      [apply (IH low ((low + high) / 2) r) | apply (IH ((low + high) / 2) high r)];
      try lra; exact H.
Qed.

Lemma bisection_range (cfs : list R) (ppy : nat) (r : R) :
  calculate_irr_bisection cfs ppy = Some r -> annualised r ppy.
Proof.
  unfold calculate_irr_bisection. destruct (Rltb 0 _); [discriminate|].
  apply bisection_loop_range; lra.
Qed.

Lemma newton_range (cfs : list R) (ppy iters : nat) :
  forall rate r, newton_loop cfs ppy iters rate = Some r -> annualised r ppy.
Proof.
  induction iters as [|k IH]; intros rate r H; simpl in H; [exact (bisection_range _ _ _ H)|].
  destruct (npv_and_derivative cfs rate) as [npv dnpv].
  destruct (Rltb (Rabs dnpv) _); [exact (bisection_range _ _ _ H)|].
  destruct (Rltb (Rabs _) _).
  - injection H as <-. eexists. split; [apply clamp_range | reflexivity].
  - exact (IH _ _ H).
Qed.

(** ** CARVM reserve *)

Lemma death_loop_q0 (b : BenefitCalculator) (p : Policy) (vm : nat) (am : option nat)
    (fuel t : nat) (av bb dpv : R) :
  mortality (ben_assumptions b) = zero_mortality ->
  death_loop b p vm am fuel t 1 av bb dpv = dpv.
Proof.
  intros Hm. revert t av bb dpv.
  induction fuel as [|k IH]; intros t av bb dpv; [reflexivity|].
  cbn [death_loop]. rewrite Hm, zero_mortality_rate by apply attained_age_le.
  replace (1 * (1 - 0)) with 1 by ring.
  rewrite Rltb_false_of_le by (pose proof one_e_minus_10_lt_1; lra).
  destruct (project_state_forward _ _ _ _ _ _). rewrite IH. ring.
Qed.

Lemma income_loop_q0_step (b : BenefitCalculator) (p : Policy) (vm am : nat) (mi : R)
    (k t : nat) (ipv : R) :
  mortality (ben_assumptions b) = zero_mortality ->
  income_loop b p vm am mi (S k) t 1 ipv
  = income_loop b p vm am mi k (S t) 1
      (if Nat.leb am t then ipv + 1 * mi * powi (elective_discount_factor b) (as_i32 (t - vm)) else ipv).
Proof.
  intros Hm. cbn [income_loop]. rewrite Hm, zero_mortality_rate by apply attained_age_le.
  replace (1 * (1 - 0)) with 1 by ring.
  rewrite Rltb_false_of_le by (pose proof one_e_minus_10_lt_1; lra).
  reflexivity.
Qed.

Lemma brute_force_loop_ext (eval eval' : nat -> R * R) (fuel am : nat)
    (best : N * R * ReserveComponents) :
  (forall x, (am <= x < am + fuel)%nat -> eval x = eval' x) ->
  brute_force_loop eval fuel am best = brute_force_loop eval' fuel am best.
Proof.
  revert am best. induction fuel as [|k IH]; intros am best H; [reflexivity|].
  cbn [brute_force_loop]. rewrite (H am) by lia.
  destruct (eval' am). destruct best as [[? ?] ?]. apply IH.
  intros x Hx. apply H. lia.
Qed.

Lemma reserve_income_7_pos : 0 < reserve_income_7.
Proof.
  unfold reserve_income_7. rewrite powi_as_i32 by (unfold i32_MAX; lia).
  unfold elective_discount_factor. simpl valuation_rate.
  apply Rmult_lt_0_compat; [lra|]. apply pow_lt.
  apply Rdiv_lt_0_compat; lra.
Qed.

Lemma reserve_payout (am : nat) : (am <= 8)%nat ->
  get_single_life (payout_factors (glwb (product reserve_assumptions))) (attained_age reserve_policy am)
  = if Nat.leb 7 am then 0.05 else 0.
Proof.
  intros H. assert (am = 0 \/ am = 1 \/ am = 2 \/ am = 3 \/ am = 4 \/ am = 5 \/ am = 6 \/ am = 7 \/ am = 8)%nat as Hc by lia.
  repeat destruct Hc as [-> | Hc]; try (subst; reflexivity).
Qed.

Lemma reserve_income_eval (am : nat) : (am <= 8)%nat ->
  income_benefit_pv (benefit_calc reserve_calculator reserve_policy) reserve_policy 0 am 100
  = if Nat.eqb am 7 then reserve_income_7 else 0.
Proof.
  intros H. unfold income_benefit_pv. cbv zeta.
  change (ben_max_projection_months (benefit_calc reserve_calculator reserve_policy) - 0)%nat with 8%nat.
  rewrite !income_loop_q0_step by reflexivity. cbn [income_loop].
  change (ben_assumptions (benefit_calc reserve_calculator reserve_policy)) with reserve_assumptions.
  rewrite (reserve_payout am H). unfold reserve_income_7.
  assert (am = 0 \/ am = 1 \/ am = 2 \/ am = 3 \/ am = 4 \/ am = 5 \/ am = 6 \/ am = 7 \/ am = 8)%nat as Hc by lia.
  repeat destruct Hc as [-> | Hc]; try subst am; cbn [Nat.ltb Nat.leb Nat.eqb Nat.sub]; unfold Rdiv;
    repeat rewrite ?Rmult_0_r, ?Rmult_0_l, ?Rplus_0_l; reflexivity.
Qed.

Lemma reserve_income_7_lt_1 : reserve_income_7 < 1.
Proof.
  unfold reserve_income_7. rewrite powi_as_i32 by (unfold i32_MAX; lia).
  unfold elective_discount_factor. simpl valuation_rate.
  assert (Hd : 0 < 1 / (1 + 0.0475 / 12) <= 1).
  { split; [apply Rdiv_lt_0_compat; lra|].
    apply (Rmult_le_reg_r (1 + 0.0475 / 12)); [lra|].
    unfold Rdiv. rewrite Rmult_assoc, Rinv_l by lra. lra. }
  assert (Hp : (1 / (1 + 0.0475 / 12)) ^ 7 <= 1).
  { rewrite <- (pow1 7). apply pow_incr. lra. }
  assert (0 <= (1 / (1 + 0.0475 / 12)) ^ 7) by (apply pow_le; lra).
  nra.
Qed.

Lemma reserve_brute_force :
  brute_force_solve reserve_calculator reserve_policy 0
    (get_av_at_month reserve_policy 0) (get_bb_at_month reserve_policy 0)
  = (7%N, 0 + reserve_income_7, mkReserveComponents 0 reserve_income_7 0 reserve_income_7 0).
Proof.
  change (get_av_at_month reserve_policy 0) with 100000.
  change (get_bb_at_month reserve_policy 0) with 100.
  unfold brute_force_solve. cbv zeta.
  change (S (Nat.min (0 + max_deferral_years (calc_config reserve_calculator) * 12)
                     (max_projection_months (calc_config reserve_calculator))) - 0)%nat
    with 9%nat.
  rewrite (brute_force_loop_ext _ (fun am => (0, if Nat.eqb am 7 then reserve_income_7 else 0))).
  2: { intros x Hx. unfold death_benefit_pv. rewrite death_loop_q0 by reflexivity.
       rewrite reserve_income_eval by lia. reflexivity. }
  unfold death_benefit_pv. rewrite death_loop_q0 by reflexivity.
  cbn [brute_force_loop Nat.eqb].
  pose proof reserve_income_7_pos.
  repeat (first [ rewrite (Rltb_false_of_le 0 (0 + 0)) by lra
                | rewrite (Rltb_true_of_lt 0 (0 + reserve_income_7)) by lra
                | rewrite (Rltb_false_of_le (0 + reserve_income_7) (0 + 0)) by lra
                | rewrite (Rltb_false_of_le (0 + reserve_income_7) 0) by lra ];
          cbn [brute_force_loop]).
  reflexivity.
Qed.

Lemma reserve_csv (c : CARVMCalculator) :
  calc_assumptions c = reserve_assumptions ->
  cash_surrender_value c reserve_policy 0 (get_av_at_month reserve_policy 0) = 91000.
Proof.
  intros Hc. unfold cash_surrender_value. rewrite Hc.
  change (get_av_at_month reserve_policy 0) with 100000.
  change (sc_get_rate (surrender_charges (base (product reserve_assumptions)))
            (policy_year reserve_policy 0)) with 0.09.
  lra.
Qed.

Lemma reserve_no_revalidation (res mi dpv sc : R) :
  needs_revalidation revalidation_default
    (cached_path_new 1 0 7 res (get_av_at_month reserve_policy 0)
       (get_bb_at_month reserve_policy 0) mi dpv sc)
    0 (get_av_at_month reserve_policy 0) (get_bb_at_month reserve_policy 0) = false.
Proof.
  change (get_av_at_month reserve_policy 0) with 100000.
  change (get_bb_at_month reserve_policy 0) with 100.
  unfold needs_revalidation, cached_path_new. cbn [solve_month itm_at_solve av_at_solve
    cached_optimal_activation_month periodic_revalidation_months itm_change_threshold
    activation_proximity_months av_deviation_threshold revalidation_default].
  change (Nat.leb 12 (0 - 0)) with false. cbv beta iota.
  destruct (Rlt_dec 0 100000) as [_|]; [|lra].
  rewrite !Rminus_diag, !Rabs_R0. unfold Rdiv. rewrite !Rmult_0_l.
  rewrite (Rltb_false_of_le 0.10 0) by lra.
  change (N.leb (7 - N.of_nat 0) 6) with false. cbv beta iota.
  apply Rltb_false_of_le. lra.
Qed.

Lemma full_solve_csv (calc : CARVMCalculator) (p : Policy) (v : nat) (av bb : R) :
  let r := fst (full_solve_and_cache calc p v av bb) in
  csv_at_valuation r = cash_surrender_value calc p v av /\ csv_at_valuation r <= gross_reserve r.
Proof.
  unfold full_solve_and_cache.
  destruct (brute_force_solve calc p v av bb) as [[om res] comps].
  simpl. split; [reflexivity | unfold fmax; apply Rmax_r].
Qed.

Lemma full_solve_csv_counters (f : CacheCounters -> CacheCounters) (calc : CARVMCalculator)
    (p : Policy) (v : nat) (av bb : R) :
  let r := fst (full_solve_and_cache (update_counters f calc) p v av bb) in
  csv_at_valuation r = cash_surrender_value calc p v av /\ csv_at_valuation r <= gross_reserve r.
Proof. exact (full_solve_csv (update_counters f calc) p v av bb). Qed.

(** * The specification's claims *)

(** C1: when [sum_of_rates = q_mort + q_lapse + q_pwd + rider_rate > 0] the
    decrement pool [pre_dec_AV * (1 - (1-q_mort)(1-q_lapse)(1-q_pwd)(1-rider_rate))]
    is split in proportion to the rates: mortality [pool*q_mort/sum], lapse net of
    surrender charge [pool*q_lapse/sum*(fpw + (1-fpw)(1-sc))], surrender charge
    [pool*q_lapse/sum*(1-fpw)*sc], PWD [pool*q_pwd/sum + systematic_WD], rider
    [pool*rider_rate/sum]; when [sum_of_rates = 0] every share is zero except the
    PWD decrement, which is the systematic withdrawal. *)
Theorem calculate_cashflows_allocation (a : Assumptions) (cfg : ProjectionConfig) (p : Policy)
    (s : ProjectionState) (premium : R) (r : Rates) (pe : Persist) :
  let c := calculate_cashflows a cfg p s premium r pe in
  let rr := rider_rate_of s r in
  let qm := final_mortality r in
  let ql := final_lapse_rate r in
  let qp := non_systematic_pwd_rate r in
  let sum_of_rates := qm + ql + qp + rr in
  let pool := pre_decrement_av c * (1 - (1 - qm) * (1 - ql) * (1 - qp) * (1 - rr)) in
  let fpw := fpw_pct r in
  let sc := surrender_charge r in
  (0 < sum_of_rates ->
     mortality_dec c = pool * qm / sum_of_rates
     /\ lapse_dec c = pool * ql / sum_of_rates * (fpw + (1 - fpw) * (1 - sc))
     /\ surrender_charges_dec c = pool * ql / sum_of_rates * (1 - fpw) * sc
     /\ pwd_dec c = pool * qp / sum_of_rates + systematic_withdrawal r
     /\ rider_charges_dec c = pool * rr / sum_of_rates)
  /\ (sum_of_rates = 0 ->
        mortality_dec c = 0 /\ lapse_dec c = 0 /\ surrender_charges_dec c = 0
        /\ rider_charges_dec c = 0 /\ pwd_dec c = systematic_withdrawal r).
Proof.
  cbv zeta. unfold calculate_cashflows, allocate_decrements.
  destruct (if Nat.eqb (projection_month s) 1 then _ else _) as [[[[? ?] ?] ?] ?].
  destruct (calculate_hedge_gains cfg p s r).
  split; intros H.
  - destruct (Rlt_dec 0 _) as [_|Hn]; [|lra]. simpl. repeat split; unfold Rdiv; ring.
  - destruct (Rlt_dec 0 _) as [Hp|_]; [lra|]. simpl. repeat split.
Qed.

Lemma calculate_cashflows_allocation_witness :
  let a := default_pricing (flat_commissions 0.07) in
  let s := from_policy policy_2800 in
  let r := mkRates 0 0 0.001 0.09 0 false 0 0 0 0 0.002 0 0.003 0 0 in
  let c := calculate_cashflows a config_default policy_2800 s 0 r (mkPersist 1 1 1 1) in
  let sum_of_rates := 0.001 + 0.002 + 0 + rider_rate_of s r in
  0 < sum_of_rates
  /\ mortality_dec c
     = pre_decrement_av c * (1 - (1 - 0.001) * (1 - 0.002) * (1 - 0) * (1 - rider_rate_of s r))
       * 0.001 / sum_of_rates.
Proof.
  intros a s r c sum_of_rates.
  assert (Hrr : rider_rate_of s r = 0).
  { unfold rider_rate_of. destruct (Rlt_dec 0 _); [simpl; unfold Rdiv; ring | reflexivity]. }
  assert (H : 0 < sum_of_rates) by (unfold sum_of_rates; rewrite Hrr; lra).
  split; [exact H|].
  exact (proj1 (proj1 (calculate_cashflows_allocation a config_default policy_2800 s 0 r
                         (mkPersist 1 1 1 1)) H)).
Defined.

(** C2: the per-cell [total_net_cashflow] of every month is
    [premium - mortality_dec - lapse_dec - pwd_dec - expenses
     - (agent + IMO override + wholesaler override + bonus) + chargebacks + hedge_gains],
    from the per-cell [_dec] figures; the surrender-charge and rider-charge
    decrements are not subtracted. *)
Theorem total_net_cashflow_formula (a : Assumptions) (cfg : ProjectionConfig) (p : Policy)
    (s : ProjectionState) :
  let row := fst (calculate_month a cfg p s) in
  let c := row_cf row in
  total_net_cashflow c
  = row_premium row - mortality_dec c - lapse_dec c - pwd_dec c - expenses c
    - (agent_commission c + imo_override c + wholesaler_override c + bonus_comp c)
    + chargebacks c + hedge_gains c.
Proof.
  cbv zeta. unfold calculate_month, calculate_cashflows. simpl fst. cbn [row_cf row_premium].
  destruct (allocate_decrements _ _ _ _) as [[[[? ?] ?] ?] ?].
  destruct (if Nat.eqb (projection_month s) 1 then _ else _) as [[[[? ?] ?] ?] ?].
  destruct (calculate_hedge_gains cfg p s _). simpl. ring.
Qed.

(** C3: at the end of every month the new benefit base is the old one times
    [(1-q_mort)(1-q_lapse)(1-q_pwd)], times the rollup factor
    [(1 + bb_bonus + rollup*min(py,10)) / (1 + bb_bonus + rollup*min(py-1,10))]
    exactly when income is off, month-in-policy-year is 12 and
    [policy_year <= sc_period]; [bb_bonus] and [rollup] are the GLWB
    assumptions' and the systematic withdrawal plays no part.  With bonus 0.3,
    rollup 0.10 and policy year 5 the factor is [1.8 / 1.7]. *)
Theorem update_benefit_base_rollup (a : Assumptions) (cfg : ProjectionConfig) (p : Policy)
    (s : ProjectionState) :
  (let '(row, s') := calculate_month a cfg p s in
   let r := row_rates row in
   let g := glwb (product a) in
   bop_benefit_base s' = bop_benefit_base s
       * ((1 - final_mortality r) * (1 - final_lapse_rate r) * (1 - non_systematic_pwd_rate r))
       * (if andb (negb (income_activated s))
                 (andb (Nat.eqb (st_month_in_policy_year s) 12) (Nat.leb (st_policy_year s) (sc_period p)))
          then spec_rollup_factor (bonus_rate g) (rollup_rate g) (st_policy_year s) else 1))
  /\ spec_rollup_factor 0.3 0.1 5 = 1.8 / 1.7.
Proof.
  split.
  - unfold calculate_month. cbn zeta. simpl. apply update_benefit_base_eq.
  - unfold spec_rollup_factor. simpl (5 - 1)%nat. rewrite !Rmin_left by (simpl; lra).
    simpl. lra.
Qed.

Section AvExhaustion.
Variables (a : Assumptions) (cfg : ProjectionConfig) (p : Policy).
Hypothesis Hstd : conversion_method (mortality a) = Standard.
Hypothesis Hpf : forall b, In b (single_life (payout_factors (glwb (product a)))) -> 0 <= snd b.
Hypothesis Hbonus : 0 <= bonus_rate (glwb (product a)).
Hypothesis Hrollup : 0 <= rollup_rate (glwb (product a)).

Lemma get_single_life_nonneg (age : nat) :
  0 <= get_single_life (payout_factors (glwb (product a))) age.
Proof.
  unfold get_single_life. destruct (find_band _ age) eqn:E; [|lra].
  destruct (find_band_in _ _ _ E) as (b & Hb & <-). apply Hpf, Hb.
Qed.

Lemma rates_le_1 (s : ProjectionState) :
  let r := calculate_decrements a cfg p s in
  final_mortality r <= 1 /\ final_lapse_rate r <= 1 /\ non_systematic_pwd_rate r <= 1.
Proof.
  simpl. split; [|split].
  - unfold monthly_rate. destruct (nth_error _ _); [|lra].
    rewrite Hstd. cbv zeta.
    match goal with |- 1 - powf ?x ?y <= 1 => pose proof (powf_nonneg x y) end.
    lra.
  - destruct (Rle_dec _ 0); [lra|]. destruct (fixed_lapse_rate cfg).
    + destruct (Nat.eqb _ 1); [lra|]. pose proof (powf_nonneg (1 - r) (1 / 12)). lra.
    + unfold monthly_lapse_rate_with_skew. destruct (Nat.eqb _ 1); [lra|].
      destruct (Rle_dec _ 0); [lra|]. cbv zeta.
      match goal with |- 1 - powf ?x ?y <= 1 => pose proof (powf_nonneg x y) end. lra.
  - unfold monthly_pwd_rate_adjusted. destruct (Nat.eqb _ 1); [lra|].
    match goal with |- 1 - powf ?x ?y <= 1 => pose proof (powf_nonneg x y) end. lra.
Qed.

Lemma systematic_withdrawal_nonneg (s : ProjectionState) :
  bb_inv s -> 0 <= systematic_withdrawal (calculate_decrements a cfg p s).
Proof.
  intros [Hbb Hl]. simpl. destruct (income_activated s); [|lra].
  assert (0 <= match locked_payout_rate s with
               | Some r => r
               | None => get_single_life (payout_factors (glwb (product a))) (st_attained_age s)
               end).
  { destruct (locked_payout_rate s) eqn:E; [apply (Hl _ eq_refl) | apply get_single_life_nonneg]. }
  unfold Rdiv. apply Rmult_le_pos; [apply Rmult_le_pos; assumption | lra].
Qed.

Lemma calculate_month_inv (s : ProjectionState) :
  bb_inv s -> bb_inv (snd (calculate_month a cfg p s)).
Proof.
  intros [Hbb Hl]. split; [|exact Hl].
  change (bop_benefit_base (snd (calculate_month a cfg p s)))
    with (update_benefit_base a p s (calculate_decrements a cfg p s)).
  rewrite update_benefit_base_eq.
  destruct (rates_le_1 s) as (H1 & H2 & H3).
  apply Rmult_le_pos; [apply Rmult_le_pos; [exact Hbb|]|].
  - apply Rmult_le_pos; [apply Rmult_le_pos|]; lra.
  - destruct (andb _ _); [apply rollup_factor_nonneg; assumption | lra].
Qed.

Lemma project_step_inv (s : ProjectionState) :
  bb_inv s -> bb_inv (snd (project_step a cfg p s)).
Proof.
  intros [Hbb Hl].
  destruct (project_step_spec a cfg p s)
    as (s2 & Hst & _ & _ & _ & _ & _ & _ & Hbb2 & Hlock).
  rewrite Hst. apply calculate_month_inv. split; [rewrite Hbb2; exact Hbb|].
  intros x Hx. destruct Hlock as [E|E]; rewrite E in Hx.
  - apply (Hl _ Hx).
  - injection Hx as <-. apply get_single_life_nonneg.
Qed.

Lemma project_step_zero (s : ProjectionState) :
  bb_inv s -> eop_av s = 0 ->
  row_eop_av (row_cf (fst (project_step a cfg p s))) = 0
  /\ eop_av (snd (project_step a cfg p s)) = 0.
Proof.
  intros [Hbb Hl] Heop.
  destruct (project_step_spec a cfg p s)
    as (s2 & Hst & _ & _ & _ & _ & _ & Hbop & Hbb2 & Hlock).
  rewrite Hst, calculate_month_eop.
  assert (Hinv2 : bb_inv s2).
  { split; [rewrite Hbb2; exact Hbb|].
    intros x Hx. destruct Hlock as [E|E]; rewrite E in Hx.
    - apply (Hl _ Hx).
    - injection Hx as <-. apply get_single_life_nonneg. }
  assert (H : row_eop_av (row_cf (fst (calculate_month a cfg p s2))) = 0).
  { apply calculate_cashflows_zero_bop; [congruence|].
    apply systematic_withdrawal_nonneg, Hinv2. }
  split; exact H.
Qed.

Lemma project_loop_zero (n : nat) (s : ProjectionState) :
  bb_inv s -> eop_av s = 0 ->
  forall row, In row (project_loop a cfg p n s) -> row_eop_av (row_cf row) = 0.
Proof.
  revert s. induction n as [|n IH]; intros s Hi He row Hin; [destruct Hin|].
  cbn [project_loop] in Hin.
  destruct (project_step_zero s Hi He) as [Hr Hs].
  pose proof (project_step_inv s Hi) as Hi'.
  destruct (project_step a cfg p s) as [row0 s'] eqn:E. simpl in Hr, Hs, Hi'.
  destruct Hin as [<- | Hin]; [exact Hr|].
  destruct (Rle_dec (lives s') one_e_minus_10); [destruct Hin|].
  exact (IH s' Hi' Hs row Hin).
Qed.

Lemma project_loop_sticky (n : nat) (s : ProjectionState) :
  bb_inv s ->
  forall i j ri rj,
    nth_error (project_loop a cfg p n s) i = Some ri -> row_eop_av (row_cf ri) = 0 ->
    (i <= j)%nat -> nth_error (project_loop a cfg p n s) j = Some rj ->
    row_eop_av (row_cf rj) = 0.
Proof.
  revert s. induction n as [|n IH]; intros s Hi i j ri rj Hri Hz Hij Hrj.
  { destruct i; discriminate. }
  cbn [project_loop] in Hri, Hrj.
  pose proof (project_step_inv s Hi) as Hi'.
  pose proof (calculate_month_eop a cfg p) as Heq.
  destruct (project_step_spec a cfg p s) as (s2 & Hst & _).
  assert (Hlink : eop_av (snd (project_step a cfg p s))
                  = row_eop_av (row_cf (fst (project_step a cfg p s))))
    by (rewrite Hst; apply Heq).
  destruct (project_step a cfg p s) as [row0 s'] eqn:E. simpl in Hi', Hlink.
  destruct i as [|i'].
  - simpl in Hri. injection Hri as <-.
    destruct j as [|j']; simpl in Hrj; [injection Hrj as <-; exact Hz|].
    destruct (Rle_dec (lives s') one_e_minus_10); [destruct j'; discriminate|].
    apply (project_loop_zero n s' Hi' (eq_trans Hlink Hz)).
    eapply nth_error_In, Hrj.
  - destruct j as [|j']; [lia|]. simpl in Hri, Hrj.
    destruct (Rle_dec (lives s') one_e_minus_10); [destruct i'; discriminate|].
    exact (IH s' Hi' i' j' ri rj Hri Hz ltac:(lia) Hrj).
Qed.

Lemma project_loop_nonneg (n : nat) (s : ProjectionState) :
  forall row, In row (project_loop a cfg p n s) -> 0 <= row_eop_av (row_cf row).
Proof.
  revert s. induction n as [|n IH]; intros s row Hin; [destruct Hin|].
  cbn [project_loop] in Hin.
  destruct (project_step_spec a cfg p s) as (s2 & Hst & _).
  pose proof (calculate_month_eop_nonneg a cfg p s2) as Hn. rewrite <- Hst in Hn.
  destruct (project_step a cfg p s) as [row0 s'] eqn:E. simpl in Hn.
  destruct Hin as [<- | Hin]; [exact Hn|].
  destruct (Rle_dec (lives s') one_e_minus_10); [destruct Hin|].
  exact (IH s' row Hin).
Qed.

(** C4: in every projection each row's [EOP_AV] is non-negative, and AV
    exhaustion is sticky: once a row's [EOP_AV] is 0, every later row of the same
    projection has [EOP_AV] 0 (the decrement pool of a zero AV is zero, and no
    premium enters the AV).  Stickiness uses a non-negative starting benefit base,
    non-negative payout factors, bonus and rollup rates, and the Standard
    mortality conversion, which keep the systematic withdrawal non-negative. *)
Theorem eop_av_nonneg_and_sticky :
  0 <= starting_benefit_base p ->
  let rows := project_policy a cfg p in
  (forall row, In row rows -> 0 <= row_eop_av (row_cf row))
  /\ (forall i j ri rj, nth_error rows i = Some ri -> row_eop_av (row_cf ri) = 0 ->
        (i <= j)%nat -> nth_error rows j = Some rj -> row_eop_av (row_cf rj) = 0).
Proof.
  intros Hbb rows. split.
  - apply project_loop_nonneg.
  - apply project_loop_sticky. split; [exact Hbb|]. simpl. discriminate.
Qed.

End AvExhaustion.

Lemma eop_av_nonneg_and_sticky_witness :
  let rows := project_policy (default_pricing (flat_commissions 0.07)) config_default policy_2800 in
  (forall row, In row rows -> 0 <= row_eop_av (row_cf row))
  /\ (forall i j ri rj, nth_error rows i = Some ri -> row_eop_av (row_cf ri) = 0 ->
        (i <= j)%nat -> nth_error rows j = Some rj -> row_eop_av (row_cf rj) = 0).
Proof.
  apply eop_av_nonneg_and_sticky;
    [reflexivity
    | simpl; unfold band; intros b Hb;
      repeat destruct Hb as [<- | Hb]; try destruct Hb; simpl; lra
    | simpl; lra | simpl; lra
    | unfold starting_benefit_base; simpl; lra].
Defined.

(** C5: on every path (full solve or cached roll-forward) [calculate_reserve]
    reports [csv_at_valuation = AV * (1 - sc_rate)] and
    [gross_reserve >= csv_at_valuation].  The sentinel part fails on the cached
    path: in the reserve example (zero mortality, payout 0% at age 60 and 5% at
    61, an 8-month horizon) the first call at valuation month 0 solves in full,
    finds activation month 7, is bound by the CSV and reports [u32::MAX]; the
    second call hits the cache, is bound by the CSV again
    ([gross = csv], [surrender_value_pv = csv]) and reports month 7. *)
Theorem calculate_reserve_csv_floor_and_cache_path :
  (forall (calc : CARVMCalculator) (p : Policy) (v : nat),
     let r := fst (calculate_reserve calc p v) in
     csv_at_valuation r = cash_surrender_value calc p v (get_av_at_month p v)
     /\ csv_at_valuation r <= gross_reserve r)
  /\ (let '(r1, calc1) := calculate_reserve reserve_calculator reserve_policy 0 in
   let '(r2, _) := calculate_reserve calc1 reserve_policy 0 in
   from_cache r1 = false /\ gross_reserve r1 = csv_at_valuation r1
   /\ optimal_activation_month r1 = u32_MAX
   /\ from_cache r2 = true /\ gross_reserve r2 = csv_at_valuation r2
   /\ surrender_value_pv (reserve_components r2) = csv_at_valuation r2
   /\ optimal_activation_month r2 = 7%N).
Proof.
  split.
  - intros calc p v. unfold calculate_reserve, calculate_with_cache. cbv zeta.
    destruct (use_caching (calc_config calc)); [|apply full_solve_csv].
    destruct (cache_get (cache calc) (policy_id p)) as [cached|]; [|apply full_solve_csv_counters].
    destruct (needs_revalidation _ _ _ _ _); [apply full_solve_csv_counters|].
    destruct (try_roll_forward calc p v cached); [|apply full_solve_csv_counters].
    simpl. split; [reflexivity | unfold fmax; apply Rmax_r].
  - unfold calculate_reserve at 1, calculate_with_cache at 1.
    change (use_caching (calc_config reserve_calculator)) with true.
    change (cache_get (cache reserve_calculator) (policy_id reserve_policy)) with (@None CachedReservePath).
    cbv beta iota zeta.
    unfold full_solve_and_cache at 1.
    change (brute_force_solve (update_counters record_miss reserve_calculator))
      with (brute_force_solve reserve_calculator).
    rewrite reserve_brute_force, reserve_csv by reflexivity.
    cbv beta iota zeta.
    pose proof reserve_income_7_lt_1 as Hlt1. pose proof reserve_income_7_pos as Hpos.
    assert (Hmax : fmax (0 + reserve_income_7) 91000 = 91000)
      by (unfold fmax; apply Rmax_right; lra).
    rewrite Hmax, Rminus_diag, Rabs_R0, (Rltb_true_of_lt 0 0.01) by lra.
    change (use_caching (calc_config reserve_calculator)) with true.
    cbv beta iota zeta.
    unfold calculate_reserve, calculate_with_cache. simpl.
    rewrite reserve_no_revalidation. cbv beta iota zeta.
    unfold roll_accumulation_reserve. cbn [Nat.sub roll_loop].
    rewrite reserve_csv by reflexivity. rewrite Hmax, Rminus_diag, Rabs_R0, (Rltb_true_of_lt 0 0.01) by lra.
    simpl. repeat split; reflexivity.
Qed.

(** C6: for every age inside the table (Standard conversion, projection year
    after the table's base year), [monthly_rate] is
    [1 - (1 - base_rate * age_factor * (1 - imp_rate)^years)^(1/12)] with
    [years = (projection_year - table_base_year - 1) + m/12]; past the table's
    end it is [1/12]; for a male aged 77 the month-1 rate is within [1e-5] of
    0.0014907 and the month-2 rate within [1e-5] of 0.0014888. *)
Theorem monthly_rate_standard_formula :
  (forall t age g m, conversion_method t = Standard ->
     (table_base_year t + 1 <= projection_year t)%nat ->
     (age < length (base_rates t))%nat ->
     monthly_rate t age g m
     = 1 - powf (1 - raw_base_rate t age g * get_age_factor t age
                     * powf (1 - improvement_rate t age g)
                         (INR (projection_year t) - INR (table_base_year t) - 1 + INR m / 12))
              (1 / 12))
  /\ (forall t age g m, (length (base_rates t) <= age)%nat -> monthly_rate t age g m = 1 / 12)
  /\ Rabs (monthly_rate iam_2012_with_improvement 77 Male 1 - 0.0014907) < 1e-5
  /\ Rabs (monthly_rate iam_2012_with_improvement 77 Male 2 - 0.0014888) < 1e-5.
Proof.
  split; [|split; [|split; [exact monthly_rate_77_male_month1 | exact monthly_rate_77_male_month2]]].
  - intros t age g m Hstd Hy Hage. unfold monthly_rate, raw_base_rate.
    destruct (nth_error (base_rates t) age) eqn:E.
    + rewrite Hstd. cbv zeta. unfold u32_sub.
      destruct (Z.leb_spec (Z.of_nat (table_base_year t)) (Z.of_nat (projection_year t))); [|lia].
      destruct (Z.leb_spec 1 (Z.of_nat (projection_year t) - Z.of_nat (table_base_year t))); [|lia].
      rewrite !minus_IZR, <- !INR_IZR_INZ. reflexivity.
    + apply nth_error_None in E. lia.
  - intros t age g m Hage. unfold monthly_rate.
    destruct (nth_error (base_rates t) age) eqn:E; [|reflexivity].
    assert (nth_error (base_rates t) age <> None) by congruence.
    apply nth_error_Some in H. lia.
Qed.

Lemma monthly_rate_standard_formula_witness :
  monthly_rate iam_2012_with_improvement 77 Male 1
  = 1 - powf (1 - raw_base_rate iam_2012_with_improvement 77 Male
                  * get_age_factor iam_2012_with_improvement 77
                  * powf (1 - improvement_rate iam_2012_with_improvement 77 Male)
                      (INR (projection_year iam_2012_with_improvement)
                       - INR (table_base_year iam_2012_with_improvement) - 1 + INR 1 / 12))
           (1 / 12).
Proof.
  apply (proj1 monthly_rate_standard_formula); [reflexivity | vm_compute; lia | vm_compute; lia].
Defined.

(** C7: after projection month 1 and with positive ITM the monthly lapse rate
    is [1 - (1 - annual_prob)^skew]; the skew is [1/12] outside the shock year
    [sc_period + 1], and 0.4, 0.3, 0.2 and [0.1/9] in months 1, 2, 3 and 4 to 12
    of the shock year, so the twelve shock-year skews sum to 1. *)
Theorem monthly_lapse_rate_skew :
  (forall (lm : LapseModel) (pm py mipy : nat) (act : bool) (itm : R) (sc : nat)
          (bucket : BenefitBaseBucket),
     pm <> 1%nat -> 0 < itm ->
     monthly_lapse_rate_with_skew lm pm py mipy act itm sc bucket
     = 1 - powf (1 - annual_lapse_prob_with_bucket lm py act itm bucket sc) (get_skew py mipy sc))
  /\ (forall py mipy sc : nat, py <> (sc + 1)%nat -> get_skew py mipy sc = 1 / 12)
  /\ (forall sc : nat, get_skew (sc + 1) 1 sc = 0.4 /\ get_skew (sc + 1) 2 sc = 0.3
                       /\ get_skew (sc + 1) 3 sc = 0.2
                       /\ forall mipy : nat, (4 <= mipy <= 12)%nat -> get_skew (sc + 1) mipy sc = 0.1 / 9)
  /\ (forall sc : nat, fold_right Rplus 0 (shock_year_skews sc) = 1).
Proof.
  split; [|split; [|split]].
  - intros lm pm py mipy act itm sc bucket Hpm Hitm.
    unfold monthly_lapse_rate_with_skew, get_skew.
    apply Nat.eqb_neq in Hpm. rewrite Hpm.
    destruct (Rle_dec itm 0) as [H|_]; [lra|]. reflexivity.
  - intros py mipy sc H. unfold get_skew. apply Nat.eqb_neq in H. rewrite H. reflexivity.
  - intros sc. unfold get_skew. rewrite Nat.eqb_refl. repeat split.
    intros mipy Hm. destruct mipy as [|[|[|[|m]]]]; try lia; reflexivity.
  - intros sc. unfold shock_year_skews, get_skew. simpl map. rewrite Nat.eqb_refl.
    simpl. lra.
Qed.

Lemma monthly_lapse_rate_skew_witness :
  monthly_lapse_rate_with_skew default_predictive_model 14 2 2 false 1.2 10 Under50k
  = 1 - powf (1 - annual_lapse_prob_with_bucket default_predictive_model 2 false 1.2 Under50k 10)
           (get_skew 2 2 10)
  /\ get_skew 11 5 10 = 0.1 / 9.
Proof.
  split.
  - apply (proj1 monthly_lapse_rate_skew); [discriminate | lra].
  - apply (proj2 (proj2 (proj2 (proj1 (proj2 (proj2 monthly_lapse_rate_skew)) 10%nat))) 5%nat). lia.
Defined.

(** C8: the output row of projection month 1 of every cell has
    [final_lapse_rate = 0] and [premium = initial_premium]; it has
    [fpw_pct = 0] and [non_systematic_pwd_rate = 0] when the cell starts in
    policy year 1 ([duration_months < 12]); it is the projection's first row
    when [projection_months >= 1]; and every month with [BOP AV <= 0] has final
    lapse rate 0. *)
Theorem first_month_row_rates (a : Assumptions) (cfg : ProjectionConfig) (p : Policy) :
  let row := fst (project_step a cfg p (from_policy p)) in
  row_projection_month row = 1%nat
  /\ final_lapse_rate (row_rates row) = 0
  /\ row_premium row = initial_premium p
  /\ ((duration_months p < 12)%nat ->
        fpw_pct (row_rates row) = 0 /\ non_systematic_pwd_rate (row_rates row) = 0)
  /\ ((1 <= projection_months cfg)%nat -> hd_error (project_policy a cfg p) = Some row)
  /\ (forall s, bop_av s <= 0 -> final_lapse_rate (calculate_decrements a cfg p s) = 0).
Proof.
  intros row.
  destruct (project_step_spec a cfg p (from_policy p))
    as (s2 & Hst & Hpm & Hpy & Hmipy & Hage & Hia & Hbop & Hbb & Hlock).
  simpl projection_month in *.
  assert (Hrow : row = fst (calculate_month a cfg p s2)) by (unfold row; rewrite Hst; reflexivity).
  split; [|split; [|split; [|split; [|split]]]].
  - rewrite Hrow. simpl. exact Hpm.
  - rewrite Hrow. simpl. unfold calculate_decrements. cbn [final_lapse_rate].
    rewrite Hpm. destruct (Rle_dec _ 0); [reflexivity|].
    destruct (fixed_lapse_rate cfg); reflexivity.
  - rewrite Hrow. simpl. rewrite Hpm. reflexivity.
  - intros Hd. rewrite Hrow. simpl. unfold calculate_decrements. cbn [fpw_pct non_systematic_pwd_rate].
    rewrite Hpy, (policy_year_month1 p Hd). split; reflexivity.
  - intros Hn. unfold project_policy. destruct (projection_months cfg) as [|n]; [lia|].
    cbn [project_loop]. unfold row. destruct (project_step a cfg p (from_policy p)). reflexivity.
  - apply lapse_zero_bop.
Qed.

Lemma first_month_row_rates_witness :
  let a := default_pricing (flat_commissions 0.07) in
  let row := fst (project_step a config_default policy_2800 (from_policy policy_2800)) in
  (fpw_pct (row_rates row) = 0 /\ non_systematic_pwd_rate (row_rates row) = 0)
  /\ hd_error (project_policy a config_default policy_2800) = Some row.
Proof.
  intros a row.
  destruct (first_month_row_rates a config_default policy_2800) as (_ & _ & _ & H4 & H5 & _).
  split; [apply H4 | apply H5]; cbn; lia.
Defined.

(** A cell pre-seasoned by one policy year ([duration_months = 12],
    non-qualified): its month-1 row, the first row of its projection, has
    [fpw_pct = 0.05] and a positive non-systematic PWD rate. *)
Lemma first_month_row_seasoned_cex :
  let a := default_pricing (flat_commissions 0.07) in
  let row := fst (project_step a config_default policy_2800_seasoned (from_policy policy_2800_seasoned)) in
  hd_error (project_policy a config_default policy_2800_seasoned) = Some row
  /\ row_projection_month row = 1%nat
  /\ fpw_pct (row_rates row) = 0.05
  /\ 0 < non_systematic_pwd_rate (row_rates row).
Proof.
  intros a row.
  destruct (project_step_spec a config_default policy_2800_seasoned (from_policy policy_2800_seasoned))
    as (s2 & Hst & Hpm & Hpy & Hmipy & Hage & Hia & Hbop & Hbb & Hlock).
  simpl projection_month in *.
  assert (Hrow : row = fst (calculate_month a config_default policy_2800_seasoned s2))
    by (unfold row; rewrite Hst; reflexivity).
  split; [|split; [|split]].
  - unfold project_policy. simpl projection_months. cbn [project_loop]. unfold row.
    destruct (project_step _ _ _ _). reflexivity.
  - rewrite Hrow. simpl. exact Hpm.
  - rewrite Hrow. simpl. unfold calculate_decrements. cbn [fpw_pct].
    rewrite Hpy. reflexivity.
  - rewrite Hrow. simpl. unfold calculate_decrements. cbn [non_systematic_pwd_rate].
    rewrite Hpy, Hia, Hage. vm_compute (policy_year _ _). 
    unfold monthly_pwd_rate_adjusted. simpl.
    replace (get_fpw_pct pwd_default 2 _ Qual_N 0.05) with 0.05 by reflexivity.
    replace (util_get_rate free_utilization_default 2) with 0.2 by reflexivity.
    unfold powf. destruct (Rlt_dec 0 _) as [Hpos|Hn]; [|lra].
    assert (Hlt : Rpower (1 - 0.05 * 0.2) (1 / 12) < 1).
    { unfold Rpower. apply Rlt_le_trans with (exp 0); [apply exp_increasing | rewrite exp_0; lra].
      assert (ln (1 - 0.05 * 0.2) < 0) by (rewrite <- ln_1; apply ln_increasing; lra).
      nra. }
    lra.
Qed.

(** C9: [calculate_irr] returns [None] on the empty vector and [Some 0] on a
    non-empty vector whose entries are all within 1e-10 of zero; a vector that
    is not all near zero and has no entry above 1e-10 or none below -1e-10 gets
    [None]; for [ppy < 2^31] any other result [r] is [(1 + r_periodic)^ppy - 1]
    for a per-period rate in [-0.99, 10] (ppy = 12 for monthly cashflows). *)
Theorem calculate_irr_cases :
  (forall ppy : nat, calculate_irr [] ppy = None)
  /\ (forall (cfs : list R) (ppy : nat), cfs <> [] ->
        Forall (fun cf => Rabs cf < one_e_minus_10) cfs -> calculate_irr cfs ppy = Some 0)
  /\ (forall (cfs : list R) (ppy : nat),
        ~ Forall (fun cf => Rabs cf < one_e_minus_10) cfs ->
        (~ Exists (fun cf => one_e_minus_10 < cf) cfs \/ ~ Exists (fun cf => cf < - one_e_minus_10) cfs) ->
        calculate_irr cfs ppy = None)
  /\ (forall (cfs : list R) (ppy : nat) (r : R), (Z.of_nat ppy <= i32_MAX)%Z ->
        calculate_irr cfs ppy = Some r ->
        (Forall (fun cf => Rabs cf < one_e_minus_10) cfs /\ r = 0)
        \/ exists rm, -0.99 <= rm <= 10 /\ r = (1 + rm) ^ ppy - 1).
Proof.
  split; [|split; [|split]].
  - reflexivity.
  - intros cfs ppy Hne Hall. destruct cfs as [|c0 tl]; [contradiction|].
    unfold calculate_irr. apply (forallb_Rltb Rabs) in Hall. rewrite Hall. reflexivity.
  - intros cfs ppy Hn Hs. destruct cfs as [|c0 tl]; [reflexivity|].
    unfold calculate_irr.
    destruct (forallb _ _) eqn:Ea.
    { exfalso. apply Hn. apply (forallb_Rltb Rabs). exact Ea. }
    destruct (existsb (fun cf => Rltb one_e_minus_10 cf) (c0 :: tl)) eqn:Ep;
    destruct (existsb (fun cf => Rltb cf (- one_e_minus_10)) (c0 :: tl)) eqn:Eq;
      try reflexivity.
    exfalso. destruct Hs as [Hs|Hs]; apply Hs.
    + apply (existsb_Rltb (fun x y => one_e_minus_10 < y)) in Ep; [exact Ep|].
      intros x; apply Rltb_true.
    + apply (existsb_Rltb (fun x y => y < - one_e_minus_10)) in Eq; [exact Eq|].
      intros x; apply Rltb_true.
  - intros cfs ppy r Hppy H. destruct cfs as [|c0 tl]; [discriminate|].
    unfold calculate_irr in H.
    destruct (forallb _ _) eqn:Ea.
    { left. injection H as <-. split; [apply (forallb_Rltb Rabs); exact Ea | reflexivity]. }
    destruct (orb _ _); [discriminate|].
    right. assert (Hr : annualised r ppy)
      by (destruct (Nat.eqb ppy 0); [exact (bisection_range _ _ _ H) | exact (newton_range _ _ _ _ _ H)]).
    destruct Hr as (rm & Hrm & ->). exists rm. split; [exact Hrm|].
    rewrite powi_as_i32 by exact Hppy. reflexivity.
Qed.

Lemma calculate_irr_cases_witness :
  calculate_irr [0] 12 = Some 0 /\ calculate_irr [1; 2] 12 = None.
Proof.
  pose proof one_e_minus_10_pos as He. pose proof one_e_minus_10_lt_1 as He1.
  split.
  - apply (proj1 (proj2 calculate_irr_cases)); [discriminate|].
    constructor; [rewrite Rabs_R0; exact He | constructor].
  - apply (proj1 (proj2 (proj2 calculate_irr_cases))).
    + intros H. inversion H as [|x l Hx _]. rewrite Rabs_R1 in Hx. lra.
    + right. intros H. apply Exists_exists in H as (x & Hin & Hx).
      simpl in Hin. destruct Hin as [<- | [<- | []]]; lra.
Defined.

(** The empty vector has no entry off zero but gets [None]; a vector whose
    single entry 1e-11 is positive (one sign) gets [Some 0]. *)
Lemma calculate_irr_near_zero_cex :
  calculate_irr [] 12 = None
  /\ calculate_irr [1 / IZR (Z.pow_pos 10 11)] 12 = Some 0.
Proof.
  split; [reflexivity|].
  unfold calculate_irr. simpl forallb.
  assert (H : Rltb (Rabs (1 / IZR (Z.pow_pos 10 11))) one_e_minus_10 = true).
  { apply Rltb_true. rewrite Rabs_pos_eq.
    - unfold one_e_minus_10. apply Rmult_lt_compat_l; [lra|].
      apply Rinv_lt_contravar.
      + apply Rmult_lt_0_compat; apply IZR_lt; reflexivity.
      + apply IZR_lt. reflexivity.
    - unfold Rdiv. rewrite Rmult_1_l. left. apply Rinv_0_lt_compat, IZR_lt. reflexivity. }
  rewrite H. reflexivity.
Qed.

(** C10: every age in no payout band gets the hard-coded 0.090: in particular
    every age below 50 (or above 120) under the default bands, and every age that
    is not a key of the loaded single-year bands. *)
Theorem get_single_life_outside_bands :
  (forall (pf : PayoutFactors) (age : nat),
     (forall lo hi f, In ((lo, hi), f) (single_life pf) -> ~ (lo <= age <= hi)%nat) ->
     get_single_life pf age = 0.090)
  /\ (forall age : nat, (age < 50)%nat -> get_single_life payout_default age = 0.090)
  /\ (forall age : nat, (120 < age)%nat -> get_single_life payout_default age = 0.090)
  /\ (forall (factors : list (nat * R)) (age : nat),
        ~ In age (map fst factors) -> get_single_life (payout_from_loaded factors) age = 0.090).
Proof.
  pose proof get_single_life_outside as Hgen.
  split; [exact Hgen|split; [|split]].
  - intros age Hage. apply Hgen. intros lo hi f Hin. simpl in Hin.
    repeat destruct Hin as [Hin|Hin]; try contradiction; injection Hin as <- <- <-; lia.
  - intros age Hage. apply Hgen. intros lo hi f Hin. simpl in Hin.
    repeat destruct Hin as [Hin|Hin]; try contradiction; injection Hin as <- <- <-; lia.
  - intros factors age Hn. apply Hgen. intros lo hi f Hin. simpl in Hin.
    apply in_map_iff in Hin as [[a r] [Heq Hin]]. simpl in Heq. injection Heq as <- <- <-.
    intros Hr. apply Hn. apply in_map_iff. exists (a, r). split; [simpl; lia | exact Hin].
Qed.

Lemma get_single_life_outside_bands_witness :
  get_single_life payout_default 45 = 0.090
  /\ get_single_life (payout_from_loaded [(60%nat, 0.046); (62%nat, 0.05)]) 61 = 0.090.
Proof.
  split.
  - apply (proj1 (proj2 get_single_life_outside_bands)). lia.
  - apply (proj2 (proj2 (proj2 get_single_life_outside_bands))).
    simpl. intros [H | [H | []]]; discriminate.
Defined.

(** * Further properties of the code *)


Lemma find_band_some (l : list ((nat * nat) * R)) (age : nat) (f : R) :
  find_band l age = Some f -> exists lo hi, In ((lo, hi), f) l /\ (lo <= age <= hi)%nat.
Proof.
  induction l as [|[[lo hi] g] tl IH]; simpl; [discriminate|].
  destruct (Nat.leb lo age) eqn:E1; destruct (Nat.leb age hi) eqn:E2; simpl; intros H.
  - injection H as <-. apply Nat.leb_le in E1, E2. exists lo, hi. auto.
  - destruct (IH H) as (lo' & hi' & Hin & Hr). exists lo', hi'. auto.
  - destruct (IH H) as (lo' & hi' & Hin & Hr). exists lo', hi'. auto.
  - destruct (IH H) as (lo' & hi' & Hin & Hr). exists lo', hi'. auto.
Qed.

Lemma find_band_none_inv (l : list ((nat * nat) * R)) (age : nat) :
  find_band l age = None -> forall lo hi f, In ((lo, hi), f) l -> ~ (lo <= age <= hi)%nat.
Proof.
  induction l as [|[[lo hi] g] tl IH]; simpl; [tauto|].
  destruct (Nat.leb lo age) eqn:E1; destruct (Nat.leb age hi) eqn:E2; simpl; intros H;
    try discriminate; intros lo' hi' f' [Heq | Hin];
    try (injection Heq as <- <- <-; apply Nat.leb_nle in E1 || apply Nat.leb_nle in E2; lia);
    exact (IH H _ _ _ Hin).
Qed.

(** X1: For any iteration order of the payout band map, get_single_life returns the same factor at every age, provided overlapping bands carry equal factors (as the default bands do). *)
Theorem get_single_life_order_independent (l l' : list ((nat * nat) * R)) (age : nat)
  (Hagree : bands_agree l) (Hsame : forall b, In b l <-> In b l') :
  get_single_life (mkPayoutFactors l) age = get_single_life (mkPayoutFactors l') age.
Proof.
  unfold get_single_life; simpl.
  destruct (find_band l age) as [f|] eqn:E; destruct (find_band l' age) as [f'|] eqn:E'.
  - destruct (find_band_some _ _ _ E) as (lo & hi & Hin & Hr).
    destruct (find_band_some _ _ _ E') as (lo' & hi' & Hin' & Hr').
    exact (Hagree _ _ _ _ _ _ age Hin (proj2 (Hsame _) Hin') Hr Hr').
  - destruct (find_band_some _ _ _ E) as (lo & hi & Hin & Hr).
    exfalso. exact (find_band_none_inv _ _ E' _ _ _ (proj1 (Hsame _) Hin) Hr).
  - destruct (find_band_some _ _ _ E') as (lo & hi & Hin & Hr).
    exfalso. exact (find_band_none_inv _ _ E _ _ _ (proj2 (Hsame _) Hin) Hr).
  - reflexivity.
Qed.

Lemma payout_default_bands_agree : bands_agree (single_life payout_default).
Proof.
  intros lo1 hi1 f1 lo2 hi2 f2 age H1 H2 A1 A2.
  simpl in H1, H2; unfold band in H1, H2.
  repeat destruct H1 as [H1 | H1]; try contradiction; injection H1 as <- <- <-;
  repeat destruct H2 as [H2 | H2]; try contradiction; injection H2 as <- <- <-;
  first [reflexivity | lia].
Qed.

Lemma get_single_life_order_independent_witness :
  get_single_life payout_default 77 = get_single_life (mkPayoutFactors (rev (single_life payout_default))) 77.
Proof.
  apply (get_single_life_order_independent (single_life payout_default)).
  - exact payout_default_bands_agree.
  - intros b. rewrite <- in_rev. tauto.
Defined.

Lemma nodup_fst_unique (l : list (nat * R)) (k : nat) (v v' : R) :
  NoDup (map fst l) -> In (k, v) l -> In (k, v') l -> v = v'.
Proof.
  induction l as [|[k0 v0] tl IH]; simpl; [tauto|].
  intros Hnd H1 H2. inversion Hnd as [|? ? Hnotin Hnd']; subst.
  destruct H1 as [H1 | H1]; destruct H2 as [H2 | H2].
  - inversion H1; inversion H2; subst. reflexivity.
  - inversion H1; subst. exfalso. apply Hnotin. apply (in_map fst) in H2. exact H2.
  - inversion H2; subst. exfalso. apply Hnotin. apply (in_map fst) in H1. exact H1.
  - exact (IH Hnd' H1 H2).
Qed.

(** X2: A payout table built by from_loaded returns, for each loaded age, exactly the factor loaded for it, when the loaded ages are distinct. *)
Theorem payout_from_loaded_lookup (factors : list (nat * R)) (age : nat) (f : R)
  (Hkeys : NoDup (map fst factors)) (Hin : In (age, f) factors) :
  get_single_life (payout_from_loaded factors) age = f.
Proof.
  unfold get_single_life, payout_from_loaded; simpl.
  destruct (find_band _ age) as [f'|] eqn:E.
  - destruct (find_band_some _ _ _ E) as (lo & hi & Hb & Hr).
    apply in_map_iff in Hb as ([k v] & Heq & Hkv). simpl in Heq.
    injection Heq as <- <- <-. assert (k = age) by lia. subst k.
    exact (nodup_fst_unique _ _ _ _ Hkeys Hkv Hin).
  - exfalso. apply (find_band_none_inv _ _ E age age f); [|lia].
    apply in_map_iff. exists (age, f). auto.
Qed.

Lemma payout_from_loaded_lookup_witness :
  get_single_life (payout_from_loaded [(60%nat, 0.046); (61%nat, 0.05)]) 61 = 0.05.
Proof.
  apply payout_from_loaded_lookup.
  - simpl. constructor; [simpl; intros [H | []]; discriminate | constructor; [simpl; tauto | constructor]].
  - simpl. auto.
Defined.

Ltac split_minmax :=
  unfold fmin, fmax, Rmin, Rmax;
  repeat match goal with
  | |- context [Rle_dec ?a ?b] =>
      lazymatch a with context [Rle_dec] => fail | _ =>
      lazymatch b with context [Rle_dec] => fail | _ => destruct (Rle_dec a b) end end
  end.

(** X3: For a schedule whose charges are all positive, in_sc_period treats policy year 0 like year 1, and a year y >= 1 is in the surrender-charge period exactly when y <= sc_period_years. *)
Theorem in_sc_period_positive_schedule (s : SurrenderChargeSchedule)
  (Hpos : forall c, In c (charges s) -> 0 < c) :
  in_sc_period s 0 = in_sc_period s 1 /\
  forall y, (1 <= y)%nat -> in_sc_period s y = Nat.leb y (sc_period_years s).
Proof.
  split; [reflexivity|].
  intros [|y] Hy; [lia|]. unfold in_sc_period, sc_get_rate, sc_period_years, get_or. simpl Nat.pred.
  destruct (nth_error (charges s) y) as [c|] eqn:E.
  - pose proof (Hpos _ (nth_error_In _ _ E)) as Hc.
    destruct (Rlt_dec 0 c); [|lra]. symmetry. apply Nat.leb_le.
    assert (nth_error (charges s) y <> None) as Hn by congruence.
    apply nth_error_Some in Hn. lia.
  - destruct (Rlt_dec 0 0); [lra|]. symmetry. apply Nat.leb_gt. apply nth_error_None in E. lia.
Qed.

Lemma in_sc_period_positive_schedule_witness :
  in_sc_period default_10_year 10 = true /\ in_sc_period default_10_year 11 = false.
Proof.
  assert (Hpos : forall c, In c (charges default_10_year) -> 0 < c).
  { simpl. intros c H. repeat destruct H as [<- | H]; try lra; contradiction. }
  split; rewrite (proj2 (in_sc_period_positive_schedule default_10_year Hpos)); (reflexivity || lia).
Defined.

Lemma Rpower_ge_1 (x y : R) : 1 <= x -> 0 <= y -> 1 <= Rpower x y.
Proof.
  intros Hx Hy. apply Rle_trans with (Rpower x 0); [rewrite Rpower_O; lra | apply Rle_Rpower; lra].
Qed.

(** X4: monthly_rollup_factor is 1 once income is activated or past the rollup years; otherwise, for a non-negative rollup rate, it is at least 1, and in compound mode twelve monthly factors give 1 + rollup_rate. *)
Theorem monthly_rollup_factor_growth (g : GlwbFeatures) (rollup_years : nat) (simple_rollup : bool)
    (policy_year : nat) (income_activated : bool) :
  ((income_activated = true \/ (rollup_years < policy_year)%nat) ->
     monthly_rollup_factor g rollup_years simple_rollup policy_year income_activated = 1) /\
  (income_activated = false -> (policy_year <= rollup_years)%nat -> 0 <= rollup_rate g ->
     1 <= monthly_rollup_factor g rollup_years simple_rollup policy_year income_activated /\
     (simple_rollup = false ->
        monthly_rollup_factor g rollup_years simple_rollup policy_year income_activated ^ 12
        = 1 + rollup_rate g)).
Proof.
  unfold monthly_rollup_factor. split.
  - intros [-> | H]; [reflexivity|]. apply Nat.ltb_lt in H. rewrite H, Bool.orb_true_r. reflexivity.
  - intros -> Hle Hr.
    assert (E : Nat.ltb rollup_years policy_year = false) by (apply Nat.ltb_ge; exact Hle).
    rewrite E; cbn [orb]. split.
    + destruct simple_rollup; [lra|]. rewrite powf_pos by lra. apply Rpower_ge_1; lra.
    + intros ->. cbv beta iota. rewrite powf_pos by lra. rewrite Rpower_pow12 by lra.
      replace (1 / 12 * 12) with 1 by field. apply Rpower_1; lra.
Qed.

Lemma monthly_rollup_factor_growth_witness :
  monthly_rollup_factor glwb_default 10 false 11 false = 1 /\
  monthly_rollup_factor glwb_default 10 false 3 false ^ 12 = 1 + 0.10.
Proof.
  split.
  - apply (proj1 (monthly_rollup_factor_growth glwb_default 10 false 11 false)). right. lia.
  - apply (proj2 (proj2 (monthly_rollup_factor_growth glwb_default 10 false 3 false)
             eq_refl ltac:(lia) ltac:(simpl; lra))).
    reflexivity.
Defined.

(** X5: monthly_pwd_rate_adjusted equals monthly_pwd_rate for every input (its policy-year-1 guard never changes the result), and when the annual rate is below 1, twelve months at the monthly rate compound to the annual rate. *)
Theorem monthly_pwd_rate_adjusted_unguarded (pw : PwdAssumptions) (py mipy age : nat)
    (qual : QualStatus) (ia : bool) (free_pct : R) :
  monthly_pwd_rate_adjusted pw py mipy age qual ia free_pct = monthly_pwd_rate pw py age qual ia free_pct /\
  (annual_pwd_rate pw py age qual ia free_pct < 1 ->
     (1 - monthly_pwd_rate pw py age qual ia free_pct) ^ 12 = 1 - annual_pwd_rate pw py age qual ia free_pct).
Proof.
  split.
  - unfold monthly_pwd_rate_adjusted, monthly_pwd_rate.
    destruct (Nat.eqb py 1) eqn:E; [|reflexivity].
    assert (annual_pwd_rate pw py age qual ia free_pct = 0) as ->.
    { unfold annual_pwd_rate, get_fpw_pct. rewrite E. destruct ia; ring. }
    rewrite Rminus_0_r, powf_1. ring.
  - intros H. unfold monthly_pwd_rate; cbv zeta.
    set (a := annual_pwd_rate pw py age qual ia free_pct) in *.
    replace (1 - (1 - powf (1 - a) (1 / 12))) with (powf (1 - a) (1 / 12)) by ring.
    rewrite powf_pos by lra. rewrite Rpower_pow12 by lra.
    replace (1 / 12 * 12) with 1 by field. apply Rpower_1. lra.
Qed.

Lemma monthly_pwd_rate_adjusted_unguarded_witness :
  monthly_pwd_rate_adjusted pwd_default 4 1 60 Qual_N false 0.05
    = monthly_pwd_rate pwd_default 4 60 Qual_N false 0.05 /\
  (1 - monthly_pwd_rate pwd_default 4 60 Qual_N false 0.05) ^ 12 = 1 - 0.05 * 0.4.
Proof.
  split.
  - apply (proj1 (monthly_pwd_rate_adjusted_unguarded pwd_default 4 1 60 Qual_N false 0.05)).
  - replace (0.05 * 0.4) with (annual_pwd_rate pwd_default 4 60 Qual_N false 0.05) by reflexivity.
    apply (proj2 (monthly_pwd_rate_adjusted_unguarded pwd_default 4 1 60 Qual_N false 0.05)).
    replace (annual_pwd_rate pwd_default 4 60 Qual_N false 0.05) with (0.05 * 0.4) by reflexivity.
    lra.
Defined.


Lemma powf_le_1 (x y : R) : 0 <= x <= 1 -> 0 <= y -> powf x y <= 1.
Proof.
  intros Hx Hy. unfold powf. destruct (Rlt_dec 0 x) as [Hx0|Hx0].
  - unfold Rpower. assert (ln x <= 0).
    { rewrite <- ln_1. destruct (Req_dec x 1) as [->|]; [lra|]. left; apply ln_increasing; lra. }
    apply Rle_trans with (exp 0); [|rewrite exp_0; lra].
    destruct (Req_dec (y * ln x) 0) as [E|E]; [rewrite E; lra|].
    left. apply exp_increasing. nra.
  - destruct (Rlt_dec 0 y); lra.
Qed.

Lemma annual_lapse_prob_range (lm : LapseModel) (py : nat) (ia : bool) (itm : R)
    (b : BenefitBaseBucket) (scp : nat) :
  0 < annual_lapse_prob_with_bucket lm py ia itm b scp <= 1.
Proof.
  unfold annual_lapse_prob_with_bucket; cbv zeta.
  set (e := exp _). assert (0 < e) by apply exp_pos.
  unfold fmin, Rmin. destruct (Rle_dec e 1); lra.
Qed.

(** X6: monthly_lapse_rate_with_skew always lies in [0, 1], and annual_lapse_prob_with_bucket lies in (0, 1]. *)
Theorem monthly_lapse_rate_with_skew_range (lm : LapseModel) (pm py mipy : nat) (ia : bool)
    (itm : R) (scp : nat) (b : BenefitBaseBucket) :
  0 <= monthly_lapse_rate_with_skew lm pm py mipy ia itm scp b <= 1
  /\ 0 < annual_lapse_prob_with_bucket lm py ia itm b scp <= 1.
Proof.
  pose proof (annual_lapse_prob_range lm py ia itm b scp) as Hp. split; [|exact Hp].
  unfold monthly_lapse_rate_with_skew.
  destruct (Nat.eqb pm 1); [lra|]. destruct (Rle_dec itm 0); [lra|]. cbv zeta.
  match goal with |- context [powf (1 - ?p) ?s] =>
    assert (Hs : 0 <= s) by
      (destruct (Nat.eqb py (scp + 1)); [destruct mipy as [|[|[|[|]]]]|]; lra);
    pose proof (powf_nonneg (1 - p) s); pose proof (powf_le_1 (1 - p) s ltac:(lra) Hs)
  end.
  lra.
Qed.

Lemma lapse_rate_skew_factor (lm : LapseModel) (pm py mipy : nat) (ia : bool) (itm : R)
    (scp : nat) (b : BenefitBaseBucket) :
  pm <> 1%nat -> 0 < itm ->
  1 - monthly_lapse_rate_with_skew lm pm py mipy ia itm scp b
  = powf (1 - annual_lapse_prob_with_bucket lm py ia itm b scp) (get_skew py mipy scp).
Proof.
  intros Hpm Hitm. unfold monthly_lapse_rate_with_skew, get_skew.
  apply Nat.eqb_neq in Hpm. rewrite Hpm. destruct (Rle_dec itm 0); [lra|]. cbv zeta. ring.
Qed.

(** X7: Outside projection month 1 and with positive ITM, the twelve monthly lapse rates of one policy year (shock-year skew or uniform) compound to exactly the annual lapse probability. *)
Theorem lapse_policy_year_compounds (lm : LapseModel) (pms : nat -> nat) (py : nat) (ia : bool)
    (itm : R) (scp : nat) (b : BenefitBaseBucket)
    (Hpm : forall m, pms m <> 1%nat) (Hitm : 0 < itm) :
  fold_right Rmult 1
    (map (fun m => 1 - monthly_lapse_rate_with_skew lm (pms m) py m ia itm scp b) (seq 1 12))
  = 1 - annual_lapse_prob_with_bucket lm py ia itm b scp.
Proof.
  cbn [map seq fold_right].
  repeat rewrite lapse_rate_skew_factor by auto.
  pose proof (annual_lapse_prob_range lm py ia itm b scp) as Hp.
  assert (Hx : 0 <= 1 - annual_lapse_prob_with_bucket lm py ia itm b scp) by lra.
  set (x := 1 - annual_lapse_prob_with_bucket lm py ia itm b scp) in *. clearbody x.
  unfold get_skew. destruct (Nat.eqb py (scp + 1)); cbv beta iota; rewrite Rmult_1_r;
    unfold powf; destruct (Rlt_dec 0 x).
  - repeat rewrite <- Rpower_plus.
    match goal with |- Rpower x ?e = x => replace e with 1 by lra end. apply Rpower_1; lra.
  - repeat match goal with |- context [Rlt_dec 0 ?s] => destruct (Rlt_dec 0 s); [|lra] end.
    replace x with 0 by lra. ring.
  - repeat rewrite <- Rpower_plus.
    match goal with |- Rpower x ?e = x => replace e with 1 by lra end. apply Rpower_1; lra.
  - repeat match goal with |- context [Rlt_dec 0 ?s] => destruct (Rlt_dec 0 s); [|lra] end.
    replace x with 0 by lra. ring.
Qed.

Lemma lapse_policy_year_compounds_witness :
  fold_right Rmult 1
    (map (fun m => 1 - monthly_lapse_rate_with_skew default_predictive_model (m + 120) 11 m false 1.2 10 Under50k)
       (seq 1 12))
  = 1 - annual_lapse_prob_with_bucket default_predictive_model 11 false 1.2 Under50k 10.
Proof.
  apply (lapse_policy_year_compounds default_predictive_model (fun m => (m + 120)%nat)).
  - intros m. lia.
  - lra.
Defined.

(** X8: annual_lapse_prob_with_bucket depends on ITM only through its clamp to [0.5, 2], and the dynamic lapse component is 0 at ITM 1. *)
Theorem annual_lapse_prob_itm_clamped (lm : LapseModel) (py : nat) (ia : bool) (itm : R)
    (b : BenefitBaseBucket) (scp : nat) :
  annual_lapse_prob_with_bucket lm py ia itm b scp
  = annual_lapse_prob_with_bucket lm py ia (fmin (fmax itm 0.5) 2) b scp
  /\ dynamic_component lm 1 ia = 0.
Proof.
  split.
  - unfold annual_lapse_prob_with_bucket, dynamic_component. cbv zeta.
    assert (E1 : fmin (fmax (fmin (fmax itm 0.5) 2) 0.5) 1 = fmin (fmax itm 0.5) 1)
      by (split_minmax; lra).
    assert (E2 : fmin (fmax (fmin (fmax itm 0.5) 2) 1) 2 = fmin (fmax itm 1) 2)
      by (split_minmax; lra).
    rewrite E1, E2. reflexivity.
  - unfold dynamic_component; cbv zeta.
    replace (fmin (fmax 1 0.5) 1) with 1 by (split_minmax; lra).
    replace (fmin (fmax 1 1) 2) with 1 by (split_minmax; lra).
    ring.
Qed.

Lemma list_set_length {A} (l : list A) (i : nat) (x : A) : length (list_set l i x) = length l.
Proof. revert i; induction l as [|y tl IH]; intros [|i]; simpl; auto. Qed.

Lemma nth_error_list_set {A} (l : list A) (i j : nat) (x : A) :
  nth_error (list_set l i x) j
  = if Nat.eqb i j then (if Nat.ltb i (length l) then Some x else None) else nth_error l j.
Proof.
  revert i j; induction l as [|y tl IH]; intros i j.
  - simpl. destruct (Nat.eqb i j); destruct j; reflexivity.
  - destruct i, j; simpl; try reflexivity. apply IH.
Qed.

(** X9: After set_age_factor, get_age_factor returns the new factor at that age and the old one elsewhere; an out-of-range age leaves the table unchanged, and base rates, improvement rates and conversion method are never touched. *)
Theorem set_age_factor_get (t : MortalityTable) (age : nat) (factor : R) :
  (forall a, get_age_factor (set_age_factor t age factor) a
             = if andb (Nat.eqb a age) (Nat.ltb age (length (age_factors t)))
               then factor else get_age_factor t a)
  /\ ((length (age_factors t) <= age)%nat -> set_age_factor t age factor = t)
  /\ base_rates (set_age_factor t age factor) = base_rates t
  /\ improvement_rates (set_age_factor t age factor) = improvement_rates t
  /\ conversion_method (set_age_factor t age factor) = conversion_method t.
Proof.
  unfold set_age_factor. destruct (Nat.ltb age (length (age_factors t))) eqn:E.
  - repeat split; try reflexivity.
    + intros a. unfold get_age_factor, get_or, with_age_factors; simpl.
      rewrite nth_error_list_set, E, Nat.eqb_sym.
      destruct (Nat.eqb a age); reflexivity.
    + intros H. apply Nat.ltb_lt in E. lia.
  - repeat split; try reflexivity.
    intros a. rewrite Bool.andb_false_r. reflexivity.
Qed.

Lemma set_age_factor_get_witness :
  (length (age_factors iam_2012_with_improvement) <= 130)%nat
  /\ set_age_factor iam_2012_with_improvement 130 0.5 = iam_2012_with_improvement.
Proof.
  assert (H : (length (age_factors iam_2012_with_improvement) <= 130)%nat).
  { cbn [age_factors iam_2012_with_improvement]. unfold default_age_factors.
    rewrite length_map, length_seq. lia. }
  split; [exact H|]. apply (set_age_factor_get iam_2012_with_improvement 130 0.5). exact H.
Defined.

Lemma nth_error_map_mult (l : list R) (m : R) (a : nat) :
  nth_error (map (fun factor => factor * m) l) a
  = match nth_error l a with Some f => Some (f * m) | None => None end.
Proof. rewrite nth_error_map. destruct (nth_error l a); reflexivity. Qed.

(** X10: scale_age_factors multiplies get_age_factor by the multiplier within the factor list (ages beyond it keep the fallback 1); within range this scales baseline_annual_rate and the SimpleDivision monthly rate by the multiplier, and the ExcelMethod monthly rate by its square. *)
Theorem scale_age_factors_effect (t : MortalityTable) (m : R) (a : nat) (g : Gender) (pm : nat) :
  (get_age_factor (scale_age_factors t m) a
   = if Nat.ltb a (length (age_factors t)) then get_age_factor t a * m else 1)
  /\ ((a < length (age_factors t))%nat -> (a < length (base_rates t))%nat ->
      baseline_annual_rate (scale_age_factors t m) a g = baseline_annual_rate t a g * m
      /\ (conversion_method t = SimpleDivision ->
          monthly_rate (scale_age_factors t m) a g pm = monthly_rate t a g pm * m)
      /\ (conversion_method t = ExcelMethod ->
          monthly_rate (scale_age_factors t m) a g pm = monthly_rate t a g pm * (m * m))).
Proof.
  assert (Hg : get_age_factor (scale_age_factors t m) a
     = if Nat.ltb a (length (age_factors t)) then get_age_factor t a * m else 1).
  { unfold get_age_factor, get_or, scale_age_factors, with_age_factors; simpl.
    rewrite nth_error_map_mult. destruct (Nat.ltb a (length (age_factors t))) eqn:E.
    - apply Nat.ltb_lt in E. destruct (nth_error (age_factors t) a) eqn:N; [reflexivity|].
      apply nth_error_None in N. lia.
    - apply Nat.ltb_ge in E. destruct (nth_error (age_factors t) a) eqn:N; [|reflexivity].
      assert (nth_error (age_factors t) a <> None) by congruence.
      apply nth_error_Some in H. lia. }
  split; [exact Hg|]. intros Ha Hb.
  assert (Hg' : get_age_factor (scale_age_factors t m) a = get_age_factor t a * m)
    by (rewrite Hg; apply Nat.ltb_lt in Ha; rewrite Ha; reflexivity).
  destruct (nth_error (base_rates t) a) as [fm|] eqn:Nb;
    [|apply nth_error_None in Nb; lia].
  unfold baseline_annual_rate, monthly_rate.
  change (base_rates (scale_age_factors t m)) with (base_rates t).
  change (conversion_method (scale_age_factors t m)) with (conversion_method t).
  change (projection_year (scale_age_factors t m)) with (projection_year t).
  change (table_base_year (scale_age_factors t m)) with (table_base_year t).
  assert (Hi : improvement_rate (scale_age_factors t m) a g = improvement_rate t a g)
    by reflexivity.
  rewrite Nb, Hg', Hi. split; [ring|].
  split; intros Hc; rewrite Hc; cbv zeta; unfold Rdiv; ring.
Qed.

Lemma scale_age_factors_effect_witness :
  monthly_rate (scale_age_factors (set_conversion_method iam_2012_with_improvement ExcelMethod) 1.1)
    70 Male 5
  = monthly_rate (set_conversion_method iam_2012_with_improvement ExcelMethod) 70 Male 5 * (1.1 * 1.1).
Proof.
  apply (scale_age_factors_effect (set_conversion_method iam_2012_with_improvement ExcelMethod)
           1.1 70 Male 5).
  - cbn [age_factors set_conversion_method iam_2012_with_improvement]. unfold default_age_factors.
    rewrite length_map, length_seq. lia.
  - cbn [base_rates set_conversion_method iam_2012_with_improvement iam_2012_base_rates length].
    lia.
  - reflexivity.
Defined.

(** X11: For an age with a base rate, the ExcelMethod monthly mortality rate equals the age factor times the SimpleDivision rate (the factor is applied twice), and baseline_annual_rate is raw_base_rate times the age factor. *)
Theorem monthly_rate_excel_applies_factor_twice (t : MortalityTable) (a : nat) (g : Gender) (pm : nat) :
  (a < length (base_rates t))%nat ->
  monthly_rate (set_conversion_method t ExcelMethod) a g pm
  = get_age_factor t a * monthly_rate (set_conversion_method t SimpleDivision) a g pm
  /\ baseline_annual_rate t a g = raw_base_rate t a g * get_age_factor t a.
Proof.
  intros Hb. destruct (nth_error (base_rates t) a) as [fm|] eqn:Nb;
    [|apply nth_error_None in Nb; lia].
  unfold monthly_rate, baseline_annual_rate, raw_base_rate, set_conversion_method; simpl.
  rewrite Nb. split; [|reflexivity].
  unfold get_age_factor, improvement_rate; simpl. unfold Rdiv; ring.
Qed.

Lemma monthly_rate_excel_applies_factor_twice_witness :
  monthly_rate (set_conversion_method iam_2012_with_improvement ExcelMethod) 85 Female 12
  = get_age_factor iam_2012_with_improvement 85
    * monthly_rate (set_conversion_method iam_2012_with_improvement SimpleDivision) 85 Female 12.
Proof.
  apply (monthly_rate_excel_applies_factor_twice iam_2012_with_improvement 85 Female 12).
  cbn [base_rates iam_2012_with_improvement iam_2012_base_rates length]. lia.
Defined.

Ltac nat_cmp_cases :=
  repeat match goal with
  | |- context [Nat.leb ?a ?b] => destruct (Nat.leb_spec a b)
  | |- context [Nat.ltb ?a ?b] => destruct (Nat.ltb_spec a b)
  | |- context [Nat.eqb ?a ?b] => destruct (Nat.eqb_spec a b)
  end; cbn [andb].

Lemma fold_set_seq_length (F : list R -> nat -> list R) (g : nat -> R)
    (HF : forall fs a, F fs a = list_set fs a (g a)) (n s : nat) (fs : list R) :
  length (fold_left F (seq s n) fs) = length fs.
Proof.
  revert s fs; induction n as [|n IH]; intros s fs; [reflexivity|].
  cbn [seq fold_left]. rewrite IH, HF. apply list_set_length.
Qed.

Lemma fold_set_seq_nth (F : list R -> nat -> list R) (g : nat -> R)
    (HF : forall fs a, F fs a = list_set fs a (g a)) (n s : nat) (fs : list R) (i : nat) :
  nth_error (fold_left F (seq s n) fs) i
  = if andb (Nat.leb s i) (Nat.ltb i (s + n))
    then (if Nat.ltb i (length fs) then Some (g i) else None)
    else nth_error fs i.
Proof.
  revert s fs; induction n as [|n IH]; intros s fs.
  - cbn [seq fold_left]. nat_cmp_cases; try reflexivity; lia.
  - cbn [seq fold_left]. rewrite IH, HF, list_set_length, nth_error_list_set.
    nat_cmp_cases; subst; try reflexivity; lia.
Qed.

(** X12: For start_age < end_age <= 120, graded_age_factors returns 121 factors: start_factor below start_age, linear interpolation from start_factor at start_age to end_factor at end_age, and end_factor above. *)
Theorem graded_age_factors_shape (s e : nat) (sf ef : R) :
  (s < e)%nat -> (e <= 120)%nat ->
  exists fs, graded_age_factors s e sf ef = Some fs
  /\ length fs = 121%nat
  /\ (forall a, (a <= 120)%nat ->
        nth_error fs a = Some (if Nat.ltb a s then sf
                               else if Nat.leb a e then sf + (ef - sf) * INR (a - s) / INR (e - s)
                               else ef))
  /\ nth_error fs s = Some sf /\ nth_error fs e = Some ef.
Proof.
  intros Hse He.
  assert (Hne : INR (e - s) <> 0) by (apply not_0_INR; lia).
  unfold graded_age_factors.
  destruct (Nat.ltb_spec e s); [lia|]. destruct (Nat.ltb_spec 120 e); [lia|]. cbv zeta.
  eexists; split; [reflexivity|].
  set (g := fun a => sf + (ef - sf) * INR (a - s) / INR (e - s)).
  assert (Hval : forall a, (a <= 120)%nat ->
    nth_error
      (fold_left (fun fs age => list_set fs age ef) (seq (S e) (120 - e))
         (fold_left (fun fs age => list_set fs age (g age))
            (seq s (S (e - s))) (repeat sf 121)))
      a = Some (if Nat.ltb a s then sf else if Nat.leb a e then g a else ef)).
  { intros a Ha.
    rewrite (fold_set_seq_nth _ (fun _ => ef)) by reflexivity.
    rewrite (fold_set_seq_length _ g) by reflexivity.
    rewrite (fold_set_seq_nth _ g) by reflexivity.
    rewrite repeat_length.
    assert (Hr : nth_error (repeat sf 121) a = Some sf)
      by (apply nth_error_repeat; lia).
    nat_cmp_cases; try reflexivity; try lia. exact Hr. }
  split; [|split; [|split]].
  - rewrite (fold_set_seq_length _ (fun _ => ef)) by reflexivity.
    rewrite (fold_set_seq_length _ g) by reflexivity. apply repeat_length.
  - exact Hval.
  - rewrite Hval by lia. nat_cmp_cases; try lia. f_equal. unfold g.
    rewrite Nat.sub_diag. simpl. unfold Rdiv. ring.
  - rewrite Hval by lia. nat_cmp_cases; try lia. f_equal. unfold g.
    field_simplify; [reflexivity|exact Hne].
Qed.

Lemma graded_age_factors_shape_witness :
  exists fs, graded_age_factors 60 90 0.6 1 = Some fs
  /\ length fs = 121%nat
  /\ (forall a, (a <= 120)%nat ->
        nth_error fs a = Some (if Nat.ltb a 60 then 0.6
                               else if Nat.leb a 90 then 0.6 + (1 - 0.6) * INR (a - 60) / INR (90 - 60)
                               else 1))
  /\ nth_error fs 60 = Some 0.6 /\ nth_error fs 90 = Some 1.
Proof. apply graded_age_factors_shape; lia. Defined.

Lemma geometric_seq_sum (v : R) (n s : nat) :
  fold_right Rplus 0 (map (fun k => v ^ k) (seq s n)) * (1 - v) = v ^ s - v ^ (s + n).
Proof.
  revert s; induction n as [|n IH]; intros s.
  - simpl. rewrite Nat.add_0_r. ring.
  - cbn [seq map fold_right]. rewrite Rmult_plus_distr_r, IH.
    replace (s + S n)%nat with (S s + n)%nat by lia. simpl. ring.
Qed.

Lemma fold_right_Rplus_scale (a : R) (l : list R) :
  fold_right Rplus 0 (map (fun x => a * x) l) = a * fold_right Rplus 0 l.
Proof. induction l as [|x l IH]; simpl; [ring|rewrite IH; ring]. Qed.

(** X13: For n_months below 2^31 (where [n_months as i32] keeps its value), pv_annuity_due is the sum of amount * v^k for k = 0..n-1 with v = 1/(1+r), and pv_annuity_ordinary the sum for k = 1..n, when r = 0 or |r| >= 1e-10 (and 1 + r is nonzero). *)
Theorem pv_annuity_geometric (amount : R) (n : nat) (r : R) :
  (Z.of_nat n <= i32_MAX)%Z ->
  1 + r <> 0 -> (r = 0 \/ 1 / IZR (Z.pow_pos 10 10) <= Rabs r) ->
  pv_annuity_due amount n r
  = fold_right Rplus 0 (map (fun k => amount * (1 / (1 + r)) ^ k) (seq 0 n))
  /\ pv_annuity_ordinary amount n r
  = fold_right Rplus 0 (map (fun k => amount * (1 / (1 + r)) ^ k) (seq 1 n)).
Proof.
  intros Hn Hr Hcase.
  assert (Hdue : pv_annuity_due amount n r
      = fold_right Rplus 0 (map (fun k => amount * (1 / (1 + r)) ^ k) (seq 0 n))).
  { unfold pv_annuity_due. rewrite powi_as_i32 by exact Hn.
    rewrite <- (map_map (fun k => (1 / (1 + r)) ^ k) (fun x => amount * x)),
      fold_right_Rplus_scale.
    destruct (Rlt_dec (Rabs r) (1 / IZR (Z.pow_pos 10 10))) as [Hs|Hs].
    - destruct Hcase as [->|Hc]; [|lra].
      replace (1 / (1 + 0)) with 1 by field.
      assert (H1 : forall m s, fold_right Rplus 0 (map (fun k => 1 ^ k) (seq s m)) = INR m).
      { induction m as [|m IH]; intros s; [reflexivity|].
        cbn [seq map fold_right]. rewrite IH, pow1, S_INR. ring. }
      rewrite H1. reflexivity.
    - cbv zeta. assert (Hr0 : r <> 0) by (intros ->; rewrite Rabs_R0 in Hs; apply Hs;
        unfold Rdiv; rewrite Rmult_1_l; apply Rinv_0_lt_compat, IZR_lt; reflexivity).
      assert (Hv : 1 - 1 / (1 + r) <> 0).
      { intros E. apply Hr0.
        replace r with ((1 - 1 / (1 + r)) * (1 + r)) by (field; exact Hr).
        rewrite E. ring. }
      pose proof (geometric_seq_sum (1 / (1 + r)) n 0) as G. simpl in G.
      apply (Rmult_eq_reg_r (1 - 1 / (1 + r))); [|exact Hv].
      unfold Rdiv at 1. rewrite Rmult_assoc, Rinv_l by exact Hv.
      rewrite (Rmult_assoc amount (fold_right _ _ _)), G. ring. }
  split; [exact Hdue|].
  unfold pv_annuity_ordinary. rewrite Hdue.
  rewrite <- (map_map (fun k => (1 / (1 + r)) ^ k) (fun x => amount * x)).
  rewrite <- (map_map (fun k => (1 / (1 + r)) ^ k) (fun x => amount * x)) at 1.
  rewrite !fold_right_Rplus_scale.
  assert (Hs : forall m s, fold_right Rplus 0 (map (fun k => (1 / (1 + r)) ^ k) (seq (S s) m))
             = 1 / (1 + r) * fold_right Rplus 0 (map (fun k => (1 / (1 + r)) ^ k) (seq s m))).
  { induction m as [|m IH]; intros s; [simpl; ring|].
    cbn [seq map fold_right]. rewrite IH. simpl. ring. }
  rewrite Hs. field. exact Hr.
Qed.

Lemma pv_annuity_geometric_witness :
  (Z.of_nat 12 <= i32_MAX)%Z /\
  pv_annuity_due 100 12 0.004
  = fold_right Rplus 0 (map (fun k => 100 * (1 / (1 + 0.004)) ^ k) (seq 0 12))
  /\ pv_annuity_ordinary 100 12 0.004
  = fold_right Rplus 0 (map (fun k => 100 * (1 / (1 + 0.004)) ^ k) (seq 1 12)).
Proof.
  split; [unfold i32_MAX; lia|].
  apply pv_annuity_geometric.
  - unfold i32_MAX; lia.
  - lra.
  - right. rewrite Rabs_right by lra. simpl. lra.
Defined.

(** X14: discount_to_month_elective is 1 at month 0 for every curve; without spot rates it is multiplicative over months m and n when m + n is below 2^31 (so that no [months as i32] wraps), and without a separate death rate death and elective discounting coincide. *)
Theorem discount_to_month_elective_compose (c : DiscountCurve) (m n : nat) :
  discount_to_month_elective c 0 = 1
  /\ (spot_rates c = None ->
      ((Z.of_nat (m + n) <= i32_MAX)%Z ->
       discount_to_month_elective c (m + n)
       = discount_to_month_elective c m * discount_to_month_elective c n)
      /\ (death_benefit_rate c = None ->
          discount_to_month_death c m = discount_to_month_elective c m)).
Proof.
  split.
  - unfold discount_to_month_elective.
    destruct (spot_rates c) as [spots|]; [|reflexivity].
    destruct (nth_error spots 0) as [spot|]; [|reflexivity].
    unfold powf. replace (- INR 0 / 12) with 0 by (simpl; field).
    destruct (Rlt_dec 0 (1 + spot)); [apply Rpower_O; exact r|].
    destruct (Rlt_dec 0 0); [lra|reflexivity].
  - intros Hs. unfold discount_to_month_elective. rewrite Hs. split.
    + intros Hmn. rewrite !powi_as_i32 by lia. apply pow_add.
    + intros Hd. unfold discount_to_month_death, dc_death_benefit_discount_factor,
        dc_elective_discount_factor. rewrite Hd. reflexivity.
Qed.

Lemma discount_to_month_elective_compose_witness :
  discount_to_month_elective (single_rate 0.05) (12 + 24)
  = discount_to_month_elective (single_rate 0.05) 12 * discount_to_month_elective (single_rate 0.05) 24.
Proof.
  apply (proj1 (proj2 (discount_to_month_elective_compose (single_rate 0.05) 12 24) eq_refl)).
  unfold i32_MAX. lia.
Defined.

Lemma fold_left_Rplus_shift {A} (f : A -> R) (l : list A) (a : R) :
  fold_left (fun acc x => acc + f x) l a = a + fold_left (fun acc x => acc + f x) l 0.
Proof.
  revert a; induction l as [|x l IH]; intros a; simpl; [ring|].
  rewrite IH, (IH (0 + f x)). ring.
Qed.

(** X15: The PV stream functions are 0 on an empty stream and add over concatenation, and pv_life_annuity is pv_elective_stream of the survival-weighted payments. *)
Theorem pv_streams_compose (c : DiscountCurve) (b1 b2 : list (nat * R))
    (d1 d2 : list (nat * R * R)) (payments : list (nat * R * R)) :
  pv_elective_stream c [] = 0
  /\ pv_elective_stream c (b1 ++ b2) = pv_elective_stream c b1 + pv_elective_stream c b2
  /\ pv_death_benefit_stream c (d1 ++ d2)
     = pv_death_benefit_stream c d1 + pv_death_benefit_stream c d2
  /\ pv_life_annuity payments c
     = pv_elective_stream c (map (fun x => let '(month, s, p) := x in (month, s * p)) payments).
Proof.
  split; [reflexivity|]. split; [|split].
  - unfold pv_elective_stream. rewrite fold_left_app, fold_left_Rplus_shift. reflexivity.
  - unfold pv_death_benefit_stream.
    assert (E : forall l a, fold_left (fun acc b => let '(month, prob, amount) := b in
                    acc + prob * amount * discount_to_month_death c month) l a
            = fold_left (fun acc b => acc + (let '(month, prob, amount) := b in
                    prob * amount * discount_to_month_death c month)) l a).
    { induction l as [|[[mo pr] am] l IH]; intros a; simpl; [reflexivity|apply IH]. }
    rewrite !E, fold_left_app, fold_left_Rplus_shift. reflexivity.
  - unfold pv_life_annuity, pv_elective_stream. generalize 0.
    induction payments as [|[[mo s] p] l IH]; intros a; simpl; [reflexivity|].
    apply IH.
Qed.

Lemma cache_get_filter (c : ReserveCache) (k k' : nat) :
  cache_get (filter (fun kv => negb (Nat.eqb (fst kv) k)) c) k'
  = if Nat.eqb k' k then None else cache_get c k'.
Proof.
  induction c as [|[k0 v0] tl IH]; simpl.
  - destruct (Nat.eqb k' k); reflexivity.
  - destruct (Nat.eqb_spec k0 k) as [->|Hne]; simpl.
    + rewrite IH. destruct (Nat.eqb_spec k' k), (Nat.eqb_spec k k'); subst; try reflexivity; lia.
    + destruct (Nat.eqb_spec k0 k'); subst.
      * destruct (Nat.eqb_spec k' k); [lia|reflexivity].
      * exact IH.
Qed.

(** X16: ReserveCache get after insert returns the inserted path for its policy and the old entry for other keys; remove returns the old entry, leaves the key absent and the other keys unchanged; an empty cache has no entries. *)
Theorem cache_map_laws (c : ReserveCache) (p : CachedReservePath) (k k' : nat) :
  cache_get (cache_insert c p) k'
  = (if Nat.eqb k' (cache_policy_id p) then Some p else cache_get c k')
  /\ fst (cache_remove c k) = cache_get c k
  /\ cache_get (snd (cache_remove c k)) k' = (if Nat.eqb k' k then None else cache_get c k')
  /\ cache_get [] k = None.
Proof.
  split; [|split; [reflexivity|split; [apply cache_get_filter|reflexivity]]].
  unfold cache_insert. simpl. rewrite cache_get_filter.
  rewrite Nat.eqb_sym. destruct (Nat.eqb k' (cache_policy_id p)); reflexivity.
Qed.

Lemma cache_get_in (c : ReserveCache) (k : nat) :
  cache_get c k = None <-> ~ In k (map fst c).
Proof.
  induction c as [|[k0 v0] tl IH]; simpl; [tauto|].
  destruct (Nat.eqb_spec k0 k); subst.
  - split; [discriminate|]. intros H; exfalso; apply H; left; reflexivity.
  - rewrite IH. intuition.
Qed.

Lemma filter_len_nodup (c : ReserveCache) (k : nat) :
  NoDup (map fst c) ->
  NoDup (map fst (filter (fun kv => negb (Nat.eqb (fst kv) k)) c))
  /\ length (filter (fun kv => negb (Nat.eqb (fst kv) k)) c)
     = (length c - (match cache_get c k with Some _ => 1 | None => 0 end))%nat
  /\ (match cache_get c k with Some _ => 1 | None => 0 end <= length c)%nat.
Proof.
  induction c as [|[k0 v0] tl IH]; intros Hnd; simpl; [repeat split; constructor|].
  inversion Hnd as [|? ? Hnotin Hnd']; subst.
  destruct (IH Hnd') as [Hn [Hl Hle]].
  destruct (Nat.eqb_spec k0 k); subst; simpl.
  - assert (cache_get tl k = None) by (apply cache_get_in; exact Hnotin).
    rewrite H in Hl. repeat split; [exact Hn|lia|lia].
  - repeat split.
    + constructor; [|exact Hn]. intros Hin. apply Hnotin.
      apply in_map_iff in Hin as [kv [E Hin]].
      apply filter_In in Hin as [Hin _]. apply in_map_iff. exists kv; auto.
    + rewrite Hl. destruct (cache_get tl k); lia.
    + destruct (cache_get tl k); lia.
Qed.

(** X17: If the cache keys are distinct, insert and remove keep them distinct; insert grows len by one exactly when the policy was absent, and remove shrinks it by one exactly when an entry was removed. *)
Theorem cache_len_accounting (c : ReserveCache) (p : CachedReservePath) (k : nat) :
  NoDup (map fst c) ->
  NoDup (map fst (cache_insert c p))
  /\ cache_len (cache_insert c p)
     = (cache_len c + match cache_get c (cache_policy_id p) with Some _ => 0 | None => 1 end)%nat
  /\ NoDup (map fst (snd (cache_remove c k)))
  /\ cache_len (snd (cache_remove c k))
     = (cache_len c - match fst (cache_remove c k) with Some _ => 1 | None => 0 end)%nat.
Proof.
  intros Hnd. unfold cache_len, cache_insert, cache_remove; simpl.
  destruct (filter_len_nodup c (cache_policy_id p) Hnd) as [Hn1 [Hl1 Hle1]].
  destruct (filter_len_nodup c k Hnd) as [Hn2 [Hl2 _]].
  repeat split; [| |exact Hn2|exact Hl2].
  - constructor; [|exact Hn1]. intros Hin.
    apply in_map_iff in Hin as [kv [E Hin]].
    apply filter_In in Hin as [_ Hf]. rewrite E, Nat.eqb_refl in Hf. discriminate.
  - rewrite Hl1. destruct (cache_get c (cache_policy_id p)); simpl in *; lia.
Qed.

Lemma cache_len_accounting_witness :
  NoDup (map fst [(7%nat, cached_path_new 7 0 24 1000 900 1000 50 20 0.05)])
  /\ cache_len (cache_insert [(7%nat, cached_path_new 7 0 24 1000 900 1000 50 20 0.05)]
                  (cached_path_new 8 3 30 500 400 450 25 10 0.04))
     = (1 + 1)%nat.
Proof.
  assert (Hnd : NoDup (map fst [(7%nat, cached_path_new 7 0 24 1000 900 1000 50 20 0.05)]))
    by (repeat constructor; simpl; tauto).
  split; [exact Hnd|].
  destruct (cache_len_accounting _ (cached_path_new 8 3 30 500 400 450 25 10 0.04) 7 Hnd)
    as [_ [H _]].
  exact H.
Defined.

(** X18: Once past the optimal activation month, approaching_activation holds for any threshold and needs_revalidation always asks for a re-solve; so does reaching the periodic revalidation interval; months_since_solve is 0 before the solve month. *)
Theorem needs_revalidation_triggers (c : RevalidationCriteria) (cached : CachedReservePath)
    (current_month : nat) (current_av current_bb : R) (threshold : N) :
  (past_optimal_activation cached current_month = true ->
     approaching_activation cached current_month threshold = true
     /\ needs_revalidation c cached current_month current_av current_bb = true)
  /\ ((periodic_revalidation_months c <= months_since_solve cached current_month)%nat ->
     needs_revalidation c cached current_month current_av current_bb = true)
  /\ (is_potentially_valid cached current_month = false ->
     months_since_solve cached current_month = 0%nat).
Proof.
  unfold past_optimal_activation, approaching_activation, needs_revalidation,
    months_since_solve, is_potentially_valid.
  split; [|split].
  - intros Hp. apply N.leb_le in Hp.
    assert (H0 : forall th, N.leb (cached_optimal_activation_month cached - N.of_nat current_month) th = true)
      by (intros th; apply N.leb_le; lia).
    split; [apply H0|]. cbv zeta.
    destruct (Nat.leb _ _); [reflexivity|]. destruct (Rltb _ _); [reflexivity|].
    rewrite H0. reflexivity.
  - intros Hm. apply Nat.leb_le in Hm. rewrite Hm. reflexivity.
  - intros Hv. apply Nat.leb_gt in Hv. lia.
Qed.

Lemma needs_revalidation_triggers_witness :
  past_optimal_activation (cached_path_new 3 0 24 1000 900 1000 50 20 0.05) 30 = true
  /\ needs_revalidation revalidation_default (cached_path_new 3 0 24 1000 900 1000 50 20 0.05)
       30 900 1000 = true.
Proof.
  assert (Hp : past_optimal_activation (cached_path_new 3 0 24 1000 900 1000 50 20 0.05) 30 = true)
    by reflexivity.
  split; [exact Hp|].
  destruct (needs_revalidation_triggers revalidation_default
              (cached_path_new 3 0 24 1000 900 1000 50 20 0.05) 30 900 1000 0) as [H _].
  exact (proj2 (H Hp)).
Defined.





(** X21: full_solve_and_cache reports gross = net = max(solved reserve, CSV), from_cache false and the CSV; when the CSV binds the month is u32::MAX and the surrender PV is the CSV; with caching on it stores the solve under the policy id leaving other entries alone, and with caching off it leaves the calculator unchanged. *)
Theorem full_solve_and_cache_spec (calc : CARVMCalculator) (p : Policy) (v : nat) (av bb : R) :
  let bf := brute_force_solve calc p v av bb in
  let csv := cash_surrender_value calc p v av in
  let r := fst (full_solve_and_cache calc p v av bb) in
  let calc' := snd (full_solve_and_cache calc p v av bb) in
  gross_reserve r = fmax (snd (fst bf)) csv
  /\ net_reserve r = gross_reserve r
  /\ from_cache r = false
  /\ csv_at_valuation r = csv
  /\ res_policy_id r = policy_id p
  /\ (is_csv_binding r = true ->
        optimal_activation_month r = u32_MAX /\ surrender_value_pv (reserve_components r) = csv)
  /\ (is_csv_binding r = false ->
        optimal_activation_month r = fst (fst bf) /\ reserve_components r = snd bf)
  /\ calc_assumptions calc' = calc_assumptions calc
  /\ calc_config calc' = calc_config calc
  /\ (use_caching (calc_config calc) = false -> calc' = calc)
  /\ (use_caching (calc_config calc) = true ->
        (exists path, cache_get (cache calc') (policy_id p) = Some path
           /\ cache_policy_id path = policy_id p /\ solve_month path = v
           /\ cached_optimal_activation_month path = fst (fst bf)
           /\ reserve_at_solve path = snd (fst bf)
           /\ av_at_solve path = av /\ bb_at_solve path = bb)
        /\ forall k, k <> policy_id p -> cache_get (cache calc') k = cache_get (cache calc) k).
Proof.
  intros bf csv r calc'. unfold r, calc', bf, csv. clear r calc' bf csv.
  unfold full_solve_and_cache.
  destruct (brute_force_solve calc p v av bb) as [[om res] comps]. cbv zeta. cbn [fst snd].
  unfold is_csv_binding. cbn [gross_reserve csv_at_valuation optimal_activation_month
    reserve_components from_cache net_reserve res_policy_id surrender_value_pv].
  split; [reflexivity|split; [reflexivity|split; [reflexivity|split; [reflexivity|split; [reflexivity|]]]]].
  split; [intros Hb; rewrite Hb; split; reflexivity|].
  split; [intros Hb; rewrite Hb; split; reflexivity|].
  destruct (use_caching (calc_config calc)) eqn:Hc.
  - cbn [calc_assumptions calc_config cache].
    split; [reflexivity|split; [reflexivity|split; [discriminate|]]].
    intros _. split.
    + eexists. split.
      * unfold cache_insert. cbn [cache_get cached_path_new cache_policy_id].
        rewrite Nat.eqb_refl. reflexivity.
      * repeat split; reflexivity.
    + intros k Hk. unfold cache_insert. cbn [cache_get cached_path_new cache_policy_id].
      destruct (Nat.eqb_spec (policy_id p) k); [congruence|].
      clear -Hk. induction (cache calc) as [|[k0 v0] tl IH]; simpl; [reflexivity|].
      destruct (Nat.eqb_spec k0 (policy_id p)); simpl.
      * subst. destruct (Nat.eqb_spec (policy_id p) k); [congruence|exact IH].
      * destruct (Nat.eqb k0 k); [reflexivity|exact IH].
  - split; [reflexivity|split; [reflexivity|split; [reflexivity|discriminate]]].
Qed.

Lemma full_solve_and_cache_fresh (calc : CARVMCalculator) (p : Policy) (v : nat) (av bb : R) :
  from_cache (fst (full_solve_and_cache calc p v av bb)) = false.
Proof.
  unfold full_solve_and_cache.
  destruct (brute_force_solve calc p v av bb) as [[om res] comps]. reflexivity.
Qed.

(** X22: calculate_reserve returns a cached result only with caching on, an entry for the policy and no revalidation trigger; it then records one cache hit and changes nothing else in the calculator. With caching off it is a plain full solve; with caching on and no entry for the policy it records one cache miss and then solves in full; after clear_cache the result is never from the cache. *)
Theorem calculate_reserve_paths (calc : CARVMCalculator) (p : Policy) (v : nat) :
  (from_cache (fst (calculate_reserve calc p v)) = true ->
     snd (calculate_reserve calc p v) = update_counters record_hit calc
     /\ use_caching (calc_config calc) = true
     /\ exists cached, cache_get (cache calc) (policy_id p) = Some cached
        /\ needs_revalidation (revalidation_criteria (calc_config calc)) cached v
             (get_av_at_month p v) (get_bb_at_month p v) = false)
  /\ (use_caching (calc_config calc) = false ->
     calculate_reserve calc p v
     = full_solve_and_cache calc p v (get_av_at_month p v) (get_bb_at_month p v))
  /\ (use_caching (calc_config calc) = true -> cache_get (cache calc) (policy_id p) = None ->
     calculate_reserve calc p v
     = full_solve_and_cache (update_counters record_miss calc) p v
         (get_av_at_month p v) (get_bb_at_month p v))
  /\ from_cache (fst (calculate_reserve (clear_cache calc) p v)) = false.
Proof.
  split; [|split; [|split]].
  - unfold calculate_reserve, calculate_with_cache; cbv zeta.
    destruct (use_caching (calc_config calc)) eqn:Hc;
      [|intros H; rewrite full_solve_and_cache_fresh in H; discriminate].
    destruct (cache_get (cache calc) (policy_id p)) as [cached|] eqn:Hg;
      [|intros H; rewrite full_solve_and_cache_fresh in H; discriminate].
    destruct (needs_revalidation _ cached v _ _) eqn:Hn;
      [intros H; rewrite full_solve_and_cache_fresh in H; discriminate|].
    destruct (try_roll_forward calc p v cached);
      [|intros H; rewrite full_solve_and_cache_fresh in H; discriminate].
    intros _. split; [reflexivity|split; [reflexivity|]]. exists cached. split; [reflexivity|exact Hn].
  - intros H. unfold calculate_reserve, calculate_with_cache; cbv zeta. rewrite H. reflexivity.
  - intros H1 H2. unfold calculate_reserve, calculate_with_cache; cbv zeta. rewrite H1, H2. reflexivity.
  - unfold calculate_reserve, calculate_with_cache, clear_cache; cbv zeta. cbn [cache calc_config].
    destruct (use_caching _); apply full_solve_and_cache_fresh.
Qed.

Lemma calculate_reserve_paths_witness :
  calculate_reserve reserve_calculator reserve_policy 6
  = full_solve_and_cache (update_counters record_miss reserve_calculator) reserve_policy 6
      (get_av_at_month reserve_policy 6) (get_bb_at_month reserve_policy 6).
Proof.
  destruct (calculate_reserve_paths reserve_calculator reserve_policy 6) as [_ [_ [H _]]].
  apply H; reflexivity.
Defined.

Lemma full_solve_and_cache_counters (calc : CARVMCalculator) (p : Policy) (v : nat) (av bb : R) :
  cache_counters (snd (full_solve_and_cache calc p v av bb)) = cache_counters calc.
Proof.
  unfold full_solve_and_cache.
  destruct (brute_force_solve calc p v av bb) as [[om res] comps].
  destruct (use_caching (calc_config calc)); reflexivity.
Qed.

(** X30: With caching on, one calculate_reserve call records exactly one of a cache hit, a cache miss or a revalidation in the cache statistics; with caching off it leaves the statistics unchanged. *)
Theorem calculate_reserve_counts (calc : CARVMCalculator) (p : Policy) (v : nat) :
  let c0 := cache_counters calc in
  let c1 := cache_counters (snd (calculate_reserve calc p v)) in
  (use_caching (calc_config calc) = true ->
     c1 = record_hit c0 \/ c1 = record_miss c0 \/ c1 = record_revalidation c0)
  /\ (use_caching (calc_config calc) = false -> c1 = c0).
Proof.
  cbv zeta. unfold calculate_reserve, calculate_with_cache. cbv zeta.
  split; intros Hc; rewrite Hc.
  - destruct (cache_get (cache calc) (policy_id p)) as [cached|];
      [|right; left; rewrite full_solve_and_cache_counters; reflexivity].
    destruct (needs_revalidation _ _ _ _ _);
      [right; right; rewrite full_solve_and_cache_counters; reflexivity|].
    destruct (try_roll_forward calc p v cached);
      [left; reflexivity | right; left; rewrite full_solve_and_cache_counters; reflexivity].
  - apply full_solve_and_cache_counters.
Qed.

Lemma roll_loop_add (calc : CARVMCalculator) (p : Policy) (v : R) (k1 k2 t : nat) (r : R) :
  roll_loop calc p v (k1 + k2) t r = roll_loop calc p v k2 (t + k1) (roll_loop calc p v k1 t r).
Proof.
  revert t r; induction k1 as [|k1 IH]; intros t r.
  - simpl. rewrite Nat.add_0_r. reflexivity.
  - simpl. rewrite IH. f_equal. lia.
Qed.

Lemma roll_loop_scale (calc : CARVMCalculator) (p : Policy) (v : R) (k t : nat) (a r : R) :
  roll_loop calc p v k t (a * r) = a * roll_loop calc p v k t r.
Proof.
  revert t r; induction k as [|k IH]; intros t r; [reflexivity|].
  simpl. unfold Rdiv. rewrite Rmult_assoc, <- IH. reflexivity.
Qed.

(** X23: roll_accumulation_reserve composes: rolling from t0 to t1 and then to t2 equals rolling from t0 to t2; it is linear in the reserve and the identity over zero months. *)
Theorem roll_accumulation_compose (calc : CARVMCalculator) (p : Policy) (r a : R) (t0 t1 t2 : nat) :
  (t0 <= t1 <= t2)%nat ->
  roll_accumulation_reserve calc (roll_accumulation_reserve calc r p t0 t1) p t1 t2
  = roll_accumulation_reserve calc r p t0 t2
  /\ roll_accumulation_reserve calc (a * r) p t0 t1 = a * roll_accumulation_reserve calc r p t0 t1
  /\ roll_accumulation_reserve calc r p t1 t1 = r.
Proof.
  intros Ht. unfold roll_accumulation_reserve.
  split; [|split; [apply roll_loop_scale|rewrite Nat.sub_diag; reflexivity]].
  replace (t2 - t0)%nat with ((t1 - t0) + (t2 - t1))%nat by lia.
  rewrite roll_loop_add. f_equal. lia.
Qed.

Lemma roll_accumulation_compose_witness :
  roll_accumulation_reserve reserve_calculator
    (roll_accumulation_reserve reserve_calculator 1000 reserve_policy 0 3) reserve_policy 3 6
  = roll_accumulation_reserve reserve_calculator 1000 reserve_policy 0 6.
Proof.
  destruct (roll_accumulation_compose reserve_calculator reserve_policy 1000 1 0 3 6) as [H _];
    [lia|exact H].
Defined.

(** X24: With zero mortality over the rolled months, roll_accumulation_reserve accumulates the reserve at the monthly valuation rate: r * (1 + i/12)^(t_now - t_prev). *)
Theorem roll_accumulation_no_mortality (calc : CARVMCalculator) (p : Policy) (r : R) (t0 t1 : nat) :
  (forall t, (t0 <= t < t1)%nat ->
     monthly_rate (mortality (calc_assumptions calc)) (attained_age p t) (gender p) t = 0) ->
  1 + val_rate p / 12 <> 0 ->
  roll_accumulation_reserve calc r p t0 t1 = r * (1 + val_rate p / 12) ^ (t1 - t0).
Proof.
  intros Hq Hi. unfold roll_accumulation_reserve.
  assert (Hk : forall k t r', (forall t', (t <= t' < t + k)%nat ->
      monthly_rate (mortality (calc_assumptions calc)) (attained_age p t') (gender p) t' = 0) ->
      roll_loop calc p (1 / (1 + val_rate p / 12)) k t r' = r' * (1 + val_rate p / 12) ^ k).
  { induction k as [|k IH]; intros t r' H; [simpl; ring|].
    cbn [roll_loop]. cbv zeta. rewrite (H t) by lia. rewrite IH by (intros; apply H; lia).
    simpl. field. intros E. apply Hi. lra. }
  apply Hk. intros t' Ht'. apply Hq. lia.
Qed.

Lemma roll_accumulation_no_mortality_witness :
  roll_accumulation_reserve reserve_calculator 1000 reserve_policy 0 6
  = 1000 * (1 + val_rate reserve_policy / 12) ^ (6 - 0).
Proof.
  apply roll_accumulation_no_mortality.
  - intros t _. apply zero_mortality_rate. unfold attained_age. lia.
  - cbn [val_rate reserve_policy]. lra.
Defined.









Lemma derivable_pt_lim_ext_eq (f g : R -> R) (r l : R) :
  (forall x, f x = g x) -> derivable_pt_lim f r l -> derivable_pt_lim g r l.
Proof.
  intros Hfg H eps Heps. destruct (H eps Heps) as [d Hd]. exists d.
  intros h Hh0 Hh. rewrite <- !Hfg. apply Hd; assumption.
Qed.

Lemma discount_term_derivative (cf r : R) (t : nat) :
  1 + r <> 0 ->
  derivable_pt_lim (fun x => cf / (1 + x) ^ t) r
    (if Nat.ltb 0 t then - (INR t * cf / (1 + r) ^ (t + 1)) else 0).
Proof.
  intros Hr.
  assert (Hp : derivable_pt_lim (fun x => (1 + x) ^ t) r (INR t * (1 + r) ^ Nat.pred t)).
  { replace (INR t * (1 + r) ^ Nat.pred t) with (INR t * (1 + r) ^ Nat.pred t * (0 + 1)) by ring.
    apply (derivable_pt_lim_comp (fun x => 1 + x) (fun y => y ^ t)).
    - apply derivable_pt_lim_plus; [apply derivable_pt_lim_const|apply derivable_pt_lim_id].
    - apply derivable_pt_lim_pow. }
  assert (Hd := derivable_pt_lim_div (fun _ => cf) (fun x => (1 + x) ^ t) r 0 _
                  (derivable_pt_lim_const cf r) Hp (pow_nonzero _ t Hr)).
  unfold div_fct in Hd. cbv beta in Hd.
  match type of Hd with derivable_pt_lim _ _ ?l =>
    replace (if Nat.ltb 0 t then - (INR t * cf / (1 + r) ^ (t + 1)) else 0) with l end;
    [exact Hd|].
  destruct t as [|t]; cbn [Nat.ltb Nat.leb].
  - simpl. unfold Rsqr. field.
  - cbn [Nat.pred]. replace (S t + 1)%nat with (S (S t)) by lia.
    unfold Rsqr. simpl. field. repeat split; try exact Hr; apply pow_nonzero; exact Hr.
Qed.

Lemma npv_and_derivative_aux_spec (r : R) (cfs : list R) :
  1 + r <> 0 ->
  forall t a b, (Z.of_nat (t + length cfs) <= i32_MAX)%Z ->
  fst (npv_and_derivative_aux cfs t r a b) = a + npv_at_rate_aux cfs t r
  /\ derivable_pt_lim (fun x => npv_at_rate_aux cfs t x) r (snd (npv_and_derivative_aux cfs t r a b) - b).
Proof.
  intros Hr. induction cfs as [|cf tl IH]; intros t a b Hlen.
  - simpl. split; [ring|]. replace (b - b) with 0 by ring. apply derivable_pt_lim_const.
  - cbn [npv_and_derivative_aux npv_at_rate_aux length] in *. cbv zeta.
    assert (Ht : (Z.of_nat t <= i32_MAX)%Z) by lia.
    assert (Ht1 : powi (1 + r) (wrap_i32 (as_i32 t + 1)) = (1 + r) ^ (t + 1)).
    { rewrite as_i32_small by exact Ht. rewrite wrap_i32_small by lia.
      replace (Z.of_nat t + 1)%Z with (Z.of_nat (t + 1)) by lia. unfold powi.
      destruct (Z.leb_spec 0 (Z.of_nat (t + 1))); [|lia]. rewrite Nat2Z.id. reflexivity. }
    rewrite Ht1, (powi_as_i32 (1 + r) t Ht).
    set (b' := if Nat.ltb 0 t then b - INR t * cf / (1 + r) ^ (t + 1) else b).
    destruct (IH (S t) (a + cf / (1 + r) ^ t) b') as [H1 H2]; [lia|].
    split; [rewrite H1; ring|].
    replace (snd (npv_and_derivative_aux tl (S t) r (a + cf / (1 + r) ^ t) b') - b)
      with ((if Nat.ltb 0 t then - (INR t * cf / (1 + r) ^ (t + 1)) else 0)
            + (snd (npv_and_derivative_aux tl (S t) r (a + cf / (1 + r) ^ t) b') - b'))
      by (unfold b'; destruct (Nat.ltb 0 t); ring).
    apply (derivable_pt_lim_plus (fun x => cf / powi (1 + x) (as_i32 t))
             (fun x => npv_at_rate_aux tl (S t) x)).
    + apply (derivable_pt_lim_ext_eq (fun x => cf / (1 + x) ^ t)).
      * intros x. rewrite (powi_as_i32 (1 + x) t Ht). reflexivity.
      * apply discount_term_derivative. exact Hr.
    + exact H2.
Qed.

(** X27: npv_and_derivative returns npv_at_rate as its first component and, when 1 + rate is nonzero and the vector has fewer than 2^31 entries (so that no [t as i32] or [t as i32 + 1] leaves the i32 range), the exact derivative of npv_at_rate with respect to the rate as its second. *)
Theorem npv_and_derivative_correct (cfs : list R) (r : R) :
  fst (npv_and_derivative cfs r) = npv_at_rate cfs r
  /\ (1 + r <> 0 -> (Z.of_nat (length cfs) <= i32_MAX)%Z ->
      derivable_pt_lim (npv_at_rate cfs) r (snd (npv_and_derivative cfs r))).
Proof.
  assert (Hfst : forall t a b, fst (npv_and_derivative_aux cfs t r a b) = a + npv_at_rate_aux cfs t r).
  { induction cfs as [|cf tl IH]; intros t a b; simpl; [ring|]. rewrite IH. ring. }
  split.
  - unfold npv_and_derivative, npv_at_rate. rewrite Hfst. ring.
  - intros Hr Hlen. destruct (npv_and_derivative_aux_spec r cfs Hr 0 0 0 Hlen) as [_ H].
    unfold npv_and_derivative, npv_at_rate. rewrite Rminus_0_r in H. exact H.
Qed.

Lemma project_state_forward_av_nonneg (b : BenefitCalculator) (p : Policy) (month : nat)
    (state : PolicyState) (av bb : R) :
  monthly_rate (mortality (ben_assumptions b)) (attained_age p month) (gender p) month <= 1 ->
  0 <= fst (project_state_forward b p month state av bb).
Proof.
  intros Hq. unfold project_state_forward. cbv zeta. cbn [fst].
  apply Rmult_le_pos; [|lra]. unfold fmax. apply Rmax_r.
Qed.

Lemma death_loop_nonneg (b : BenefitCalculator) (p : Policy) (v : nat) (am : option nat) :
  (forall t, 0 <= monthly_rate (mortality (ben_assumptions b)) (attained_age p t) (gender p) t <= 1) ->
  0 < death_benefit_discount_factor b ->
  forall fuel t sp av bb dpv, 0 <= sp -> 0 <= av -> 0 <= dpv ->
  0 <= death_loop b p v am fuel t sp av bb dpv.
Proof.
  intros Hq Hd. induction fuel as [|k IH]; intros t sp av bb dpv Hsp Hav Hdpv; [exact Hdpv|].
  cbn [death_loop]. cbv zeta.
  set (q := monthly_rate (mortality (ben_assumptions b)) (attained_age p t) (gender p) t).
  assert (Hq1 : 0 <= q <= 1) by apply Hq.
  set (st := match am with Some am0 => if Nat.leb am0 t then IncomeActive else Accumulation
             | None => Accumulation end).
  assert (Hdb : 0 <= death_benefit_amount st av) by (destruct st; simpl; lra).
  assert (Hpow : 0 <= powi (death_benefit_discount_factor b) (as_i32 (t - v)))
    by (left; apply powi_pos; exact Hd).
  assert (Hdpv' : 0 <= dpv + sp * q * death_benefit_amount st av * powi (death_benefit_discount_factor b) (as_i32 (t - v))).
  { assert (0 <= sp * q * death_benefit_amount st av * powi (death_benefit_discount_factor b) (as_i32 (t - v)));
      [|lra].
    repeat apply Rmult_le_pos; lra. }
  destruct (Rltb (sp * (1 - q)) one_e_minus_10); [exact Hdpv'|].
  pose proof (project_state_forward_av_nonneg b p t st av bb (proj2 Hq1)) as Hav'.
  destruct (project_state_forward b p t st av bb) as [av' bb']. cbn [fst] in Hav'.
  apply IH; [nra|exact Hav'|exact Hdpv'].
Qed.

Lemma income_loop_nonneg (b : BenefitCalculator) (p : Policy) (v am : nat) (mi : R) :
  (forall t, 0 <= monthly_rate (mortality (ben_assumptions b)) (attained_age p t) (gender p) t <= 1) ->
  0 < elective_discount_factor b -> 0 <= mi ->
  forall fuel t sp ipv, 0 <= sp -> 0 <= ipv -> 0 <= income_loop b p v am mi fuel t sp ipv.
Proof.
  intros Hq Hd Hmi. induction fuel as [|k IH]; intros t sp ipv Hsp Hipv; [exact Hipv|].
  cbn [income_loop]. cbv zeta.
  set (q := monthly_rate (mortality (ben_assumptions b)) (attained_age p t) (gender p) t).
  assert (Hq1 : 0 <= q <= 1) by apply Hq.
  assert (Hpow : 0 <= powi (elective_discount_factor b) (as_i32 (t - v))) by (left; apply powi_pos; lra).
  assert (Hipv' : 0 <= (if Nat.leb am t then ipv + sp * mi * powi (elective_discount_factor b) (as_i32 (t - v)) else ipv)).
  { destruct (Nat.leb am t); [|exact Hipv].
    assert (0 <= sp * mi * powi (elective_discount_factor b) (as_i32 (t - v))) by (repeat apply Rmult_le_pos; lra).
    lra. }
  destruct (Rltb (sp * (1 - q)) one_e_minus_10); [exact Hipv'|].
  apply IH; [nra|exact Hipv'].
Qed.

(** X28: With monthly mortality rates in [0, 1], a valuation rate above -12, and non-negative AV, benefit base and payout factor, death_benefit_pv and income_benefit_pv are non-negative. *)
Theorem benefit_pvs_nonneg (b : BenefitCalculator) (p : Policy) (v : nat) (am : option nat)
    (m : nat) (av bb : R) :
  (forall t, 0 <= monthly_rate (mortality (ben_assumptions b)) (attained_age p t) (gender p) t <= 1) ->
  0 < 1 + valuation_rate b / 12 ->
  0 <= av -> 0 <= bb ->
  0 <= get_single_life (payout_factors (glwb (product (ben_assumptions b)))) (attained_age p m) ->
  0 <= death_benefit_pv b p v am av bb /\ 0 <= income_benefit_pv b p v m bb.
Proof.
  intros Hq Hv Hav Hbb Hpay.
  assert (Hd : 0 < 1 / (1 + valuation_rate b / 12)) by (unfold Rdiv; rewrite Rmult_1_l; apply Rinv_0_lt_compat; exact Hv).
  split.
  - unfold death_benefit_pv. apply death_loop_nonneg; [exact Hq|exact Hd|lra|exact Hav|lra].
  - unfold income_benefit_pv. destruct (Nat.ltb m v); [lra|]. cbv zeta.
    apply income_loop_nonneg; [exact Hq|exact Hd| |lra|lra].
    unfold Rdiv. apply Rmult_le_pos; [apply Rmult_le_pos; assumption|lra].
Qed.

Lemma benefit_pvs_nonneg_witness :
  0 <= death_benefit_pv (benefit_calc reserve_calculator reserve_policy) reserve_policy 6 (Some 7%nat)
         100000 100
  /\ 0 <= income_benefit_pv (benefit_calc reserve_calculator reserve_policy) reserve_policy 6 7 100.
Proof.
  apply benefit_pvs_nonneg.
  - intros t. cbn [ben_assumptions benefit_calc calc_assumptions reserve_calculator mortality reserve_assumptions].
    rewrite zero_mortality_rate by (unfold attained_age; lia). lra.
  - cbn [valuation_rate benefit_calc val_rate reserve_policy]. lra.
  - lra.
  - lra.
  - cbn. lra.
Defined.

Lemma income_loop_scale (b : BenefitCalculator) (p : Policy) (v am : nat) (mi c : R) :
  forall fuel t sp ipv,
  income_loop b p v am (c * mi) fuel t sp (c * ipv) = c * income_loop b p v am mi fuel t sp ipv.
Proof.
  induction fuel as [|k IH]; intros t sp ipv; [reflexivity|].
  cbn [income_loop]. cbv zeta.
  replace (if Nat.leb am t then c * ipv + sp * (c * mi) * powi (elective_discount_factor b) (as_i32 (t - v))
           else c * ipv)
    with (c * (if Nat.leb am t then ipv + sp * mi * powi (elective_discount_factor b) (as_i32 (t - v)) else ipv))
    by (destruct (Nat.leb am t); ring).
  destruct (Rltb _ one_e_minus_10); [reflexivity|apply IH].
Qed.

Lemma death_loop_no_mortality (b : BenefitCalculator) (p : Policy) (v : nat) (am : option nat) :
  (forall t, monthly_rate (mortality (ben_assumptions b)) (attained_age p t) (gender p) t = 0) ->
  forall fuel t sp av bb dpv, death_loop b p v am fuel t sp av bb dpv = dpv.
Proof.
  intros Hq. induction fuel as [|k IH]; intros t sp av bb dpv; [reflexivity|].
  cbn [death_loop]. cbv zeta. rewrite Hq.
  replace (dpv + sp * 0 * _ * _) with dpv by ring.
  destruct (Rltb _ one_e_minus_10); [reflexivity|].
  destruct (project_state_forward _ _ _ _ _ _). apply IH.
Qed.

(** X29: income_benefit_pv and remaining_income_pv scale linearly with the benefit base, and with zero mortality death_benefit_pv is 0. *)
Theorem benefit_pvs_scaling (b : BenefitCalculator) (p : Policy) (v m : nat) (am : option nat)
    (av bb c x : R) :
  income_benefit_pv b p v m (c * bb) = c * income_benefit_pv b p v m bb
  /\ remaining_income_pv b p v (c * bb) x = c * remaining_income_pv b p v bb x
  /\ ((forall t, monthly_rate (mortality (ben_assumptions b)) (attained_age p t) (gender p) t = 0) ->
      death_benefit_pv b p v am av bb = 0).
Proof.
  split; [|split].
  - unfold income_benefit_pv. destruct (Nat.ltb m v); [ring|]. cbv zeta.
    rewrite <- income_loop_scale. f_equal; [unfold Rdiv; ring|ring].
  - unfold remaining_income_pv. rewrite <- income_loop_scale. f_equal; [unfold Rdiv; ring|ring].
  - intros Hq. unfold death_benefit_pv. apply death_loop_no_mortality. exact Hq.
Qed.
